(** * Messier explorer: coordinate parsing, classification, loading

    A shallow embedding of the pure core of the Messier sky chart
    (config.py and data_utils.py) and the properties its specification
    states about it.

    Python values are modelled as the interpreter has them:
    - a [str] is a sequence of Unicode code points ([list N]);
    - a [float] is an IEEE 754 binary64 number ([spec_float] with
      precision 53 and maximal exponent 1024, the Standard Library's
      specification of binary floating point), an [int] is a [Z];
    - a raised exception is the left summand of a result, and [print]
      appends a message to a log that the functions return. *)

From Stdlib Require Import String Ascii Bool NArith ZArith QArith Qabs Qpower Qround Lia Lqa List.
From Stdlib Require Import Permutation Sorted.
From Stdlib Require Import SpecFloat.
Import ListNotations.

Set Implicit Arguments.

(** ** Python strings *)

Module PyStr.

Definition char := N.
Definition str := list char.

(** Source literals are written as UTF-8 text and decoded to code points. *)
Fixpoint utf8_go (pending : nat) (acc : N) (bs : list N) : str :=
  match bs with
  | [] => []
  | b :: rest =>
      match pending with
      | O =>
          if (b <? 128)%N then b :: utf8_go 0 0%N rest
          else if (b <? 224)%N then utf8_go 1 (b - 192)%N rest
          else if (b <? 240)%N then utf8_go 2 (b - 224)%N rest
          else utf8_go 3 (b - 240)%N rest
      | S O => (acc * 64 + (b - 128))%N :: utf8_go 0 0%N rest
      | S k => utf8_go k (acc * 64 + (b - 128))%N rest
      end
  end.

Definition u (s : string) : str :=
  utf8_go 0 0%N (map N_of_ascii (list_ascii_of_string s)).

Definition str_eqb (a b : str) : bool :=
  if list_eq_dec N.eq_dec a b then true else false.

(** [str.isspace] on one code point: the code points whose bidirectional
    class is WS, B or S, or whose category is Zs. *)
Definition py_isspace (c : char) : bool :=
  ((9 <=? c) && (c <=? 13) || (28 <=? c) && (c <=? 32)
   || (c =? 133) || (c =? 160) || (c =? 5760)
   || (8192 <=? c) && (c <=? 8202)
   || (c =? 8232) || (c =? 8233) || (c =? 8239) || (c =? 8287)
   || (c =? 12288))%N.

(** [str.lower].  ASCII capitals are shifted; the only two code points
    outside ASCII whose lower-case form contains an ASCII letter are
    U+0130 (dotted capital I) and U+212A (Kelvin sign).  Every other
    code point outside ASCII is kept as it is: the interpreter maps it
    to code points outside ASCII, which no ASCII keyword or table key
    contains. *)
Definition lower_char (c : char) : str :=
  if ((65 <=? c) && (c <=? 90))%N then [(c + 32)%N]
  else if (c =? 304)%N then [105%N; 775%N]
  else if (c =? 8490)%N then [107%N]
  else [c].

Definition py_lower (s : str) : str := flat_map lower_char s.

(** [old] is a prefix of [s]. *)
Fixpoint starts_with (old s : str) : bool :=
  match old, s with
  | [], _ => true
  | _ :: _, [] => false
  | a :: old', b :: s' => (a =? b)%N && starts_with old' s'
  end.

(** [sub in s]: substring test. *)
Fixpoint py_contains (sub s : str) : bool :=
  starts_with sub s ||
  match s with
  | [] => false
  | _ :: s' => py_contains sub s'
  end.

(** [s.replace(old, new)] for a non-empty [old]: leftmost non-overlapping
    occurrences; [skip] counts the code points of a match still to drop. *)
Fixpoint replace_from (old new : str) (skip : nat) (s : str) : str :=
  match s with
  | [] => []
  | c :: rest =>
      match skip with
      | S k => replace_from old new k rest
      | O =>
          if starts_with old s
          then new ++ replace_from old new (length old - 1) rest
          else c :: replace_from old new 0 rest
      end
  end.

Definition py_replace (old new s : str) : str :=
  match old with
  | [] => new ++ flat_map (fun c => c :: new) s
  | _ :: _ => replace_from old new 0 s
  end.

(** [s.split()]: the maximal runs of code points that are not white
    space; [cur] is the run being read, in reverse. *)
Fixpoint split_go (cur : str) (s : str) : list str :=
  match s with
  | [] => match cur with [] => [] | _ :: _ => [rev cur] end
  | c :: rest =>
      if py_isspace c
      then match cur with
           | [] => split_go [] rest
           | _ :: _ => rev cur :: split_go [] rest
           end
      else split_go (c :: cur) rest
  end.

Definition py_split (s : str) : list str := split_go [] s.

(** [s.lstrip(chars)]. *)
Fixpoint py_lstrip (chars : str) (s : str) : str :=
  match s with
  | [] => []
  | c :: rest =>
      if existsb (N.eqb c) chars then py_lstrip chars rest else s
  end.

End PyStr.
Import PyStr.

(** ** config.py: categories, classification and styling *)

Record category_config := {
  base_symbol : str;
  base_color : str;
  keywords : list str
}.

(** A Python [dict] keeps its items in insertion order. *)
Definition dict (V : Type) := list (str * V).

Fixpoint dict_get {V : Type} (d : dict V) (key : str) : option V :=
  match d with
  | [] => None
  | (k, v) :: rest => if str_eqb k key then Some v else dict_get rest key
  end.

(** [d.get(key, default)]. *)
Definition dict_get_default {V : Type} (d : dict V) (key : str) (default : V) : V :=
  match dict_get d key with
  | Some v => v
  | None => default
  end.

Definition OBJECT_CATEGORIES : dict category_config :=
  [ (u "Galaxy",
     {| base_symbol := u "circle"; base_color := u "#FF6B6B";
        keywords := [u "galaxy"; u "Galaxy"] |});
    (u "Nebula",
     {| base_symbol := u "square"; base_color := u "#DDA0DD";
        keywords := [u "nebula"; u "Nebula"] |});
    (u "Cluster",
     {| base_symbol := u "star"; base_color := u "#96CEB4";
        keywords := [u "cluster"; u "Cluster"; u "cloud"] |});
    (u "Other",
     {| base_symbol := u "diamond"; base_color := u "#FFEAA7";
        keywords := [] |}) ].

(** The inner loop of [classify_object_type]: does some keyword of the
    list, lower-cased, occur in the lower-cased label? *)
Fixpoint any_keyword_in (kws : list str) (obj_type_str : str) : bool :=
  match kws with
  | [] => false
  | keyword :: rest =>
      if py_contains (py_lower keyword) obj_type_str then true
      else any_keyword_in rest obj_type_str
  end.

(** The outer loop: the first category, in dictionary order, one of
    whose keywords matches. *)
Fixpoint first_category (cats : dict category_config) (obj_type_str : str)
  : option str :=
  match cats with
  | [] => None
  | (category, config) :: rest =>
      if any_keyword_in (keywords config) obj_type_str then Some category
      else first_category rest obj_type_str
  end.

(** [classify_object_type]; [str(obj_type)] is the label itself when the
    argument is a string. *)
Definition classify_object_type (obj_type : str) : str :=
  let obj_type_str := py_lower obj_type in
  match first_category OBJECT_CATEGORIES obj_type_str with
  | Some category => category
  | None => u "Other"
  end.

Record style := {
  symbol : str;
  color : str;
  size : Z;
  category : str
}.

Definition color_variations : dict (dict str) :=
  [ (u "Galaxy",
     [ (u "spiral galaxy", u "#FF6B6B");
       (u "elliptical galaxy", u "#FF8E8E");
       (u "dwarf elliptical galaxy", u "#FFB1B1");
       (u "barred spiral galaxy", u "#FF4848");
       (u "lenticular galaxy", u "#FFA0A0");
       (u "starburst galaxy", u "#FF2525") ]);
    (u "Nebula",
     [ (u "planetary nebula", u "#DDA0DD");
       (u "h ii region nebula", u "#E6B3E6");
       (u "diffuse nebula", u "#F0C6F0");
       (u "nebula with cluster", u "#D187D1");
       (u "supernova remnant", u "#C66EC6") ]);
    (u "Cluster",
     [ (u "globular cluster", u "#96CEB4");
       (u "open cluster", u "#A8D4C1");
       (u "milky way star cloud", u "#BCDACF") ]);
    (u "Other",
     [ (u "optical double", u "#FFEAA7");
       (u "asterism", u "#FFE074") ]) ].

Definition symbol_variations : dict (dict str) :=
  [ (u "Galaxy",
     [ (u "spiral galaxy", u "circle");
       (u "elliptical galaxy", u "circle-open");
       (u "dwarf elliptical galaxy", u "circle-dot");
       (u "barred spiral galaxy", u "circle-cross");
       (u "lenticular galaxy", u "circle-x");
       (u "starburst galaxy", u "circle") ]);
    (u "Nebula",
     [ (u "planetary nebula", u "square");
       (u "h ii region nebula", u "square-open");
       (u "diffuse nebula", u "square-dot");
       (u "nebula with cluster", u "square-cross");
       (u "supernova remnant", u "triangle-up") ]);
    (u "Cluster",
     [ (u "globular cluster", u "star");
       (u "open cluster", u "star-open");
       (u "milky way star cloud", u "star-dot") ]);
    (u "Other",
     [ (u "optical double", u "diamond");
       (u "asterism", u "diamond-open") ]) ].

(** [get_object_style]; [OBJECT_CATEGORIES[category]] raises [KeyError]
    on a missing key, which is [None] here. *)
Definition get_object_style (obj_type : str) : option style :=
  let category := classify_object_type obj_type in
  match dict_get OBJECT_CATEGORIES category with
  | None => None
  | Some base_config =>
      let obj_type_lower := py_lower obj_type in
      let color :=
        dict_get_default (dict_get_default color_variations category [])
                         obj_type_lower (base_color base_config) in
      let symbol :=
        dict_get_default (dict_get_default symbol_variations category [])
                         obj_type_lower (base_symbol base_config) in
      Some {| symbol := symbol; color := color; size := 8;
              category := category |}
  end.

(** data_utils.py: the classifier written a second time inside
    [get_filter_options]. *)
Definition classify_object_type_local (obj_type : str) : str :=
  let obj_type_str := py_lower obj_type in
  if existsb (fun keyword => py_contains keyword obj_type_str) [u "galaxy"]
  then u "Galaxy"
  else if existsb (fun keyword => py_contains keyword obj_type_str) [u "nebula"]
  then u "Nebula"
  else if existsb (fun keyword => py_contains keyword obj_type_str)
                  [u "cluster"; u "cloud"]
  then u "Cluster"
  else u "Other".

(** ** Python numbers *)

Module PyNum.

(** binary64 *)
Definition prec : Z := 53.
Definition emax : Z := 1024.

Definition fadd := SFadd prec emax.
Definition fmul := SFmul prec emax.
Definition fdiv := SFdiv prec emax.

(** The nearest binary64 number (ties to even) to the quotient [a / b]
    of two positive integers. *)
Definition nearest_quotient (neg : bool) (a b : positive) : spec_float :=
  let '(q, e, l) := SFdiv_core_binary prec emax (Zpos a) 0 (Zpos b) 0 in
  binary_round_aux prec emax neg q e l.

(** [float(z)] for an [int]: the nearest binary64 number. *)
Definition float_of_int (z : Z) : spec_float :=
  binary_normalize prec emax z 0 false.

(** The nearest binary64 number to [(-1)^neg * mant * 10^e10], which is
    what the interpreter's string conversion returns. *)
Definition float_of_decimal (neg : bool) (mant : Z) (e10 : Z) : spec_float :=
  match mant with
  | Zpos m =>
      match e10 with
      | Zneg k => nearest_quotient neg m (Pos.pow 10 k)
      | _ => binary_round prec emax neg (m * Z.to_pos (10 ^ e10)) 0
      end
  | _ => S754_zero neg
  end.

Inductive pynum :=
  | PInt (z : Z)
  | PFloat (f : spec_float).

Definition to_float (x : pynum) : spec_float :=
  match x with
  | PInt z => float_of_int z
  | PFloat f => f
  end.

Definition is_zero (x : pynum) : bool :=
  match x with
  | PInt 0 => true
  | PFloat (S754_zero _) => true
  | _ => false
  end.

(** [x + y] *)
Definition py_add (x y : pynum) : pynum :=
  match x, y with
  | PInt a, PInt b => PInt (a + b)
  | _, _ => PFloat (fadd (to_float x) (to_float y))
  end.

(** [x * y] *)
Definition py_mul (x y : pynum) : pynum :=
  match x, y with
  | PInt a, PInt b => PInt (a * b)
  | _, _ => PFloat (fmul (to_float x) (to_float y))
  end.

(** [m * 2^e] as a rational. *)
Definition dyadic (m e : Z) : Q :=
  match e with
  | Zneg p => m # Pos.pow 2 p
  | _ => inject_Z (m * 2 ^ e)
  end.

(** The exact value of a binary64 number that is finite. *)
Definition SF2Q (f : spec_float) : Q :=
  match f with
  | S754_finite s m e =>
      if s then - dyadic (Zpos m) e else dyadic (Zpos m) e
  | _ => 0
  end.

Definition is_finite (f : spec_float) : bool :=
  match f with
  | S754_zero _ | S754_finite _ _ _ => true
  | _ => false
  end.

(** A number that is finite and whose value lies in [[lo, hi]]. *)
Definition num_between (lo hi : Q) (x : pynum) : Prop :=
  match x with
  | PInt z => lo <= inject_Z z <= hi
  | PFloat f => is_finite f = true /\ lo <= SF2Q f <= hi
  end.

End PyNum.
Import PyNum.

(** ** Exceptions and results *)

Inductive exn :=
  | TypeError
  | AttributeError
  | IndexError
  | ValueError
  | ZeroDivisionError
  | KeyError
  | FileNotFoundError
  | ImportError
  | OtherException.

Definition result (A : Type) := sum exn A.

Definition ret {A : Type} (a : A) : result A := inr a.
Definition raise {A : Type} (e : exn) : result A := inl e.
Definition bind {A B : Type} (m : result A) (k : A -> result B) : result B :=
  match m with
  | inl e => inl e
  | inr a => k a
  end.

Notation "x <- m ;; k" := (bind m (fun x => k))
  (at level 61, m at next level, right associativity).

(** [x / y]: true division; the quotient of two integers is rounded
    once. *)
Definition py_truediv (x y : pynum) : result pynum :=
  if is_zero y then raise ZeroDivisionError
  else
    match x, y with
    | PInt 0, PInt b => ret (PFloat (S754_zero (b <? 0)%Z))
    | PInt (Zpos a), PInt (Zpos b) => ret (PFloat (nearest_quotient false a b))
    | PInt (Zneg a), PInt (Zneg b) => ret (PFloat (nearest_quotient false a b))
    | PInt (Zpos a), PInt (Zneg b) => ret (PFloat (nearest_quotient true a b))
    | PInt (Zneg a), PInt (Zpos b) => ret (PFloat (nearest_quotient true a b))
    | _, _ => ret (PFloat (fdiv (to_float x) (to_float y)))
    end.

(** ** The conversion [float(s)] of a string *)

Module FloatParse.

Definition is_digit (c : char) : bool := ((48 <=? c) && (c <=? 57))%N.

(** White space as the conversion sees it: the six ASCII blanks, and
    outside ASCII every code point of [str.isspace]. *)
Definition float_isspace (c : char) : bool :=
  if (c <? 128)%N then ((9 <=? c) && (c <=? 13) || (c =? 32))%N
  else py_isspace c.

Fixpoint drop_space (s : str) : str :=
  match s with
  | c :: rest => if float_isspace c then drop_space rest else s
  | [] => []
  end.

Definition strip_space (s : str) : str :=
  rev (drop_space (rev (drop_space s))).

(** Underscores are dropped when each stands between two digits;
    [prev] is the code point read last (0 at the start). *)
Fixpoint drop_underscores (prev : char) (s : str) : option str :=
  match s with
  | [] => if (prev =? 95)%N then None else Some []
  | c :: rest =>
      if (c =? 95)%N then
        if is_digit prev then drop_underscores c rest else None
      else if (prev =? 95)%N && negb (is_digit c) then None
      else option_map (cons c) (drop_underscores c rest)
  end.

Definition read_sign (s : str) : bool * str :=
  match s with
  | 45%N :: rest => (true, rest)
  | 43%N :: rest => (false, rest)
  | _ => (false, s)
  end.

(** The leading digits of [s] and what follows them. *)
Fixpoint span_digits (s : str) : str * str :=
  match s with
  | c :: rest =>
      if is_digit c
      then let '(ds, tl) := span_digits rest in (c :: ds, tl)
      else ([], s)
  | [] => ([], [])
  end.

Definition digits_value (ds : str) : Z :=
  fold_left (fun acc c => (10 * acc + Z.of_N (c - 48))%Z) ds 0%Z.

(** ASCII lower case, as the comparison with "inf" and "nan" does it. *)
Definition ascii_lower (c : char) : char :=
  if ((65 <=? c) && (c <=? 90))%N then (c + 32)%N else c.

(** "inf", "infinity" and "nan" in any case, after an optional sign. *)
Definition parse_inf_or_nan (s : str) : option spec_float :=
  let '(neg, body) := read_sign s in
  let low := map ascii_lower body in
  if str_eqb low (u "inf") || str_eqb low (u "infinity")
  then Some (S754_infinity neg)
  else if str_eqb low (u "nan") then Some S754_nan
  else None.

(** A decimal numeral: sign, digits with an optional point, and an
    optional exponent; the result is the sign, the digits read as one
    integer and the power of ten that scales it. *)
Definition parse_decimal (s : str) : option (bool * Z * Z) :=
  let '(neg, s1) := read_sign s in
  let '(ip, s2) := span_digits s1 in
  let '(fp, s3) :=
    match s2 with
    | 46%N :: t => span_digits t
    | _ => ([], s2)
    end in
  match ip ++ fp with
  | [] => None
  | _ :: _ =>
      let mant := digits_value (ip ++ fp) in
      let scale := Z.of_nat (length fp) in
      match s3 with
      | [] => Some (neg, mant, (- scale)%Z)
      | c :: t =>
          if (c =? 101)%N || (c =? 69)%N then
            let '(eneg, t1) := read_sign t in
            let '(ed, t2) := span_digits t1 in
            match ed, t2 with
            | _ :: _, [] =>
                let e := digits_value ed in
                Some (neg, mant, ((if eneg then - e else e) - scale)%Z)
            | _, _ => None
            end
          else None
      end
  end.

(** [float(s)].  Digits outside ASCII, which the interpreter also
    reads, are not part of this model: a string that contains one is
    rejected here. *)
Definition py_float (s : str) : result spec_float :=
  match drop_underscores 0%N s with
  | None => raise ValueError
  | Some s1 =>
      let s2 := strip_space s1 in
      match parse_inf_or_nan s2 with
      | Some f => ret f
      | None =>
          match parse_decimal s2 with
          | Some (neg, mant, e10) => ret (float_of_decimal neg mant e10)
          | None => raise ValueError
          end
      end
  end.

End FloatParse.
Import FloatParse.

(** ** data_utils.py: coordinate parsing *)

(** The values a table cell or an argument can hold. *)
Inductive pyval :=
  | VStr (s : str)
  | VNum (x : pynum)
  | VNone.

(** What [print] writes, one constructor for each [print] of the
    module. *)
Inductive message :=
  | ErrorParsingRA (shown : pyval) (e : exn)
  | ErrorParsingDec (shown : pyval) (e : exn)
  | ProcessingCoordinates
  | InvalidCoordinates (invalid_count : nat)
  | LoadedFromCsv (n : nat) (path : str)
  | CsvNotFound (path : str)
  | ErrorLoadingCsv (e : exn)
  | UsingSampleInstead
  | UsingSampleWith (n : nat)
  | FallingBackToCsvOrSample
  | AttemptingAstropy
  | LoadingStarCatalog
  | CreatedCatalog (n : nat)
  | CatalogComplete (n : nat)
  | BuiltinCatalogFailed (e : exn)
  | AttemptingSimbad
  | QueriedSimbad (i : nat)
  | SimbadQueryFailed (i : nat) (e : exn)
  | SimbadCompleted (successful_queries : nat)
  | SimbadFailedCompletely (e : exn).

(** [parts[i]] *)
Definition index {A : Type} (parts : list A) (i : nat) : result A :=
  match nth_error parts i with
  | Some x => ret x
  | None => raise IndexError
  end.

(** [float(parts[i])] *)
Definition float_part (parts : list str) (i : nat) : result pynum :=
  p <- index parts i ;;
  f <- py_float p ;;
  ret (PFloat f).

(** [float(parts[i]) if len(parts) > i else 0] *)
Definition float_part_or_0 (parts : list str) (i : nat) : result pynum :=
  if (i <? length parts)%nat then float_part parts i else ret (PInt 0).

(** [(hours + minutes/60 + seconds/3600)] *)
Definition sexagesimal (whole minutes seconds : pynum) : result pynum :=
  m60 <- py_truediv minutes (PInt 60) ;;
  s3600 <- py_truediv seconds (PInt 3600) ;;
  ret (py_add (py_add whole m60) s3600).

(** The [try] block of [ra_to_degrees]. *)
Definition ra_try (ra_str : pyval) : result pynum :=
  match ra_str with
  | VStr s =>
      if py_contains (u "h") s && py_contains (u "m") s then
        let parts :=
          py_split (py_replace (u "s") [] (py_replace (u "m") []
                     (py_replace (u "h") [] s))) in
        hours <- float_part parts 0 ;;
        minutes <- float_part parts 1 ;;
        seconds <- float_part_or_0 parts 2 ;;
        total <- sexagesimal hours minutes seconds ;;
        ret (py_mul total (PInt 15))
      else
        let parts := py_split s in
        hours <- float_part parts 0 ;;
        minutes <- float_part_or_0 parts 1 ;;
        seconds <- float_part_or_0 parts 2 ;;
        total <- sexagesimal hours minutes seconds ;;
        ret (py_mul total (PInt 15))
  | _ => raise TypeError
  end.

(** [ra_to_degrees]: the value returned and the lines printed. *)
Definition ra_to_degrees (ra_str : pyval) : pynum * list message :=
  match ra_try ra_str with
  | inr v => (v, [])
  | inl e => (PInt 0, [ErrorParsingRA ra_str e])
  end.

Definition degree_sign : char := 176%N.
Definition prime : char := 8242%N.
Definition double_prime : char := 8243%N.
Definition apostrophe : char := 39%N.
Definition double_quote : char := 34%N.
Definition hyphen_minus : char := 45%N.
Definition minus_sign : char := 8722%N.
Definition plus_sign : char := 43%N.

(** The [try] block of [dec_to_degrees].  The name [dec_str] is bound
    anew twice inside it, and the handler prints its current value, so
    an exception carries that value along. *)
Definition dec_try (dec_str : pyval) : (exn * pyval) + pynum :=
  match dec_str with
  | VStr s =>
      let s1 :=
        py_replace [double_quote] [] (py_replace [apostrophe] []
          (py_replace [double_prime] [] (py_replace [prime] []
            (py_replace [degree_sign] [] s)))) in
      match s1 with
      | [] => inl (IndexError, VStr s1)
      | c0 :: _ =>
          let sign :=
            if existsb (str_eqb [c0]) [[hyphen_minus]; [minus_sign]]
            then PInt (-1) else PInt 1 in
          let s2 := py_lstrip [plus_sign; hyphen_minus; minus_sign] s1 in
          let parts := py_split s2 in
          match
            (degrees <- float_part parts 0 ;;
             minutes <- float_part_or_0 parts 1 ;;
             seconds <- float_part_or_0 parts 2 ;;
             total <- sexagesimal degrees minutes seconds ;;
             ret (py_mul sign total))
          with
          | inr v => inr v
          | inl e => inl (e, VStr s2)
          end
      end
  | _ => inl (AttributeError, dec_str)
  end.

(** [dec_to_degrees]: the value returned and the lines printed. *)
Definition dec_to_degrees (dec_str : pyval) : pynum * list message :=
  match dec_try dec_str with
  | inr v => (v, [])
  | inl (e, shown) => (PInt 0, [ErrorParsingDec shown e])
  end.

(** ** Tables *)

(** A [pandas.DataFrame]: a number of rows and named columns, each
    holding one cell for every row.  The cells are kept as the Python
    values they were built from (the conversion of a column to one
    numeric type is not modelled). *)
Record DataFrame := {
  nrows : nat;
  columns : list (str * list pyval)
}.

Definition column_names (df : DataFrame) : list str := map fst (columns df).

Definition well_formed (df : DataFrame) : Prop :=
  Forall (fun c => length (snd c) = nrows df) (columns df).

(** [df[name]]: [KeyError] on a missing column. *)
Definition df_getitem (df : DataFrame) (name : str) : result (list pyval) :=
  match dict_get (columns df) name with
  | Some col => ret col
  | None => raise KeyError
  end.

(** The columns after [df[name] = cells]: an existing column is
    replaced where it stands, a new one goes to the end. *)
Fixpoint set_column (cols : list (str * list pyval)) (name : str)
    (cells : list pyval) : list (str * list pyval) :=
  match cols with
  | [] => [(name, cells)]
  | (k, old) :: rest =>
      if str_eqb k name then (k, cells) :: rest
      else (k, old) :: set_column rest name cells
  end.

Definition df_setitem (df : DataFrame) (name : str) (cells : list pyval)
  : DataFrame :=
  {| nrows := nrows df; columns := set_column (columns df) name cells |}.

(** [pd.DataFrame(d)] for a dictionary of lists: [ValueError] unless
    all the lists have one length. *)
Definition DataFrame_of_dict (d : dict (list pyval)) : result DataFrame :=
  match d with
  | [] => ret {| nrows := 0; columns := [] |}
  | (_, first) :: _ =>
      if forallb (fun c => length (snd c) =? length first)%nat d
      then ret {| nrows := length first; columns := d |}
      else raise ValueError
  end.

(** Tables live in a store of objects; a variable holds a reference. *)
Definition ref := nat.
Definition store := list DataFrame.

Definition deref (h : store) (r : ref) : option DataFrame := nth_error h r.

Definition alloc (h : store) (df : DataFrame) : ref * store :=
  (length h, h ++ [df]).

Fixpoint assign (h : store) (r : ref) (df : DataFrame) : store :=
  match h, r with
  | [], _ => []
  | _ :: rest, O => df :: rest
  | x :: rest, S r' => x :: assign rest r' df
  end.

(** [x <= y] on numbers, as the column comparison does it. *)
Definition num_le (x y : pynum) : bool :=
  SFleb (to_float x) (to_float y).

Definition cell_num (v : pyval) : pynum :=
  match v with
  | VNum x => x
  | _ => PFloat S754_nan
  end.

(** One entry of [valid_coords]. *)
Definition valid_coord (ra dec : pyval) : bool :=
  num_le (PInt 0) (cell_num ra) && num_le (cell_num ra) (PInt 360)
  && num_le (PInt (-90)) (cell_num dec) && num_le (cell_num dec) (PInt 90).

(** [series.apply(f)] for a function that prints: the results, and the
    lines printed in the order of the rows. *)
Definition apply_logged (f : pyval -> pynum * list message) (cells : list pyval)
  : list pyval * list message :=
  (map (fun c => VNum (fst (f c))) cells, flat_map (fun c => snd (f c)) cells).

(** [process_coordinates]: the reference returned or the exception
    raised, the store afterwards and the lines printed.  A reference
    always points into the store; one that does not is reported as an
    exception here. *)
Definition process_coordinates (h : store) (data : ref)
  : result ref * store * list message :=
  match deref h data with
  | None => (raise OtherException, h, [ProcessingCoordinates])
  | Some df =>
      (* data = data.copy() *)
      let '(data', h1) := alloc h df in
      match df_getitem df (u "Right ascension") with
      | inl e => (inl e, h1, [ProcessingCoordinates])
      | inr ra_cells =>
          let '(ra_deg, ra_log) := apply_logged ra_to_degrees ra_cells in
          let df1 := df_setitem df (u "ra_deg") ra_deg in
          let h2 := assign h1 data' df1 in
          match df_getitem df1 (u "Declination") with
          | inl e => (inl e, h2, ProcessingCoordinates :: ra_log)
          | inr dec_cells =>
              let '(dec_deg, dec_log) := apply_logged dec_to_degrees dec_cells in
              let df2 := df_setitem df1 (u "dec_deg") dec_deg in
              let h3 := assign h2 data' df2 in
              let log := ProcessingCoordinates :: ra_log ++ dec_log in
              match df_getitem df2 (u "ra_deg"), df_getitem df2 (u "dec_deg") with
              | inr ra_col, inr dec_col =>
                  let valid_coords :=
                    map (fun p => valid_coord (fst p) (snd p))
                        (combine ra_col dec_col) in
                  let warning :=
                    if forallb (fun b => b) valid_coords then []
                    else [InvalidCoordinates
                            (length (filter negb valid_coords))] in
                  (ret data', h3, log ++ warning)
              | inl e, _ => (inl e, h3, log)
              | _, inl e => (inl e, h3, log)
              end
          end
      end
  end.

(** ** data_utils.py: loading the catalogue *)

(** A number written in decimal, as an f-string formats it. *)
Fixpoint uint_codes (d : Decimal.uint) : str :=
  match d with
  | Decimal.Nil => []
  | Decimal.D0 d => 48%N :: uint_codes d
  | Decimal.D1 d => 49%N :: uint_codes d
  | Decimal.D2 d => 50%N :: uint_codes d
  | Decimal.D3 d => 51%N :: uint_codes d
  | Decimal.D4 d => 52%N :: uint_codes d
  | Decimal.D5 d => 53%N :: uint_codes d
  | Decimal.D6 d => 54%N :: uint_codes d
  | Decimal.D7 d => 55%N :: uint_codes d
  | Decimal.D8 d => 56%N :: uint_codes d
  | Decimal.D9 d => 57%N :: uint_codes d
  end.

Definition decimal_of_nat (n : nat) : str := uint_codes (Nat.to_uint n).

Definition vint (z : Z) : pyval := VNum (PInt z).
Definition vstr (s : string) : pyval := VStr (u s).
(** A float literal [mant * 10^e10]. *)
Definition vdec (mant e10 : Z) : pyval :=
  VNum (PFloat (float_of_decimal false mant e10)).

Definition SAMPLE_MESSIER_DATA : dict (list pyval) :=
  [ (u "Number", map vint [31; 32; 1; 13; 42; 57; 27; 81; 51; 104]%Z);
    (u "Messier number",
     map vstr ["M31"; "M32"; "M1"; "M13"; "M42"; "M57"; "M27"; "M81"; "M51";
               "M104"]%string);
    (u "NGC/IC number",
     map vint [224; 221; 1952; 6205; 1976; 6720; 6853; 3031; 5194; 4594]%Z);
    (u "Common name",
     map vstr ["Andromeda Galaxy"; "Andromeda Satellite #1"; "Crab Nebula";
               "Hercules Cluster"; "Orion Nebula"; "Ring Nebula";
               "Dumbbell Nebula"; "Bode's Galaxy"; "Whirlpool Galaxy";
               "Sombrero Galaxy"]%string);
    (u "Object type",
     map vstr ["Spiral galaxy"; "Dwarf elliptical galaxy"; "Supernova remnant";
               "Globular cluster"; "Nebula"; "Planetary nebula";
               "Planetary nebula"; "Spiral galaxy"; "Spiral galaxy";
               "Spiral galaxy"]%string);
    (u "Distance (kly)",
     [vint 2540; vint 2490; vdec 65 (-1); vdec 251 (-1); vdec 1344 (-3);
      vdec 23 (-1); vdec 136 (-2); vint 11800; vint 23000; vint 31100]);
    (u "Constellation",
     map vstr ["Andromeda"; "Andromeda"; "Taurus"; "Hercules"; "Orion"; "Lyra";
               "Vulpecula"; "Ursa Major"; "Canes Venatici"; "Virgo"]%string);
    (u "Apparent magnitude",
     [vdec 34 (-1); vdec 81 (-1); vdec 84 (-1); vdec 58 (-1); vdec 40 (-1);
      vdec 88 (-1); vdec 75 (-1); vdec 69 (-1); vdec 84 (-1); vdec 80 (-1)]);
    (u "Right ascension",
     map vstr ["00h 42m 44.3s"; "00h 42m 41.8s"; "05h 34m 31.9s";
               "16h 41m 41.2s"; "05h 35m 17.3s"; "18h 53m 35.1s";
               "19h 59m 36.3s"; "09h 55m 33.2s"; "13h 29m 52.7s";
               "12h 39m 59.4s"]%string);
    (u "Declination",
     map vstr ["+41° 16′ 09″"; "+40° 51′ 55″"; "+22° 00′ 52″"; "+36° 27′ 37″";
               "-05° 23′ 13″"; "+33° 01′ 45″"; "+22° 43′ 16″"; "+69° 03′ 55″";
               "+47° 11′ 43″"; "-11° 37′ 23″"]%string);
    (u "Best Viewing",
     map vstr ["autumn"; "autumn"; "winter"; "summer"; "winter"; "summer";
               "summer"; "spring"; "spring"; "spring"]%string) ].

(** One dictionary of the list in [create_complete_messier_catalog],
    with the three placeholder fields its loop adds. *)
Definition catalog_entry (number : Z)
    (messier common type ra dec constellation season : string) : dict pyval :=
  [ (u "Number", vint number);
    (u "Messier number", vstr messier);
    (u "Common name", vstr common);
    (u "Object type", vstr type);
    (u "Right ascension", vstr ra);
    (u "Declination", vstr dec);
    (u "Constellation", vstr constellation);
    (u "Best Viewing", vstr season);
    (u "NGC/IC number", vstr "");
    (u "Distance (kly)", vstr "");
    (u "Apparent magnitude", vstr "") ].

Definition messier_objects : list (dict pyval) :=
  [ catalog_entry 1 "M1" "Crab Nebula" "Supernova remnant"
      "05h 34m 31.9s" "+22° 00′ 52″" "Taurus" "winter";
    catalog_entry 8 "M8" "Lagoon Nebula" "H II region nebula"
      "18h 03m 37s" "-24° 23′ 12″" "Sagittarius" "summer";
    catalog_entry 13 "M13" "Hercules Cluster" "Globular cluster"
      "16h 41m 41.2s" "+36° 27′ 37″" "Hercules" "summer";
    catalog_entry 16 "M16" "Eagle Nebula" "H II region nebula with cluster"
      "18h 18m 48s" "-13° 49′ 00″" "Serpens" "summer";
    catalog_entry 17 "M17" "Omega Nebula" "H II region nebula"
      "18h 20m 47s" "-16° 10′ 18″" "Sagittarius" "summer";
    catalog_entry 20 "M20" "Trifid Nebula" "H II region nebula"
      "18h 02m 23s" "-23° 01′ 48″" "Sagittarius" "summer";
    catalog_entry 24 "M24" "Sagittarius Star Cloud" "Milky Way star cloud"
      "18h 16m 50s" "-18° 33′ 00″" "Sagittarius" "summer";
    catalog_entry 27 "M27" "Dumbbell Nebula" "Planetary nebula"
      "19h 59m 36.3s" "+22° 43′ 16″" "Vulpecula" "summer";
    catalog_entry 31 "M31" "Andromeda Galaxy" "Spiral galaxy"
      "00h 42m 44.3s" "+41° 16′ 09″" "Andromeda" "autumn";
    catalog_entry 32 "M32" "Andromeda Satellite #1" "Dwarf elliptical galaxy"
      "00h 42m 41.8s" "+40° 51′ 55″" "Andromeda" "autumn";
    catalog_entry 42 "M42" "Orion Nebula" "H II region nebula"
      "05h 35m 17.3s" "-05° 23′ 13″" "Orion" "winter";
    catalog_entry 43 "M43" "De Mairan's Nebula"
      "H II region nebula (part of the Orion Nebula)"
      "05h 35m 31s" "-05° 16′ 03″" "Orion" "winter";
    catalog_entry 44 "M44" "Beehive Cluster" "Open cluster"
      "08h 40m 24s" "+19° 40′ 00″" "Cancer" "spring";
    catalog_entry 45 "M45" "Pleiades" "Open cluster"
      "03h 47m 29s" "+24° 07′ 00″" "Taurus" "winter";
    catalog_entry 51 "M51" "Whirlpool Galaxy" "Spiral galaxy"
      "13h 29m 52.7s" "+47° 11′ 43″" "Canes Venatici" "spring";
    catalog_entry 57 "M57" "Ring Nebula" "Planetary nebula"
      "18h 53m 35.1s" "+33° 01′ 45″" "Lyra" "summer";
    catalog_entry 81 "M81" "Bode's Galaxy" "Spiral galaxy"
      "09h 55m 33.2s" "+69° 03′ 55″" "Ursa Major" "spring";
    catalog_entry 87 "M87" "Virgo A" "Elliptical galaxy"
      "12h 30m 49.4s" "+12° 23′ 28″" "Virgo" "spring";
    catalog_entry 104 "M104" "Sombrero Galaxy" "Spiral galaxy"
      "12h 39m 59.4s" "-11° 37′ 23″" "Virgo" "spring";
    catalog_entry 110 "M110" "Andromeda Satellite #2" "Dwarf elliptical galaxy"
      "00h 40m 22.1s" "+41° 41′ 07″" "Andromeda" "autumn" ].

(** [create_complete_messier_catalog]: the list and the line printed. *)
Definition create_complete_messier_catalog : list (dict pyval) * list message :=
  (messier_objects, [CreatedCatalog (length messier_objects)]).

(** What the loader returns: a data frame, or (from the SIMBAD path) a
    plain list of dictionaries. *)
Inductive table :=
  | Frame (df : DataFrame)
  | Records (rows : list (dict pyval)).

(** One answer of [Simbad.query_object]: it raises, or it is empty, or
    it has a first row, whose OTYPE, RA and DEC columns may be absent. *)
Inductive simbad_reply :=
  | ReplyRaises (e : exn)
  | ReplyEmpty
  | ReplyRow (main_id : str) (otype ra dec : option str).

(** What the loader finds around it: which imports succeed, what the
    SIMBAD service answers and what reading a CSV file gives. *)
Record environment := {
  astropy_imports : result unit;
  astroquery_imports : result unit;
  add_votable_fields : result unit;
  query_object : nat -> simbad_reply;
  read_csv : str -> result DataFrame
}.

Definition or_default (o : option str) (default : str) : pyval :=
  match o with
  | Some s => VStr s
  | None => VStr default
  end.

(** The dictionary appended for Messier number [i]. *)
Definition simbad_entry (i : nat) (main_id : str) (otype ra dec : option str)
  : dict pyval :=
  [ (u "Number", vint (Z.of_nat i));
    (u "Messier number", VStr (u "M" ++ decimal_of_nat i));
    (u "NGC/IC number", vstr "");
    (u "Common name", VStr main_id);
    (u "Object type", or_default otype (u "Unknown"));
    (u "Right ascension", or_default ra []);
    (u "Declination", or_default dec []);
    (u "Constellation", vstr "");
    (u "Apparent magnitude", vstr "");
    (u "Distance (kly)", vstr "");
    (u "Best Viewing", vstr "unknown") ].

(** The query loop over the Messier numbers [is]: the entries
    appended, the count of successful queries and the lines printed. *)
Fixpoint simbad_loop (env : environment) (numbers : list nat)
  : list (dict pyval) * nat * list message :=
  match numbers with
  | [] => ([], O, [])
  | i :: rest =>
      let '(objs, n, log) := simbad_loop env rest in
      match query_object env i with
      | ReplyRaises e => (objs, n, SimbadQueryFailed i e :: log)
      | ReplyEmpty => (objs, n, log)
      | ReplyRow main_id otype ra dec =>
          (simbad_entry i main_id otype ra dec :: objs, S n,
           QueriedSimbad i :: log)
      end
  end.

(** [load_messier_from_simbad]: [None], or a list that is not empty. *)
Definition load_messier_from_simbad (env : environment)
  : option (list (dict pyval)) * list message :=
  match astroquery_imports env with
  | inl e => (None, [SimbadFailedCompletely e])
  | inr _ =>
      match add_votable_fields env with
      | inl e => (None, [AttemptingSimbad; SimbadFailedCompletely e])
      | inr _ =>
          let '(objs, n, log) := simbad_loop env (seq 1 20) in
          (match objs with [] => None | _ :: _ => Some objs end,
           AttemptingSimbad :: log ++ [SimbadCompleted n])
      end
  end.

(** [pd.DataFrame(rows)] for a list of dictionaries that share their
    keys: one column for each key of the first dictionary. *)
Definition DataFrame_of_records (rows : list (dict pyval)) : DataFrame :=
  {| nrows := length rows;
     columns :=
       match rows with
       | [] => []
       | first :: _ =>
           map (fun k => (k, map (fun r => dict_get_default r k VNone) rows))
               (map fst first)
       end |}.

(** [load_messier_from_astropy].  The built-in catalogue is accepted
    only when it has more than 50 entries; every exception of the
    inner block, a failed import included, leads to the SIMBAD path. *)
Definition load_messier_from_astropy (env : environment)
  : option table * list message :=
  let inner : result table * list message :=
    match astropy_imports env with
    | inl e => (inl e, [])
    | inr _ =>
        let '(messier_catalog, log) := create_complete_messier_catalog in
        if (50 <? length messier_catalog)%nat then
          (ret (Frame (DataFrame_of_records messier_catalog)),
           LoadingStarCatalog :: log ++
           [CatalogComplete (length messier_catalog)])
        else (raise OtherException, LoadingStarCatalog :: log)
    end in
  match inner with
  | (inr t, log) => (Some t, AttemptingAstropy :: log)
  | (inl e, log) =>
      let '(r, log') := load_messier_from_simbad env in
      (option_map Records r,
       AttemptingAstropy :: log ++ BuiltinCatalogFailed e :: log')
  end.

Definition table_len (t : table) : nat :=
  match t with
  | Frame df => nrows df
  | Records rows => length rows
  end.

(** The two exception handlers of [load_messier_data] run the same
    statements after their first [print]. *)
Definition use_sample (first_line : message) : result table * list message :=
  match DataFrame_of_dict SAMPLE_MESSIER_DATA with
  | inr data =>
      (ret (Frame data),
       [first_line; UsingSampleInstead; UsingSampleWith (nrows data)])
  | inl e => (raise e, [first_line; UsingSampleInstead])
  end.

(** [load_messier_data(csv_path=None, use_astronomical_data=False)]:
    the table returned or the exception raised, and the lines printed. *)
Definition load_messier_data (env : environment) (csv_path : option str)
    (use_astronomical_data : bool) : result table * list message :=
  let from_file (log : list message) : result table * list message :=
    let csv_path :=
      match csv_path with
      | None => u "Messier_data.csv"
      | Some p => p
      end in
    match read_csv env csv_path with
    | inr data => (ret (Frame data), log ++ [LoadedFromCsv (nrows data) csv_path])
    | inl FileNotFoundError =>
        let '(r, log') := use_sample (CsvNotFound csv_path) in (r, log ++ log')
    | inl e =>
        let '(r, log') := use_sample (ErrorLoadingCsv e) in (r, log ++ log')
    end in
  if use_astronomical_data then
    match load_messier_from_astropy env with
    | (Some astro_data, log) => (ret astro_data, log)
    | (None, log) => from_file (log ++ [FallingBackToCsvOrSample])
    end
  else from_file [].

(** ** config.py: the table of precomputed styles *)

Definition YOUR_OBJECT_TYPES : list str :=
  map u [ "Supernova remnant"; "Globular cluster"; "Open cluster";
          "Nebula with cluster"; "H II region nebula with cluster";
          "Milky Way star cloud"; "Planetary nebula"; "Spiral galaxy";
          "Dwarf elliptical galaxy"; "Optical Double"; "H II region nebula";
          "H II region nebula (part of the Orion Nebula)";
          "Elliptical galaxy"; "Barred Spiral galaxy"; "Asterism";
          "Diffuse nebula"; "Starburst galaxy"; "Lenticular galaxy" ]%string.

(** [d[key] = value]: an existing key keeps its place. *)
Fixpoint dict_set {V : Type} (d : dict V) (key : str) (value : V) : dict V :=
  match d with
  | [] => [(key, value)]
  | (k, v) :: rest =>
      if str_eqb k key then (k, value) :: rest
      else (k, v) :: dict_set rest key value
  end.

(** The loop that fills [OBJECT_STYLES]; a [KeyError] of
    [get_object_style] would stop it. *)
Fixpoint fill_styles (types : list str) (styles : dict style)
  : option (dict style) :=
  match types with
  | [] => Some styles
  | obj_type :: rest =>
      match get_object_style obj_type with
      | Some st => fill_styles rest (dict_set styles obj_type st)
      | None => None
      end
  end.

Definition default_style : style :=
  {| symbol := u "circle"; color := u "#BDC3C7"; size := 6;
     category := u "Other" |}.

Definition OBJECT_STYLES : option (dict style) :=
  match fill_styles YOUR_OBJECT_TYPES [] with
  | Some styles => Some (dict_set styles (u "Default") default_style)
  | None => None
  end.

(** chart_generator.py, [_add_messier_objects]: the style of a trace is
    the precomputed one when the label is a key of [OBJECT_STYLES], and
    [get_object_style] otherwise. *)
Definition trace_style (styles : dict style) (obj_type : str) : option style :=
  match dict_get styles obj_type with
  | Some st => Some st
  | None => get_object_style obj_type
  end.

(** ** data_utils.py: filter options and filtering *)

(** A text column: every cell is a string or is missing. *)
Definition text_column := list (option str).

(** [series.dropna()] *)
Definition dropna (cells : text_column) : list str :=
  flat_map (fun c => match c with Some s => [s] | None => [] end) cells.

(** [series.unique()]: the values in the order of their first
    appearance. *)
Fixpoint unique_from (seen : list str) (l : list str) : list str :=
  match l with
  | [] => []
  | x :: rest =>
      if existsb (str_eqb x) seen then unique_from seen rest
      else x :: unique_from (x :: seen) rest
  end.

Definition unique (l : list str) : list str := unique_from [] l.

(** [a <= b] on strings: by code points, a prefix first. *)
Fixpoint str_leb (a b : str) : bool :=
  match a, b with
  | [], _ => true
  | _ :: _, [] => false
  | x :: a', y :: b' =>
      if (x <? y)%N then true
      else if (x =? y)%N then str_leb a' b'
      else false
  end.

Fixpoint insert_sorted (x : str) (l : list str) : list str :=
  match l with
  | [] => [x]
  | y :: rest =>
      if str_leb x y then x :: l else y :: insert_sorted x rest
  end.

(** [sorted(l)] for a list of strings. *)
Definition sorted (l : list str) : list str := fold_right insert_sorted [] l.

(** [if category not in d: d[category] = []] followed by
    [d[category].append(obj_type)]. *)
Fixpoint dict_append (d : dict (list str)) (key : str) (value : str)
  : dict (list str) :=
  match d with
  | [] => [(key, [value])]
  | (k, l) :: rest =>
      if str_eqb k key then (k, l ++ [value]) :: rest
      else (k, l) :: dict_append rest key value
  end.

(** The grouping loop, for the classifier [classify]. *)
Definition categorize (classify : str -> str) (types : list str)
  : dict (list str) :=
  fold_left (fun d obj_type => dict_append d (classify obj_type) obj_type)
            types [].

Definition category_order : list str :=
  [u "Galaxy"; u "Nebula"; u "Cluster"; u "Other"].

(** The second loop: the categories in their fixed order, each with
    its labels sorted. *)
Definition in_category_order (categorized_types : dict (list str)) : list str :=
  flat_map (fun category =>
              match dict_get categorized_types category with
              | Some l => sorted l
              | None => []
              end)
           category_order.

Record filter_options := {
  object_types : list str;
  object_types_by_category : dict (list str);
  constellations : list str;
  seasons : list str
}.

(** [get_filter_options] on the three text columns 'Object type',
    'Constellation' and 'Best Viewing' of the table. *)
Definition get_filter_options (object_type constellation best_viewing : text_column)
  : filter_options :=
  let object_types := sorted (unique (dropna object_type)) in
  let categorized_types := categorize classify_object_type_local object_types in
  {| object_types := in_category_order categorized_types;
     object_types_by_category := categorized_types;
     constellations := sorted (unique (dropna constellation));
     seasons := sorted (unique (dropna best_viewing)) |}.

(** chart_generator.py, [_add_messier_objects]: the labels of the
    traces in the order they are added. *)
Definition trace_order (object_type : text_column) : list str :=
  in_category_order (categorize classify_object_type (unique (dropna object_type))).

(** [series.isin(selected)] on one cell, for a list of strings. *)
Definition cell_isin (selected : list str) (v : pyval) : bool :=
  match v with
  | VStr s => existsb (str_eqb s) selected
  | _ => false
  end.

(** The entries of [cells] where [mask] holds. *)
Fixpoint select {A : Type} (mask : list bool) (cells : list A) : list A :=
  match mask, cells with
  | b :: mask', c :: cells' =>
      if b then c :: select mask' cells' else select mask' cells'
  | _, _ => []
  end.

(** [df[mask]] *)
Definition df_select (df : DataFrame) (mask : list bool) : DataFrame :=
  {| nrows := length (filter (fun b => b) mask);
     columns := map (fun c => (fst c, select mask (snd c))) (columns df) |}.

Fixpoint and3 (a b c : list bool) : list bool :=
  match a, b, c with
  | x :: a', y :: b', z :: c' => (x && y && z) :: and3 a' b' c'
  | _, _, _ => []
  end.

(** [filter_data]: [KeyError] on a missing column. *)
Definition filter_data (data : DataFrame)
    (selected_types selected_constellations selected_seasons : list str)
  : result DataFrame :=
  types <- df_getitem data (u "Object type") ;;
  consts <- df_getitem data (u "Constellation") ;;
  seasons <- df_getitem data (u "Best Viewing") ;;
  ret (df_select data
         (and3 (map (cell_isin selected_types) types)
               (map (cell_isin selected_constellations) consts)
               (map (cell_isin selected_seasons) seasons))).

(** * Properties *)

Unset Implicit Arguments.

(** ** Strings *)

Lemma str_eqb_eq (a b : str) : str_eqb a b = true <-> a = b.
Proof.
  unfold str_eqb. destruct (list_eq_dec N.eq_dec a b); split; congruence.
Qed.

Lemma str_eqb_refl (a : str) : str_eqb a a = true.
Proof. now apply str_eqb_eq. Qed.

Lemma str_eqb_neq (a b : str) : a <> b -> str_eqb a b = false.
Proof.
  intros H. destruct (str_eqb a b) eqn:E; [|reflexivity].
  apply str_eqb_eq in E. contradiction.
Qed.

(** [sub] occurs in [s]. *)
Definition substring (sub s : str) : Prop :=
  exists pre post, s = pre ++ sub ++ post.

Lemma starts_with_spec (old s : str) :
  starts_with old s = true <-> exists post, s = old ++ post.
Proof.
  revert s. induction old as [|a old IH]; intros s; simpl.
  - split; [intros _; now exists s | reflexivity].
  - destruct s as [|b s].
    + split; [discriminate | intros [post H]; discriminate].
    + rewrite andb_true_iff, N.eqb_eq, IH. split.
      * intros [-> [post ->]]. now exists post.
      * intros [post H]. injection H as -> ->. split; [reflexivity | now exists post].
Qed.

Lemma py_contains_spec (sub s : str) :
  py_contains sub s = true <-> substring sub s.
Proof.
  unfold substring. induction s as [|c s IH].
  - simpl. rewrite orb_false_r, starts_with_spec. split.
    + intros [post H]. exists [], post. exact H.
    + intros [pre [post H]]. destruct pre; [now exists post | discriminate].
  - simpl. rewrite orb_true_iff, starts_with_spec, IH. split.
    + intros [[post H] | [pre [post H]]].
      * exists [], post. exact H.
      * exists (c :: pre), post. simpl. now rewrite H.
    + intros [pre [post H]]. destruct pre as [|c' pre].
      * left. now exists post.
      * right. injection H as _ H. now exists pre, post.
Qed.

Lemma py_lower_app (a b : str) : py_lower (a ++ b) = py_lower a ++ py_lower b.
Proof. apply flat_map_app. Qed.

(** ** Classification *)

(** The keyword occurs in the label when case is ignored: both are
    lower-cased before the substring test. *)
Definition ci_substring (keyword label : str) : Prop :=
  substring (py_lower keyword) (py_lower label).

Definition category_matches (config : category_config) (label : str) : Prop :=
  exists keyword, In keyword (keywords config) /\ ci_substring keyword label.

Lemma any_keyword_in_spec (kws : list str) (label : str) :
  any_keyword_in kws (py_lower label) = true <->
  exists keyword, In keyword kws /\ ci_substring keyword label.
Proof.
  unfold ci_substring. induction kws as [|k kws IH]; simpl.
  - split; [discriminate | intros [k [[] _]]].
  - destruct (py_contains (py_lower k) (py_lower label)) eqn:E.
    + split; [intros _ | reflexivity].
      exists k. split; [now left | now apply py_contains_spec].
    + rewrite IH. split.
      * intros [k' [Hin H]]. exists k'. split; [now right | exact H].
      * intros [k' [[-> | Hin] H]].
        -- apply py_contains_spec in H. congruence.
        -- now exists k'.
Qed.

Lemma first_category_found (cats : dict category_config) (label : str)
    before category config after :
  cats = before ++ (category, config) :: after ->
  category_matches config label ->
  (forall c, In c before -> ~ category_matches (snd c) label) ->
  first_category cats (py_lower label) = Some category.
Proof.
  intros -> Hm. induction before as [|[c0 cfg0] before IH]; intros Hnone; simpl.
  - apply any_keyword_in_spec in Hm. now rewrite Hm.
  - destruct (any_keyword_in (keywords cfg0) (py_lower label)) eqn:E.
    + apply any_keyword_in_spec in E. exfalso.
      apply (Hnone (c0, cfg0)); [now left | exact E].
    + apply IH. intros c Hc. apply Hnone. now right.
Qed.

Lemma first_category_none (cats : dict category_config) (label : str) :
  (forall c, In c cats -> ~ category_matches (snd c) label) ->
  first_category cats (py_lower label) = None.
Proof.
  induction cats as [|[c0 cfg0] cats IH]; intros Hnone; simpl; [reflexivity|].
  destruct (any_keyword_in (keywords cfg0) (py_lower label)) eqn:E.
  - apply any_keyword_in_spec in E. exfalso.
    apply (Hnone (c0, cfg0)); [now left | exact E].
  - apply IH. intros c Hc. apply Hnone. now right.
Qed.

(** The classifier as a chain of tests on the lower-cased label. *)
Lemma classify_object_type_cases (label : str) :
  classify_object_type label =
  if py_contains (u "galaxy") (py_lower label) then u "Galaxy"
  else if py_contains (u "nebula") (py_lower label) then u "Nebula"
  else if py_contains (u "cluster") (py_lower label) then u "Cluster"
  else if py_contains (u "cloud") (py_lower label) then u "Cluster"
  else u "Other".
Proof.
  unfold classify_object_type.
  cbv [first_category OBJECT_CATEGORIES any_keyword_in keywords].
  change (py_lower (u "galaxy")) with (u "galaxy").
  change (py_lower (u "Galaxy")) with (u "galaxy").
  change (py_lower (u "nebula")) with (u "nebula").
  change (py_lower (u "Nebula")) with (u "nebula").
  change (py_lower (u "cluster")) with (u "cluster").
  change (py_lower (u "Cluster")) with (u "cluster").
  change (py_lower (u "cloud")) with (u "cloud").
  destruct (py_contains (u "galaxy") (py_lower label)); [reflexivity|].
  destruct (py_contains (u "nebula") (py_lower label)); [reflexivity|].
  destruct (py_contains (u "cluster") (py_lower label)); [reflexivity|].
  destruct (py_contains (u "cloud") (py_lower label)); reflexivity.
Qed.

(** C1.  [classify_object_type] walks the categories in the order
    Galaxy, Nebula, Cluster, Other and returns the first one a keyword
    of which occurs in the label, case ignored; it returns "Other" when
    no keyword of any category occurs.  A label in which both "nebula"
    and "cluster" occur is never classified as Cluster: it goes to the
    first category that matches, which is Nebula unless "galaxy" occurs
    as well. *)
Theorem classify_object_type_first_match (label : str) :
  map fst OBJECT_CATEGORIES = [u "Galaxy"; u "Nebula"; u "Cluster"; u "Other"]
  /\ (forall before category config after,
        OBJECT_CATEGORIES = before ++ (category, config) :: after ->
        category_matches config label ->
        (forall c, In c before -> ~ category_matches (snd c) label) ->
        classify_object_type label = category)
  /\ ((forall c, In c OBJECT_CATEGORIES -> ~ category_matches (snd c) label) ->
      classify_object_type label = u "Other")
  /\ (ci_substring (u "nebula") label -> ci_substring (u "cluster") label ->
      classify_object_type label <> u "Cluster"
      /\ (~ ci_substring (u "galaxy") label ->
          classify_object_type label = u "Nebula"))
  /\ classify_object_type (u "Nebula with cluster") = u "Nebula"
  /\ classify_object_type (u "H II region nebula with cluster") = u "Nebula".
Proof.
  split; [reflexivity|]. split; [|split; [|split; [|split; reflexivity]]].
  - intros before category config after Hcats Hm Hnone.
    unfold classify_object_type.
    now rewrite (first_category_found _ label before category config after Hcats Hm Hnone).
  - intros Hnone. unfold classify_object_type.
    now rewrite (first_category_none OBJECT_CATEGORIES label Hnone).
  - intros Hneb Hclu. apply py_contains_spec in Hneb.
    change (py_lower (u "nebula")) with (u "nebula") in Hneb.
    rewrite classify_object_type_cases, Hneb. split.
    + destruct (py_contains (u "galaxy") (py_lower label)); discriminate.
    + intros Hgal.
      destruct (py_contains (u "galaxy") (py_lower label)) eqn:E; [|reflexivity].
      exfalso. apply Hgal. now apply py_contains_spec.
Qed.

(** C6.  [classify_object_type] returns one of the four category names
    for every string, and classifying a category name returns it. *)
Theorem classify_object_type_idempotent (s : str) :
  In (classify_object_type s) [u "Galaxy"; u "Nebula"; u "Cluster"; u "Other"]
  /\ classify_object_type (classify_object_type s) = classify_object_type s.
Proof.
  rewrite (classify_object_type_cases s).
  destruct (py_contains (u "galaxy") (py_lower s));
    [split; [simpl; tauto | reflexivity]|].
  destruct (py_contains (u "nebula") (py_lower s));
    [split; [simpl; tauto | reflexivity]|].
  destruct (py_contains (u "cluster") (py_lower s));
    [split; [simpl; tauto | reflexivity]|].
  destruct (py_contains (u "cloud") (py_lower s));
    split; solve [simpl; tauto | reflexivity].
Qed.

(** C10.  The classifier written inside [get_filter_options] returns
    the category that [classify_object_type] returns, for every label. *)
Theorem classify_object_type_local_agrees (obj_type : str) :
  classify_object_type_local obj_type = classify_object_type obj_type.
Proof.
  rewrite classify_object_type_cases. unfold classify_object_type_local.
  cbv [existsb].
  destruct (py_contains (u "galaxy") (py_lower obj_type)); [reflexivity|].
  destruct (py_contains (u "nebula") (py_lower obj_type)); [reflexivity|].
  destruct (py_contains (u "cluster") (py_lower obj_type)); [reflexivity|].
  destruct (py_contains (u "cloud") (py_lower obj_type)); reflexivity.
Qed.

(** ** Styling *)

(** C7.  [get_object_style] classifies the label, then takes the symbol
    and the colour from the category's override tables under the
    lower-cased label, and the category's base symbol and base colour
    where the table has no entry; no lookup fails.  "Spiral galaxy" is
    a Galaxy and gets the base galaxy symbol and colour. *)
Theorem get_object_style_lookup (obj_type : str) :
  (exists config colors symbols,
     dict_get OBJECT_CATEGORIES (classify_object_type obj_type) = Some config
     /\ dict_get color_variations (classify_object_type obj_type) = Some colors
     /\ dict_get symbol_variations (classify_object_type obj_type) = Some symbols
     /\ get_object_style obj_type =
        Some {| symbol :=
                  match dict_get symbols (py_lower obj_type) with
                  | Some v => v
                  | None => base_symbol config
                  end;
                color :=
                  match dict_get colors (py_lower obj_type) with
                  | Some v => v
                  | None => base_color config
                  end;
                size := 8;
                category := classify_object_type obj_type |})
  /\ classify_object_type (u "Spiral galaxy") = u "Galaxy"
  /\ (exists galaxy,
        dict_get OBJECT_CATEGORIES (u "Galaxy") = Some galaxy
        /\ get_object_style (u "Spiral galaxy") =
           Some {| symbol := base_symbol galaxy; color := base_color galaxy;
                   size := 8; category := u "Galaxy" |}).
Proof.
  split; [|split; [reflexivity | eexists; split; reflexivity]].
  unfold get_object_style, dict_get_default.
  destruct (classify_object_type_idempotent obj_type) as [Hin _].
  simpl in Hin.
  destruct Hin as [<- | [<- | [<- | [<- | []]]]];
    (eexists; eexists; eexists;
     split; [reflexivity | split; [reflexivity | split; [reflexivity|]]];
     reflexivity).
Qed.

(** ** Coordinate parsing: totality *)

Lemma py_truediv_const (x : pynum) (k : Z) :
  (0 < k)%Z -> exists y, py_truediv x (PInt k) = inr y.
Proof.
  intros Hk. unfold py_truediv. destruct k as [|k|k]; try lia. simpl.
  destruct x as [[|a|a]|f]; eexists; reflexivity.
Qed.

Lemma float_part_raises (parts : list str) (i : nat) (e : exn) :
  float_part parts i = inl e -> e = IndexError \/ e = ValueError.
Proof.
  unfold float_part, index, bind, raise, ret.
  destruct (nth_error parts i) as [p|]; [|intros [= <-]; now left].
  unfold py_float.
  destruct (drop_underscores 0%N p) as [s1|]; [|intros [= <-]; now right].
  destruct (parse_inf_or_nan (strip_space s1)); [discriminate|].
  destruct (parse_decimal (strip_space s1)) as [[[neg mant] e10]|];
    [discriminate | intros [= <-]; now right].
Qed.

Lemma float_part_or_0_raises (parts : list str) (i : nat) (e : exn) :
  float_part_or_0 parts i = inl e -> e = IndexError \/ e = ValueError.
Proof.
  unfold float_part_or_0. destruct (i <? length parts)%nat.
  - apply float_part_raises.
  - discriminate.
Qed.

Lemma sexagesimal_returns (whole minutes seconds : pynum) :
  exists total, sexagesimal whole minutes seconds = inr total.
Proof.
  unfold sexagesimal, bind.
  destruct (py_truediv_const minutes 60%Z) as [m60 ->]; [lia|].
  destruct (py_truediv_const seconds 3600%Z) as [s3600 ->]; [lia|].
  eexists; reflexivity.
Qed.

(** The part shared by the two branches of [ra_to_degrees] and by
    [dec_to_degrees]: three conversions, then arithmetic that cannot
    fail. *)
Lemma parse_three_raises (r0 r1 r2 : result pynum) (k : pynum -> pynum)
    (e : exn) :
  (forall e', r0 = inl e' -> e' = IndexError \/ e' = ValueError) ->
  (forall e', r1 = inl e' -> e' = IndexError \/ e' = ValueError) ->
  (forall e', r2 = inl e' -> e' = IndexError \/ e' = ValueError) ->
  (a <- r0 ;; b <- r1 ;; c <- r2 ;;
   total <- sexagesimal a b c ;; ret (k total)) = inl e ->
  e = IndexError \/ e = ValueError.
Proof.
  intros H0 H1 H2. unfold bind.
  destruct r0 as [e0|a]; [intros [= <-]; now apply H0|].
  destruct r1 as [e1|b]; [intros [= <-]; now apply H1|].
  destruct r2 as [e2|c]; [intros [= <-]; now apply H2|].
  destruct (sexagesimal_returns a b c) as [total ->]. discriminate.
Qed.

Lemma ra_try_raises (s : str) (e : exn) :
  ra_try (VStr s) = inl e -> e = IndexError \/ e = ValueError.
Proof.
  unfold ra_try.
  destruct (py_contains (u "h") s && py_contains (u "m") s);
    apply parse_three_raises; intros e';
    solve [apply float_part_raises | apply float_part_or_0_raises].
Qed.

Lemma dec_try_raises (s : str) (e : exn) (shown : pyval) :
  dec_try (VStr s) = inl (e, shown) -> e = IndexError \/ e = ValueError.
Proof.
  unfold dec_try.
  destruct (py_replace [double_quote] [] _) as [|c0 rest];
    [intros [= <- _]; now left|].
  match goal with
  | |- match ?r with inl _ => _ | inr _ => _ end = _ -> _ =>
      destruct r as [e0|v] eqn:E; [|discriminate]
  end.
  intros [= <- _]. revert E.
  apply parse_three_raises; intros e';
    solve [apply float_part_raises | apply float_part_or_0_raises].
Qed.

(** C4.  On every string each of the two parsers returns: either the
    [try] block succeeds, and its value is returned with nothing
    printed, or it raises, and then the parser prints one warning and
    returns the integer 0.  The only exceptions a string can cause are
    [IndexError] (a missing part) and [ValueError] (a part that is no
    number); both are caught. *)
Theorem coordinate_parsers_fail_soft (s : str) :
  ((exists v, ra_try (VStr s) = inr v /\ ra_to_degrees (VStr s) = (v, []))
   \/ (exists e, ra_try (VStr s) = inl e
        /\ (e = IndexError \/ e = ValueError)
        /\ ra_to_degrees (VStr s) = (PInt 0, [ErrorParsingRA (VStr s) e])))
  /\ ((exists v, dec_try (VStr s) = inr v /\ dec_to_degrees (VStr s) = (v, []))
      \/ (exists e shown, dec_try (VStr s) = inl (e, shown)
           /\ (e = IndexError \/ e = ValueError)
           /\ dec_to_degrees (VStr s) = (PInt 0, [ErrorParsingDec shown e]))).
Proof.
  split.
  - unfold ra_to_degrees. destruct (ra_try (VStr s)) as [e|v] eqn:E.
    + right. exists e. split; [reflexivity|]. split; [|reflexivity].
      now apply (ra_try_raises s).
    + left. exists v. now split.
  - unfold dec_to_degrees. destruct (dec_try (VStr s)) as [[e shown]|v] eqn:E.
    + right. exists e, shown. split; [reflexivity|]. split; [|reflexivity].
      now apply (dec_try_raises s e shown).
    + left. exists v. now split.
Qed.

(** ** Coordinate parsing: the examples of the specification *)

Definition f64 (mant e10 : Z) : spec_float := float_of_decimal false mant e10.

(** [(5 + 34/60 + 31.9/3600) * 15] in binary64 arithmetic. *)
Definition crab_ra : spec_float :=
  fmul (fadd (fadd (f64 5 0) (fdiv (f64 34 0) (f64 60 0)))
             (fdiv (f64 319 (-1)) (f64 3600 0)))
       (f64 15 0).

(** [22 + 0/60 + 52/3600] in binary64 arithmetic. *)
Definition crab_dec : spec_float :=
  fadd (fadd (f64 22 0) (fdiv (f64 0 0) (f64 60 0)))
       (fdiv (f64 52 0) (f64 3600 0)).

Ltac q_compare :=
  first [ apply Qle_bool_iff; vm_compute; reflexivity
        | apply Qlt_alt; vm_compute; reflexivity ].

(** C5.  "05h 34m 31.9s" parses, with nothing printed, to the binary64
    value of [(5 + 34/60 + 31.9/3600) * 15], which is 83.6329... and
    lies within 10^-13 of the exact quotient; "+22° 00′ 52″" parses to
    the binary64 value of [22 + 0/60 + 52/3600], which is 22.0144...
    and lies within 10^-13 of the exact quotient. *)
Theorem crab_nebula_coordinates :
  ra_to_degrees (VStr (u "05h 34m 31.9s")) = (PFloat crab_ra, [])
  /\ 83.6329 <= SF2Q crab_ra < 83.6330
  /\ Qabs (SF2Q crab_ra - (5 + 34 / 60 + 31.9 / 3600) * 15) < 1 / 10 ^ 13
  /\ dec_to_degrees (VStr (u "+22° 00′ 52″")) = (PFloat crab_dec, [])
  /\ 22.0144 <= SF2Q crab_dec < 22.0145
  /\ Qabs (SF2Q crab_dec - (22 + 0 / 60 + 52 / 3600)) < 1 / 10 ^ 13.
Proof.
  split; [vm_compute; reflexivity|].
  split; [split; q_compare|].
  split; [q_compare|].
  split; [vm_compute; reflexivity|].
  split; [split; q_compare|].
  q_compare.
Qed.

(** ** Shifting a mantissa to the right *)

Section Rounding.

Local Open Scope Z_scope.

Lemma digits2_pos_bounds (p : positive) :
  2 ^ (Zpos (digits2_pos p) - 1) <= Zpos p < 2 ^ Zpos (digits2_pos p).
Proof.
  induction p as [p IH|p IH|]; simpl digits2_pos.
  - rewrite Pos2Z.inj_succ, Pos2Z.inj_xI.
    replace (Z.succ (Zpos (digits2_pos p)) - 1) with (Zpos (digits2_pos p)) by lia.
    rewrite Z.pow_succ_r by lia.
    assert (H : 2 ^ Zpos (digits2_pos p) = 2 * 2 ^ (Zpos (digits2_pos p) - 1)).
    { rewrite <- Z.pow_succ_r by lia. f_equal. lia. }
    lia.
  - rewrite Pos2Z.inj_succ. pose proof (Pos2Z.inj_xO p) as Hp.
    replace (Z.succ (Zpos (digits2_pos p)) - 1) with (Zpos (digits2_pos p)) by lia.
    rewrite Z.pow_succ_r by lia.
    assert (H : 2 ^ Zpos (digits2_pos p) = 2 * 2 ^ (Zpos (digits2_pos p) - 1)).
    { rewrite <- Z.pow_succ_r by lia. f_equal. lia. }
    lia.
  - split; [vm_compute; discriminate | reflexivity].
Qed.

(** [b] is [a] shifted right by [k] bits: the mantissa is divided, and
    when nothing but zeros is shifted out of an exact record the
    result is exact too. *)
Definition shr_rel (k : Z) (a b : shr_record) : Prop :=
  0 <= shr_m a ->
  shr_m b = shr_m a / 2 ^ k
  /\ (shr_r a = false -> shr_s a = false -> shr_m a mod 2 ^ k = 0 ->
      shr_r b = false /\ shr_s b = false).

Lemma shr_1_rel (a : shr_record) : shr_rel 1 a (shr_1 a).
Proof.
  destruct a as [m r s]. unfold shr_rel. simpl shr_m. intros Hm.
  change (2 ^ 1) with 2.
  destruct m as [|p|p]; [| |lia].
  - simpl. split; [reflexivity|]. intros -> -> _. now split.
  - destruct p as [p|p|].
    + simpl shr_1. cbn [shr_m shr_r shr_s]. pose proof (Pos2Z.inj_xI p) as Hp. split.
      * Z.div_mod_to_equations. lia.
      * intros _ _ H. exfalso. Z.div_mod_to_equations. lia.
    + simpl shr_1. cbn [shr_m shr_r shr_s]. pose proof (Pos2Z.inj_xO p) as Hp. split.
      * Z.div_mod_to_equations. lia.
      * intros -> -> _. now split.
    + simpl. split; [reflexivity|]. intros _ _ H. discriminate H.
Qed.

Lemma shr_rel_trans (k1 k2 : Z) (a b c : shr_record) :
  0 <= k1 -> 0 <= k2 ->
  shr_rel k1 a b -> shr_rel k2 b c -> shr_rel (k1 + k2) a c.
Proof.
  intros Hk1 Hk2 Hab Hbc Ha.
  destruct (Hab Ha) as [Hb Hexact1].
  assert (P1 : 0 < 2 ^ k1) by (apply Z.pow_pos_nonneg; lia).
  assert (P2 : 0 < 2 ^ k2) by (apply Z.pow_pos_nonneg; lia).
  assert (Hb0 : 0 <= shr_m b) by (rewrite Hb; apply Z.div_pos; lia).
  destruct (Hbc Hb0) as [Hc Hexact2].
  rewrite Z.pow_add_r by lia. split.
  - rewrite Hc, Hb. apply Z.div_div; lia.
  - intros Hr Hs Hmod.
    apply Z.mod_divide in Hmod; [|lia]. destruct Hmod as [q Hq].
    assert (H1 : shr_m a mod 2 ^ k1 = 0).
    { rewrite Hq. replace (q * (2 ^ k1 * 2 ^ k2)) with (q * 2 ^ k2 * 2 ^ k1) by ring.
      apply Z.mod_mul. lia. }
    destruct (Hexact1 Hr Hs H1) as [Hrb Hsb].
    apply (Hexact2 Hrb Hsb).
    rewrite Hb, Hq.
    replace (q * (2 ^ k1 * 2 ^ k2)) with (q * 2 ^ k2 * 2 ^ k1) by ring.
    rewrite Z.div_mul by lia. apply Z.mod_mul. lia.
Qed.

Lemma iter_pos_shr_rel (p : positive) (a : shr_record) :
  shr_rel (Zpos p) a (iter_pos shr_1 p a).
Proof.
  revert a. induction p as [p IH|p IH|]; intros a; simpl iter_pos.
  - replace (Zpos p~1) with (1 + (Zpos p + Zpos p)) by lia.
    apply shr_rel_trans with (b := shr_1 a); [lia | lia | apply shr_1_rel |].
    apply shr_rel_trans with (b := iter_pos shr_1 p (shr_1 a));
      [lia | lia | apply IH | apply IH].
  - replace (Zpos p~0) with (Zpos p + Zpos p) by lia.
    apply shr_rel_trans with (b := iter_pos shr_1 p a);
      [lia | lia | apply IH | apply IH].
  - apply shr_1_rel.
Qed.

Lemma round_nearest_even_bounds (m : Z) (l : location) :
  m <= round_nearest_even m l <= m + 1
  /\ (l = loc_Exact -> round_nearest_even m l = m).
Proof.
  destruct l as [|[| |]]; simpl; try destruct (Z.even m); split;
    solve [lia | reflexivity | discriminate].
Qed.

Lemma loc_exact (a : shr_record) :
  shr_r a = false -> shr_s a = false -> loc_of_shr_record a = loc_Exact.
Proof. destruct a as [m r s]. simpl. now intros -> ->. Qed.

End Rounding.

(** ** Values of binary64 numbers *)

Lemma dyadic_mono (m m' e : Z) : (m <= m')%Z -> dyadic m e <= dyadic m' e.
Proof.
  intros H. assert (P : (0 < 2 ^ e \/ e < 0)%Z).
  { destruct (Z_lt_le_dec e 0); [now right | left; apply Z.pow_pos_nonneg; lia]. }
  destruct e as [|p|p]; unfold dyadic.
  - rewrite <- Zle_Qle. lia.
  - rewrite <- Zle_Qle. destruct P as [P|P]; [nia | lia].
  - unfold Qle. cbn [Qnum Qden]. nia.
Qed.

Lemma dyadic_0 (e : Z) : dyadic 0 e == 0.
Proof. destruct e; unfold dyadic; reflexivity. Qed.

Lemma dyadic_pos (m : positive) (e : Z) : 0 < dyadic (Zpos m) e.
Proof.
  destruct e as [|p|p]; unfold dyadic.
  - rewrite <- (Zlt_Qlt 0). simpl. lia.
  - rewrite <- (Zlt_Qlt 0).
    assert (0 < 2 ^ Zpos p)%Z by (apply Z.pow_pos_nonneg; lia). nia.
  - reflexivity.
Qed.

Lemma dyadic_Qpower (m e : Z) : dyadic m e == inject_Z m * 2 ^ e.
Proof.
  destruct e as [|p|p]; unfold dyadic.
  - simpl. rewrite Z.mul_1_r. ring.
  - rewrite inject_Z_mult, Zpower_Qpower by lia. reflexivity.
  - change (2 ^ Zneg p) with (/ (2 ^ Zpos p)).
    rewrite <- (Zpower_Qpower 2 (Zpos p)) by lia.
    rewrite <- Pos2Z.inj_pow. rewrite Qmake_Qdiv. reflexivity.
Qed.

Lemma dyadic_mul (a b e1 e2 : Z) :
  dyadic (a * b) (e1 + e2) == dyadic a e1 * dyadic b e2.
Proof.
  rewrite !dyadic_Qpower, inject_Z_mult.
  rewrite Qpower_plus by discriminate. ring.
Qed.

(** ** Rounding to nearest: representable bounds and canonical results *)

Lemma dyadic_shift (m e k : Z) :
  (0 <= k)%Z -> dyadic (m * 2 ^ k) e == dyadic m (e + k).
Proof.
  intros Hk. rewrite !dyadic_Qpower, inject_Z_mult, Zpower_Qpower by exact Hk.
  rewrite Qpower_plus by discriminate. change (inject_Z 2) with 2. ring.
Qed.

Lemma dyadic_le_iff (m m' e : Z) : dyadic m e <= dyadic m' e <-> (m <= m')%Z.
Proof.
  rewrite !dyadic_Qpower.
  rewrite Qmult_le_r by (apply Qpower_0_lt; reflexivity).
  now rewrite <- Zle_Qle.
Qed.

(** Two dyadic numbers compared on a common exponent. *)
Lemma dyadic_le_common (a ea b eb c : Z) :
  (c <= ea)%Z -> (c <= eb)%Z ->
  dyadic a ea <= dyadic b eb <-> (a * 2 ^ (ea - c) <= b * 2 ^ (eb - c))%Z.
Proof.
  intros Ha Hb.
  rewrite <- (dyadic_le_iff _ _ c).
  rewrite (dyadic_shift a c (ea - c)), (dyadic_shift b c (eb - c)) by lia.
  replace (c + (ea - c))%Z with ea by lia.
  replace (c + (eb - c))%Z with eb by lia. reflexivity.
Qed.

Section RoundingTheory.

Local Open Scope Z_scope.

Lemma fexp_eq (e : Z) : fexp prec emax e = Z.max (e - 53) (-1074).
Proof. reflexivity. Qed.

Lemma Zdigits2_bounds (M : Z) :
  0 < M -> 2 ^ (Zdigits2 M - 1) <= M < 2 ^ Zdigits2 M /\ 0 < Zdigits2 M.
Proof.
  destruct M as [|p|p]; try lia. intros _. simpl Zdigits2.
  split; [apply digits2_pos_bounds | lia].
Qed.

Lemma Zdigits2_unique (M k : Z) :
  2 ^ (k - 1) <= M < 2 ^ k -> 0 < k -> Zdigits2 M = k.
Proof.
  intros [Hlo Hhi] Hk.
  assert (HM : 0 < M).
  { assert (0 < 2 ^ (k - 1)) by (apply Z.pow_pos_nonneg; lia). lia. }
  destruct (Zdigits2_bounds M HM) as [[Dlo Dhi] Dpos].
  set (d := Zdigits2 M) in *.
  assert (H1 : 2 ^ (d - 1) < 2 ^ k) by lia.
  assert (H2 : 2 ^ (k - 1) < 2 ^ d) by lia.
  apply Z.pow_lt_mono_r_iff in H1; [|lia|lia].
  apply Z.pow_lt_mono_r_iff in H2; [|lia|lia]. lia.
Qed.

Lemma shr_rel_0 (a : shr_record) : shr_rel 0 a a.
Proof.
  intros Ha. change (2 ^ 0) with 1. rewrite Z.div_1_r. split; [reflexivity|].
  intros Hr Hs _. now split.
Qed.

(** The shift of [shr_fexp]: by the distance to the exponent of the
    format when that lies above, by nothing otherwise. *)
Lemma shr_fexp_spec (M E : Z) (l : location) (mrs : shr_record) (e' : Z) :
  shr_fexp prec emax M E l = (mrs, e') ->
  let k := Z.max 0 (fexp prec emax (Zdigits2 M + E) - E) in
  e' = E + k /\ shr_rel k (shr_record_of_loc M l) mrs.
Proof.
  unfold shr_fexp, shr. intros H.
  destruct (fexp prec emax (Zdigits2 M + E) - E) as [|p|p] eqn:Hn.
  - injection H as <- <-. split; [cbn; lia | apply shr_rel_0].
  - injection H as <- <-. rewrite Z.max_r by lia. split; [lia|].
    apply iter_pos_shr_rel.
  - injection H as <- <-. rewrite Z.max_l by lia.
    split; [lia | apply shr_rel_0].
Qed.

Lemma shr_record_of_loc_m (M : Z) (l : location) :
  shr_m (shr_record_of_loc M l) = M.
Proof. destruct l as [|[| |]]; reflexivity. Qed.

Lemma shr_record_of_loc_exact (M : Z) (l : location) :
  shr_r (shr_record_of_loc M l) = false ->
  shr_s (shr_record_of_loc M l) = false -> l = loc_Exact.
Proof. destruct l as [|[| |]]; cbn; congruence. Qed.

(** One pass of shifting and rounding stays below a bound [K * 2^-n]
    that the format can represent.  The position [l] of the exact
    value above [M * 2^E] only matters when [M * 2^E] is the bound. *)
Lemma round_le (M E : Z) (l : location) (K n : Z) :
  0 <= M -> 0 <= K < 2 ^ 53 -> 0 <= n <= 1074 ->
  (l = loc_Exact \/ E <= fexp prec emax (Zdigits2 M + E)) ->
  (dyadic M E <= dyadic K (- n))%Q ->
  ((dyadic K (- n) <= dyadic M E)%Q -> l = loc_Exact) ->
  forall mrs e', shr_fexp prec emax M E l = (mrs, e') ->
  0 <= shr_m mrs
  /\ (dyadic (round_nearest_even (shr_m mrs) (loc_of_shr_record mrs)) e'
      <= dyadic K (- n))%Q.
Proof.
  intros HM HK Hn Hcond Hle Hexact mrs e' Hshr.
  pose proof (shr_fexp_spec M E l mrs e' Hshr) as Hspec. cbv zeta in Hspec.
  destruct Hspec as [He' Hrel].
  set (k := Z.max 0 (fexp prec emax (Zdigits2 M + E) - E)) in *.
  assert (Hk : 0 <= k) by (unfold k; lia).
  assert (P : 0 < 2 ^ k) by (apply Z.pow_pos_nonneg; lia).
  unfold shr_rel in Hrel. rewrite shr_record_of_loc_m in Hrel.
  destruct (Hrel HM) as [Hm Hex].
  assert (Hm0 : 0 <= shr_m mrs) by (rewrite Hm; apply Z.div_pos; lia).
  split; [exact Hm0|].
  destruct (round_nearest_even_bounds (shr_m mrs) (loc_of_shr_record mrs))
    as [[Rlo Rup] Rex].
  (* the exact case needs no shift of the bound *)
  destruct (Z.eq_dec k 0) as [Hk0|Hk0].
  - rewrite Hk0 in *. change (2 ^ 0) with 1 in *. rewrite Z.div_1_r in Hm.
    replace e' with E by lia.
    destruct (Qlt_le_dec (dyadic M E) (dyadic K (- n))) as [Hlt|Hge].
    + (* strictly below: the successor is still below when the
         exponent is the format's *)
      destruct Hcond as [-> | Hcond].
      * rewrite Rex; [now rewrite Hm|].
        apply loc_exact; [apply Hex | apply Hex]; try reflexivity;
          rewrite Z.mod_1_r; reflexivity.
      * assert (HE : E = fexp prec emax (Zdigits2 M + E)) by (unfold k in Hk0; lia).
        assert (HEn : E <= - n).
        { rewrite fexp_eq in HE.
          destruct (Z.eq_dec M 0) as [->|HM0]; [cbn in HE; lia|].
          destruct (Zdigits2_bounds M) as [[Dlo _] Dpos]; [lia|].
          set (d := Zdigits2 M) in *.
          destruct (Z_le_gt_dec E (- n)) as [Hok|Hbad]; [exact Hok|].
          exfalso. apply Qlt_le_weak in Hlt.
          apply (dyadic_le_common M E K (- n) (- n)) in Hlt; [|lia|lia].
          rewrite Z.sub_diag in Hlt. change (2 ^ 0) with 1 in Hlt.
          assert (2 ^ (d - 1) * 2 ^ (E + n) < 2 ^ 53).
          { assert (0 < 2 ^ (E + n)) by (apply Z.pow_pos_nonneg; lia).
            replace (E - - n) with (E + n) in Hlt by lia. nia. }
          rewrite <- Z.pow_add_r in H by lia.
          apply Z.pow_lt_mono_r_iff in H; lia. }
        apply (dyadic_le_common _ E K (- n) E); [lia|lia|].
        rewrite Z.sub_diag. change (2 ^ 0) with 1. rewrite Z.mul_1_r.
        apply (dyadic_le_common M E K (- n) E) in Hle as Hle'; [|lia|lia].
        rewrite Z.sub_diag in Hle'. change (2 ^ 0) with 1 in Hle'.
        rewrite Z.mul_1_r in Hle'.
        assert (Hne : M <> K * 2 ^ (- n - E)).
        { intros Heq. apply (Qlt_not_le _ _ Hlt).
          apply (dyadic_le_common K (- n) M E E); [lia|lia|].
          rewrite Z.sub_diag. change (2 ^ 0) with 1. lia. }
        lia.
    + rewrite (Hexact Hge) in *.
      rewrite Rex; [now rewrite Hm|].
      apply loc_exact; apply Hex; try reflexivity; rewrite Z.mod_1_r; reflexivity.
  - (* a real shift: the new exponent is the format's, and the bound
       is a multiple of its unit *)
    assert (Hfe : e' = fexp prec emax (Zdigits2 M + E)) by (unfold k in *; lia).
    assert (Hen : e' <= - n).
    { pose proof (fexp_eq (Zdigits2 M + E)) as Hf.
      destruct (Z.eq_dec M 0) as [->|HM0];
        [cbn [Zdigits2] in *; unfold k in *; lia|].
      rewrite Hfe, fexp_eq.
      destruct (Zdigits2_bounds M) as [[Dlo _] Dpos]; [lia|].
      set (d := Zdigits2 M) in *.
      destruct (Z_le_gt_dec (d + E - 53) (- n)) as [Hok|Hbad]; [lia|].
      exfalso.
      destruct (Z_le_gt_dec E (- n)) as [HE|HE].
      - apply (dyadic_le_common M E K (- n) E) in Hle; [|lia|lia].
        rewrite Z.sub_diag in Hle. change (2 ^ 0) with 1 in Hle.
        assert (2 ^ (d - 1) < 2 ^ (53 + (- n - E))).
        { rewrite Z.pow_add_r by lia.
          assert (0 < 2 ^ (- n - E)) by (apply Z.pow_pos_nonneg; lia). nia. }
        apply Z.pow_lt_mono_r_iff in H; lia.
      - apply (dyadic_le_common M E K (- n) (- n)) in Hle; [|lia|lia].
        rewrite Z.sub_diag in Hle. change (2 ^ 0) with 1 in Hle.
        assert (2 ^ (d - 1) * 2 ^ (E + n) < 2 ^ 53).
        { assert (0 < 2 ^ (E + n)) by (apply Z.pow_pos_nonneg; lia).
          replace (E - - n) with (E + n) in Hle by lia. nia. }
        rewrite <- Z.pow_add_r in H by lia.
        apply Z.pow_lt_mono_r_iff in H; lia. }
    set (K' := K * 2 ^ (- n - e')).
    apply (dyadic_le_common _ e' K (- n) e'); [lia|lia|].
    rewrite Z.sub_diag. change (2 ^ 0) with 1. rewrite Z.mul_1_r. fold K'.
    assert (HMK : M <= K' * 2 ^ k).
    { apply (dyadic_le_common M E K (- n) E) in Hle; [|lia|lia].
      rewrite Z.sub_diag in Hle. change (2 ^ 0) with 1 in Hle.
      rewrite Z.mul_1_r in Hle. unfold K'.
      replace (- n - E) with ((- n - e') + k) in Hle by lia.
      rewrite Z.pow_add_r in Hle by lia. lia. }
    assert (Hq : shr_m mrs <= K').
    { rewrite Hm. apply Z.div_le_upper_bound; lia. }
    destruct (Z.eq_dec (shr_m mrs) K') as [Heq|Hne]; [|lia].
    assert (HMeq : M = K' * 2 ^ k).
    { pose proof (Z.div_mod M (2 ^ k)) as D.
      pose proof (Z.mod_pos_bound M (2 ^ k) P) as R.
      rewrite <- Hm, Heq in D. lia. }
    assert (Hl : l = loc_Exact).
    { apply Hexact. apply (dyadic_le_common K (- n) M E E); [lia|lia|].
      rewrite Z.sub_diag. change (2 ^ 0) with 1. rewrite Z.mul_1_r.
      rewrite HMeq. unfold K'.
      replace (- n - E) with ((- n - e') + k) by lia.
      rewrite Z.pow_add_r by lia. lia. }
    subst l. rewrite Rex; [lia|].
    apply loc_exact; apply Hex; try reflexivity;
      rewrite HMeq; apply Z.mod_mul; lia.
Qed.

End RoundingTheory.

Lemma dyadic_nonneg (m e : Z) : (0 <= m)%Z -> 0 <= dyadic m e.
Proof.
  intros Hm. rewrite <- (dyadic_0 e). now apply dyadic_mono.
Qed.

(** Rounding a value that is at most [K * 2^-n] returns zero or a
    finite number that is at most [K * 2^-n]. *)
Lemma binary_round_aux_upper (sx : bool) (M E : Z) (l : location) (K n : Z) :
  (0 <= M)%Z -> (0 <= K < 2 ^ 53)%Z -> (0 <= n <= 1074)%Z ->
  (l = loc_Exact \/ (E <= fexp prec emax (Zdigits2 M + E))%Z) ->
  dyadic M E <= dyadic K (- n) ->
  (dyadic K (- n) <= dyadic M E -> l = loc_Exact) ->
  binary_round_aux prec emax sx M E l = S754_zero sx
  \/ exists m e,
       binary_round_aux prec emax sx M E l = S754_finite sx m e
       /\ dyadic (Zpos m) e <= dyadic K (- n).
Proof.
  intros HM HK Hn Hcond Hle Hexact. unfold binary_round_aux.
  destruct (shr_fexp prec emax M E l) as [mrs' e'] eqn:E1.
  destruct (round_le M E l K n HM HK Hn Hcond Hle Hexact mrs' e' E1) as [H0 H1].
  set (M1 := round_nearest_even (shr_m mrs') (loc_of_shr_record mrs')) in *.
  assert (HM1 : (0 <= M1)%Z).
  { pose proof (round_nearest_even_bounds (shr_m mrs') (loc_of_shr_record mrs')).
    unfold M1. lia. }
  destruct (shr_fexp prec emax M1 e' loc_Exact) as [mrs'' e''] eqn:E2.
  destruct (round_le M1 e' loc_Exact K n HM1 HK Hn (or_introl eq_refl) H1
              (fun _ => eq_refl) mrs'' e'' E2) as [H2 H3].
  assert (H4 : dyadic (shr_m mrs'') e'' <= dyadic K (- n)).
  { eapply Qle_trans; [|exact H3]. apply dyadic_mono.
    pose proof (round_nearest_even_bounds (shr_m mrs'')
                  (loc_of_shr_record mrs'')). lia. }
  destruct (shr_m mrs'') as [|m|m]; [now left | | lia].
  right. exists m, e''.
  destruct (e'' <=? emax - prec)%Z eqn:Hov; [now split|].
  exfalso. apply Z.leb_gt in Hov. unfold emax, prec in Hov.
  apply (dyadic_le_common (Zpos m) e'' K (- n) (- n)) in H4; [|lia|lia].
  rewrite Z.sub_diag in H4. change (2 ^ 0)%Z with 1%Z in H4.
  assert (2 ^ 53 <= 2 ^ (e'' - - n))%Z by (apply Z.pow_le_mono_r; lia).
  nia.
Qed.

(** *** Numbers that are zero or positive *)

Definition nonneg (f : spec_float) : Prop :=
  match f with
  | S754_zero _ | S754_finite false _ _ => True
  | _ => False
  end.

(** A bound that binary64 represents: [K * 2^-n] with [K] below
    [2^53]. *)
Definition grid_point (B : Q) : Prop :=
  exists K n, (0 <= K < 2 ^ 53)%Z /\ (0 <= n <= 1074)%Z /\ B == dyadic K (- n).

Definition below (f : spec_float) (B : Q) : Prop := nonneg f /\ SF2Q f <= B.

Lemma nonneg_value (f : spec_float) : nonneg f -> 0 <= SF2Q f.
Proof.
  destruct f as [s|s| |[|] m e]; cbn; try tauto; intros _;
    [apply Qle_refl | apply Qlt_le_weak, dyadic_pos].
Qed.

Lemma nonneg_finite (f : spec_float) : nonneg f -> is_finite f = true.
Proof. destruct f as [s|s| |[|] m e]; cbn; tauto. Qed.

Lemma grid_point_nonneg (B : Q) : grid_point B -> 0 <= B.
Proof.
  intros (K & n & HK & _ & ->). apply dyadic_nonneg. lia.
Qed.

Lemma rounded_below (M E : Z) (l : location) (B : Q) :
  (0 <= M)%Z -> grid_point B ->
  (l = loc_Exact \/ (E <= fexp prec emax (Zdigits2 M + E))%Z) ->
  dyadic M E <= B -> (B <= dyadic M E -> l = loc_Exact) ->
  below (binary_round_aux prec emax false M E l) B.
Proof.
  intros HM (K & n & HK & Hn & HB) Hcond Hle Hexact.
  rewrite HB in Hle. 
  assert (Hexact' : dyadic K (- n) <= dyadic M E -> l = loc_Exact)
    by (intros H; apply Hexact; now rewrite HB).
  destruct (binary_round_aux_upper false M E l K n HM HK Hn Hcond Hle Hexact')
    as [-> | (m & e & -> & Hme)].
  - split; [exact I|]. cbn. rewrite HB. apply dyadic_nonneg. lia.
  - split; [exact I|]. cbn. now rewrite HB.
Qed.

(** *** Multiplication *)

Lemma fmul_below (x y : spec_float) (B : Q) :
  nonneg x -> nonneg y -> grid_point B -> SF2Q x * SF2Q y <= B ->
  below (fmul x y) B.
Proof.
  intros Hx Hy HB Hle. pose proof (grid_point_nonneg B HB) as HB0.
  destruct x as [sx|sx| |[|] mx ex]; cbn in Hx; try tauto;
    destruct y as [sy|sy| |[|] my ey]; cbn in Hy; try tauto;
    try (split; [exact I | exact HB0]).
  unfold fmul, SFmul. cbn [xorb].
  apply rounded_below; [lia | exact HB | now left | | intros _; reflexivity].
  rewrite Pos2Z.inj_mul, dyadic_mul. exact Hle.
Qed.

(** *** Addition *)

Lemma iter_xO (m d : positive) :
  Zpos (Pos.iter xO m d) = (Zpos m * 2 ^ Zpos d)%Z.
Proof.
  induction d as [|d IH] using Pos.peano_ind.
  - cbn. lia.
  - rewrite Pos.iter_succ, Pos2Z.inj_succ, Z.pow_succ_r by lia.
    rewrite Pos2Z.inj_xO, IH. ring.
Qed.

Lemma shl_align_value (m : positive) (e e' : Z) :
  dyadic (Zpos (fst (shl_align m e e'))) (snd (shl_align m e e'))
  == dyadic (Zpos m) e.
Proof.
  unfold shl_align. destruct (e' - e)%Z as [|d|d] eqn:Hd; cbn [fst snd];
    try reflexivity.
  rewrite iter_xO, dyadic_shift by lia.
  replace (e' + Zpos d)%Z with e by lia. reflexivity.
Qed.

Lemma shl_align_le (m : positive) (e e' : Z) :
  (e' <= e)%Z ->
  snd (shl_align m e e') = e'
  /\ Zpos (fst (shl_align m e e')) = (Zpos m * 2 ^ (e - e'))%Z.
Proof.
  intros He. unfold shl_align. destruct (e' - e)%Z as [|d|d] eqn:Hd; cbn [fst snd].
  - replace (e - e')%Z with 0%Z by lia. split; lia.
  - lia.
  - rewrite iter_xO. replace (e - e')%Z with (Zpos d) by lia. split; reflexivity.
Qed.

Lemma binary_round_below (m : positive) (e : Z) (B : Q) :
  grid_point B -> dyadic (Zpos m) e <= B ->
  below (binary_round prec emax false m e) B.
Proof.
  intros HB Hle. unfold binary_round.
  pose proof (shl_align_value m e (fexp prec emax (Zpos (digits2_pos m) + e)))
    as Hv.
  destruct (shl_align m e (fexp prec emax (Zpos (digits2_pos m) + e)))
    as [mz ez]. cbn [fst snd] in Hv.
  apply rounded_below; [lia | exact HB | now left | | intros _; reflexivity].
  now rewrite Hv.
Qed.

Lemma fadd_below (x y : spec_float) (B : Q) :
  nonneg x -> nonneg y -> grid_point B -> SF2Q x + SF2Q y <= B ->
  below (fadd x y) B.
Proof.
  intros Hx Hy HB Hle. pose proof (grid_point_nonneg B HB) as HB0.
  destruct x as [sx|sx| |[|] mx ex]; cbn in Hx; try tauto;
    destruct y as [sy|sy| |[|] my ey]; cbn in Hy; try tauto.
  - split; [destruct sx, sy; exact I | destruct sx, sy; exact HB0].
  - split; [exact I|]. cbn in *. lra.
  - split; [exact I|]. cbn in *. lra.
  - unfold fadd, SFadd. cbn [cond_Zopp].
    destruct (shl_align_le mx ex (Z.min ex ey)) as [_ Ha]; [lia|].
    destruct (shl_align_le my ey (Z.min ex ey)) as [_ Hb]; [lia|].
    set (a := fst (shl_align mx ex (Z.min ex ey))) in *.
    set (b := fst (shl_align my ey (Z.min ex ey))) in *.
    change (Zpos a + Zpos b)%Z with (Zpos (a + b)).
    cbn [binary_normalize].
    apply binary_round_below; [exact HB|].
    rewrite Pos2Z.inj_add. cbn [SF2Q] in Hle.
    assert (Hsum : dyadic (Zpos a + Zpos b) (Z.min ex ey)
                   == dyadic (Zpos mx) ex + dyadic (Zpos my) ey).
    { rewrite Ha, Hb.
      rewrite !dyadic_Qpower, !inject_Z_plus, !inject_Z_mult.
      rewrite !Zpower_Qpower by lia. change (inject_Z 2) with 2.
      assert (E1 : 2 ^ ex == 2 ^ (ex - Z.min ex ey) * 2 ^ Z.min ex ey).
      { rewrite <- Qpower_plus by discriminate. now replace (ex - Z.min ex ey + Z.min ex ey)%Z with ex by lia. }
      assert (E2 : 2 ^ ey == 2 ^ (ey - Z.min ex ey) * 2 ^ Z.min ex ey).
      { rewrite <- Qpower_plus by discriminate. now replace (ey - Z.min ex ey + Z.min ex ey)%Z with ey by lia. }
      rewrite E1, E2. ring. }
    now rewrite Hsum.
Qed.

(** *** Division *)

Lemma new_location_exact (nb : Z) : new_location nb 0 = loc_Exact.
Proof.
  unfold new_location, new_location_even, new_location_odd.
  now destruct (Z.even nb).
Qed.

(** The quotient that [SFdiv_core_binary] hands to the rounding: it
    lies at or below the exact quotient, it is marked exact when it
    is the exact quotient, and it has enough digits. *)
Lemma div_core_spec (m1 m2 : positive) (e1 e2 q e' : Z) (l : location) :
  SFdiv_core_binary prec emax (Zpos m1) e1 (Zpos m2) e2 = (q, e', l) ->
  (0 <= q)%Z
  /\ (e' <= fexp prec emax (Zdigits2 q + e'))%Z
  /\ dyadic q e' * dyadic (Zpos m2) e2 <= dyadic (Zpos m1) e1
  /\ (dyadic (Zpos m1) e1 <= dyadic q e' * dyadic (Zpos m2) e2 -> l = loc_Exact).
Proof.
  unfold SFdiv_core_binary. cbn [Zdigits2].
  set (d1 := Zpos (digits2_pos m1)). set (d2 := Zpos (digits2_pos m2)).
  set (e0 := Z.min (fexp prec emax (d1 + e1 - (d2 + e2))) (e1 - e2)).
  set (s := (e1 - e2 - e0)%Z).
  assert (Hs : (0 <= s)%Z) by (unfold s, e0; lia).
  set (m' := match s with
             | 0%Z => Zpos m1
             | Zpos _ => Z.shiftl (Zpos m1) s
             | Zneg _ => 0%Z
             end).
  assert (Hm' : m' = (Zpos m1 * 2 ^ s)%Z).
  { unfold m'. destruct s as [|p|p] eqn:Es; [cbn; lia | | lia].
    now rewrite Z.shiftl_mul_pow2 by lia. }
  pose proof (Z_div_mod m' (Zpos m2) eq_refl) as Hdiv.
  destruct (Z.div_eucl m' (Zpos m2)) as [q0 r]. destruct Hdiv as [Hdiv Hr].
  intros [= <- <- <-].
  assert (P : (0 < 2 ^ s)%Z) by (apply Z.pow_pos_nonneg; lia).
  assert (Hq0 : (0 <= q0)%Z) by nia.
  assert (Hval : dyadic (Zpos m1) e1 == dyadic m' (e0 + e2)).
  { rewrite Hm', dyadic_shift by lia.
    now replace (e0 + e2 + s)%Z with e1 by (unfold s; lia). }
  split; [exact Hq0|]. split; [|split].
  - rewrite fexp_eq.
    destruct (Z_le_gt_dec e0 (-1074)) as [Hlow|Hhigh]; [lia|].
    assert (HD : (e0 <= d1 + e1 - (d2 + e2) - 53)%Z).
    { unfold e0 in *. rewrite fexp_eq in *. lia. }
    destruct (digits2_pos_bounds m1) as [L1 _].
    destruct (digits2_pos_bounds m2) as [_ U2].
    fold d1 in L1. fold d2 in U2.
    assert (Hs53 : (53 - d1 + d2 <= s)%Z) by (unfold s; lia).
    assert (Hbig : (2 ^ 52 * 2 ^ d2 <= m')%Z).
    { rewrite Hm'.
      assert (2 ^ (52 + d2) <= 2 ^ (d1 - 1 + s))%Z
        by (apply Z.pow_le_mono_r; unfold d1, d2 in *; lia).
      rewrite Z.pow_add_r in H by (unfold d1, d2; lia).
      rewrite Z.pow_add_r in H by (unfold d1; lia).
      nia. }
    assert (Hq52 : (2 ^ 52 <= q0)%Z).
    { destruct (Z_le_gt_dec (2 ^ 52) q0) as [H|H]; [exact H|]. exfalso.
      assert (0 < 2 ^ d2)%Z by (apply Z.pow_pos_nonneg; unfold d2; lia).
      nia. }
    destruct (Zdigits2_bounds q0) as [[_ Uq] _]; [lia|].
    assert (2 ^ 52 < 2 ^ Zdigits2 q0)%Z by lia.
    apply Z.pow_lt_mono_r_iff in H; [lia | lia |].
    destruct q0; cbn; lia.
  - rewrite Hval, <- dyadic_mul. apply dyadic_mono. lia.
  - intros Hge. rewrite Hval, <- dyadic_mul in Hge.
    apply dyadic_le_iff in Hge.
    replace r with 0%Z by lia. apply new_location_exact.
Qed.

(** Zero or a number of sign [sx] whose magnitude is at most [B]. *)
Definition magnitude_below (sx : bool) (f : spec_float) (B : Q) : Prop :=
  f = S754_zero sx
  \/ exists m e, f = S754_finite sx m e /\ dyadic (Zpos m) e <= B.

Lemma rounded_magnitude (sx : bool) (M E : Z) (l : location) (B : Q) :
  (0 <= M)%Z -> grid_point B ->
  (l = loc_Exact \/ (E <= fexp prec emax (Zdigits2 M + E))%Z) ->
  dyadic M E <= B -> (B <= dyadic M E -> l = loc_Exact) ->
  magnitude_below sx (binary_round_aux prec emax sx M E l) B.
Proof.
  intros HM (K & n & HK & Hn & HB) Hcond Hle Hexact.
  rewrite HB in Hle.
  assert (Hexact' : dyadic K (- n) <= dyadic M E -> l = loc_Exact)
    by (intros H; apply Hexact; now rewrite HB).
  destruct (binary_round_aux_upper sx M E l K n HM HK Hn Hcond Hle Hexact')
    as [-> | (m & e & -> & Hme)].
  - now left.
  - right. exists m, e. split; [reflexivity | now rewrite HB].
Qed.

Lemma magnitude_below_value (f : spec_float) (B : Q) :
  0 <= B -> magnitude_below false f B -> below f B.
Proof.
  intros HB [-> | (m & e & -> & Hle)]; split; cbn; auto.
Qed.

Lemma fdiv_below (x : spec_float) (my : positive) (ey : Z) (B : Q) :
  nonneg x -> grid_point B ->
  SF2Q x <= B * dyadic (Zpos my) ey ->
  below (fdiv x (S754_finite false my ey)) B.
Proof.
  intros Hx HB Hle. pose proof (grid_point_nonneg B HB) as HB0.
  destruct x as [sx|sx| |[|] mx ex]; cbn in Hx; try tauto.
  - split; [exact I | exact HB0].
  - unfold fdiv, SFdiv. cbn [xorb].
    destruct (SFdiv_core_binary prec emax (Zpos mx) ex (Zpos my) ey)
      as [[q e'] l] eqn:Hcore.
    destruct (div_core_spec mx my ex ey q e' l Hcore) as (Hq & Hd & Hlo & Hex).
    pose proof (dyadic_pos my ey) as Hy. cbn [SF2Q] in Hle.
    apply magnitude_below_value; [exact HB0|].
    apply rounded_magnitude; [exact Hq | exact HB | now right | |].
    + apply (Qmult_le_r _ _ (dyadic (Zpos my) ey)); [exact Hy|].
      eapply Qle_trans; [exact Hlo | exact Hle].
    + intros Hge. apply Hex.
      eapply Qle_trans; [exact Hle|].
      apply Qmult_le_compat_r; [exact Hge | now apply Qlt_le_weak].
Qed.

(** *** Decimal numerals *)

Lemma nearest_quotient_below (a b : positive) (B : Q) :
  grid_point B -> inject_Z (Zpos a) <= B * inject_Z (Zpos b) ->
  below (nearest_quotient false a b) B.
Proof.
  intros HB Hle. pose proof (grid_point_nonneg B HB) as HB0.
  unfold nearest_quotient.
  destruct (SFdiv_core_binary prec emax (Zpos a) 0 (Zpos b) 0)
    as [[q e'] l] eqn:Hcore.
  destruct (div_core_spec a b 0 0 q e' l Hcore) as (Hq & Hd & Hlo & Hex).
  assert (Ha : dyadic (Zpos a) 0 == inject_Z (Zpos a))
    by (unfold dyadic; now rewrite Z.mul_1_r).
  assert (Hb : dyadic (Zpos b) 0 == inject_Z (Zpos b))
    by (unfold dyadic; now rewrite Z.mul_1_r).
  rewrite Ha, Hb in Hlo, Hex.
  assert (Hbpos : 0 < inject_Z (Zpos b)) by reflexivity.
  apply magnitude_below_value; [exact HB0|].
  apply rounded_magnitude; [exact Hq | exact HB | now right | |].
  - apply (Qmult_le_r _ _ (inject_Z (Zpos b))); [exact Hbpos|].
    eapply Qle_trans; [exact Hlo | exact Hle].
  - intros Hge. apply Hex.
    eapply Qle_trans; [exact Hle|].
    apply Qmult_le_compat_r; [exact Hge | now apply Qlt_le_weak].
Qed.

(** The number read from a decimal numeral stays at or below every
    representable bound of the numeral's exact value. *)
Lemma float_of_decimal_below (mant e10 : Z) (B : Q) :
  (0 <= mant)%Z -> grid_point B -> inject_Z mant * 10 ^ e10 <= B ->
  below (float_of_decimal false mant e10) B.
Proof.
  intros Hm HB Hle. pose proof (grid_point_nonneg B HB) as HB0.
  destruct mant as [|m|m]; [split; [exact I | exact HB0] | | lia].
  unfold float_of_decimal. destruct e10 as [|k|k].
  - apply binary_round_below; [exact HB|].
    change (10 ^ 0)%Z with 1%Z. change (Z.to_pos 1) with 1%positive.
    rewrite Pos.mul_1_r. unfold dyadic. rewrite Z.mul_1_r.
    change (10 ^ 0) with 1 in Hle. now rewrite Qmult_1_r in Hle.
  - apply binary_round_below; [exact HB|].
    assert (P : (0 < 10 ^ Zpos k)%Z) by (apply Z.pow_pos_nonneg; lia).
    unfold dyadic. rewrite Z.mul_1_r, Pos2Z.inj_mul, Z2Pos.id by exact P.
    rewrite inject_Z_mult, Zpower_Qpower by lia. exact Hle.
  - apply nearest_quotient_below; [exact HB|].
    change (10 ^ Zneg k) with (/ (10 ^ Zpos k)) in Hle.
    assert (E : inject_Z (Zpos (10 ^ k)) == 10 ^ Zpos k).
    { rewrite Pos2Z.inj_pow, Zpower_Qpower by lia. reflexivity. }
    assert (P : 0 < 10 ^ Zpos k) by (apply Qpower_0_lt; reflexivity).
    rewrite E.
    apply (Qmult_le_r _ _ (/ (10 ^ Zpos k))); [now apply Qinv_lt_0_compat|].
    rewrite <- Qmult_assoc, Qmult_inv_r, Qmult_1_r; [exact Hle|].
    intros H0. rewrite H0 in P. discriminate P.
Qed.

(** *** The error of one rounding *)

(** A value [x] in [[0, C]] is at most one unit [2^-n] below a
    representable bound, when the multiples of the unit up to [C] are
    representable. *)
Lemma next_grid_point (x : Q) (C n : Z) :
  0 <= x <= inject_Z C -> (0 <= n <= 1074)%Z -> (C * 2 ^ n < 2 ^ 53)%Z ->
  exists B, grid_point B /\ x <= B /\ B <= x + dyadic 1 (- n).
Proof.
  intros [Hx0 HxC] Hn HC.
  assert (P : 0 < 2 ^ n) by (apply Qpower_0_lt; reflexivity).
  set (K := Qceiling (x * 2 ^ n)).
  assert (Hup : x * 2 ^ n <= inject_Z K) by apply Qle_ceiling.
  assert (Hlo : inject_Z (K - 1) < x * 2 ^ n) by apply Qceiling_lt.
  assert (HK0 : (0 <= K)%Z).
  { rewrite Zle_Qle. eapply Qle_trans; [|exact Hup].
    apply Qmult_le_0_compat; [exact Hx0 | now apply Qlt_le_weak]. }
  assert (HKC : (K - 1 < C * 2 ^ n)%Z).
  { rewrite Zlt_Qlt. eapply Qlt_le_trans; [exact Hlo|].
    rewrite inject_Z_mult, Zpower_Qpower by lia.
    apply Qmult_le_compat_r; [exact HxC | now apply Qlt_le_weak]. }
  assert (Hinv : 2 ^ n * 2 ^ (- n) == 1).
  { rewrite <- Qpower_plus by discriminate.
    now replace (n + - n)%Z with 0%Z by lia. }
  exists (dyadic K (- n)). split; [|split].
  - exists K, n. split; [lia|]. split; [lia | reflexivity].
  - rewrite dyadic_Qpower.
    setoid_replace x with (x * 2 ^ n * 2 ^ (- n)) at 1
      by (rewrite <- Qmult_assoc, Hinv; ring).
    apply Qmult_le_compat_r; [exact Hup|].
    apply Qlt_le_weak, Qpower_0_lt. reflexivity.
  - rewrite !dyadic_Qpower.
    assert (P' : 0 < 2 ^ (- n)) by (apply Qpower_0_lt; reflexivity).
    setoid_replace (x + inject_Z 1 * 2 ^ (- n))
      with ((x * 2 ^ n + 1) * 2 ^ (- n))
      by (rewrite Qmult_plus_distr_l, <- Qmult_assoc, Hinv; ring).
    apply Qmult_le_compat_r; [|now apply Qlt_le_weak].
    apply Qlt_le_weak in Hlo.
    unfold Z.sub in Hlo. rewrite inject_Z_plus in Hlo.
    change (inject_Z (- (1))) with (- (1)) in Hlo.
    remember (x * 2 ^ n) as y eqn:Ey. remember (inject_Z K) as kq eqn:Ek.
    clear - Hlo. lra.
Qed.

(** A number that stays at or below every representable bound of [x]
    is at most one unit above [x]. *)
Lemma below_plus_unit (f : spec_float) (x : Q) (C n : Z) :
  (forall B, grid_point B -> x <= B -> below f B) ->
  0 <= x <= inject_Z C -> (0 <= n <= 1074)%Z -> (C * 2 ^ n < 2 ^ 53)%Z ->
  nonneg f /\ SF2Q f <= x + dyadic 1 (- n).
Proof.
  intros Hf Hx Hn HC.
  destruct (next_grid_point x C n Hx Hn HC) as (B & HB & HxB & HBx).
  destruct (Hf B HB HxB) as [Hnn Hle]. split; [exact Hnn|].
  eapply Qle_trans; [exact Hle | exact HBx].
Qed.

(** *** Canonical results *)

Section Canonical.

Local Open Scope Z_scope.

Lemma Zdigits2_le_53 (M : Z) : 0 < M < 2 ^ 53 -> Zdigits2 M <= 53.
Proof.
  intros HM. destruct (Zdigits2_bounds M) as [[Lo _] Dpos]; [lia|].
  assert (H : 2 ^ (Zdigits2 M - 1) < 2 ^ 53) by lia.
  apply Z.pow_lt_mono_r_iff in H; lia.
Qed.

(** The first pass of [binary_round_aux] leaves a mantissa of at most
    53 bits at the exponent of the format, with all 53 bits unless the
    exponent is the least one. *)
Lemma first_pass_digits (M E : Z) (l : location) (mrs : shr_record) (e' : Z) :
  0 <= M -> E <= fexp prec emax (Zdigits2 M + E) ->
  shr_fexp prec emax M E l = (mrs, e') ->
  let M1 := round_nearest_even (shr_m mrs) (loc_of_shr_record mrs) in
  0 <= M1 <= 2 ^ 53 /\ -1074 <= e' /\ (2 ^ 52 <= M1 \/ e' = -1074).
Proof.
  intros HM Hcond Hshr M1.
  pose proof (shr_fexp_spec M E l mrs e' Hshr) as Hspec. cbv zeta in Hspec.
  destruct Hspec as [He' Hrel].
  pose proof (fexp_eq (Zdigits2 M + E)) as Hf.
  set (fe := fexp prec emax (Zdigits2 M + E)) in *.
  rewrite Z.max_r in He', Hrel by lia.
  set (k := fe - E) in *.
  assert (Hk : 0 <= k) by (unfold k; lia).
  assert (P : 0 < 2 ^ k) by (apply Z.pow_pos_nonneg; lia).
  unfold shr_rel in Hrel. rewrite shr_record_of_loc_m in Hrel.
  destruct (Hrel HM) as [Hm _].
  pose proof (round_nearest_even_bounds (shr_m mrs) (loc_of_shr_record mrs))
    as [[Rlo Rup] _]. fold M1 in Rlo, Rup.
  assert (Hm0 : 0 <= shr_m mrs) by (rewrite Hm; apply Z.div_pos; lia).
  assert (Hfe : e' = fe) by (unfold k in He'; lia).
  destruct (Z.eq_dec M 0) as [HM0|HM0].
  - subst M. cbn [Zdigits2] in *. rewrite Z.div_0_l in Hm by lia.
    assert (2 ^ 53 > 1) by reflexivity. lia.
  - destruct (Zdigits2_bounds M) as [[Dlo Dhi] Dpos]; [lia|].
    set (d := Zdigits2 M) in *.
    destruct (Z_le_gt_dec (-1074) (d + E - 53)) as [Hnorm|Hsub].
    + (* the exponent is [d + E - 53]: 53 bits are kept *)
      assert (Hkd : k = d - 53) by (unfold k; lia).
      assert (Hd1 : 2 ^ (d - 1) = 2 ^ 52 * 2 ^ k).
      { rewrite <- Z.pow_add_r by lia. f_equal. lia. }
      assert (Hd2 : 2 ^ d = 2 ^ 53 * 2 ^ k).
      { rewrite <- Z.pow_add_r by lia. f_equal. lia. }
      assert (Hlo : 2 ^ 52 <= shr_m mrs).
      { rewrite Hm. apply Z.div_le_lower_bound; lia. }
      assert (Hhi : shr_m mrs < 2 ^ 53).
      { rewrite Hm. apply Z.div_lt_upper_bound; lia. }
      lia.
    + (* the least exponent: fewer bits may remain *)
      assert (Hfe' : fe = -1074) by lia.
      assert (Hhi : shr_m mrs < 2 ^ 52).
      { rewrite Hm. apply Z.div_lt_upper_bound; [lia|].
        assert (2 ^ d <= 2 ^ (52 + k)) by (apply Z.pow_le_mono_r; unfold k; lia).
        rewrite Z.pow_add_r in H by lia. lia. }
      lia.
Qed.

Lemma shr_1_pow (p : positive) :
  shr_m (shr_1 (Build_shr_record (Zpos p~0) false false)) = Zpos p.
Proof. reflexivity. Qed.

(** [binary_round_aux] returns a canonical number when its argument has
    at least the precision of the format. *)
Lemma binary_round_aux_valid (sx : bool) (M E : Z) (l : location) :
  0 <= M -> E <= fexp prec emax (Zdigits2 M + E) ->
  valid_binary prec emax (binary_round_aux prec emax sx M E l) = true.
Proof.
  intros HM Hcond. unfold binary_round_aux.
  destruct (shr_fexp prec emax M E l) as [mrs' e'] eqn:E1.
  pose proof (first_pass_digits M E l mrs' e' HM Hcond E1) as H1.
  cbv zeta in H1.
  set (M1 := round_nearest_even (shr_m mrs') (loc_of_shr_record mrs')) in *.
  destruct H1 as (HM1 & He' & Hnorm).
  destruct (shr_fexp prec emax M1 e' loc_Exact) as [mrs'' e''] eqn:E2.
  pose proof (shr_fexp_spec M1 e' loc_Exact mrs'' e'' E2) as Hspec.
  cbv zeta in Hspec. destruct Hspec as [He'' Hrel].
  unfold shr_rel in Hrel. rewrite shr_record_of_loc_m in Hrel.
  destruct (Hrel (proj1 HM1)) as [Hm _].
  pose proof (fexp_eq (Zdigits2 M1 + e')) as Hf.
  set (fe2 := fexp prec emax (Zdigits2 M1 + e')) in *.
  destruct (Z.eq_dec M1 0) as [H0|H0].
  - rewrite H0, Z.div_0_l in Hm.
    + now rewrite Hm.
    + apply Z.pow_nonzero; lia.
  - destruct (Z.eq_dec M1 (2 ^ 53)) as [Htop|Htop].
    + assert (Hd : Zdigits2 M1 = 54) by (rewrite Htop; reflexivity).
      rewrite Hd in Hf.
      assert (Hk : Z.max 0 (fe2 - e') = 1) by lia.
      rewrite Hk in He'', Hm. rewrite Htop in Hm.
      change (2 ^ 53 / 2 ^ 1) with (2 ^ 52) in Hm. rewrite Hm.
      change (2 ^ 52) with (Zpos 4503599627370496).
      cbv beta iota.
      destruct (e'' <=? emax - prec) eqn:Hov; [|reflexivity].
      cbn [valid_binary]. unfold bounded, canonical_mantissa.
      rewrite Hov, andb_true_r. apply Z.eqb_eq.
      change (Zpos (digits2_pos 4503599627370496)) with 53.
      rewrite fexp_eq. lia.
    + assert (Hd : Zdigits2 M1 <= 53) by (apply Zdigits2_le_53; lia).
      assert (Hk : Z.max 0 (fe2 - e') = 0) by lia.
      rewrite Hk in He'', Hm. change (2 ^ 0) with 1 in Hm.
      rewrite Z.div_1_r in Hm. rewrite Hm.
      destruct M1 as [|m|m]; [lia | | lia].
      destruct (e'' <=? emax - prec) eqn:Hov; [|reflexivity].
      cbn [valid_binary]. unfold bounded, canonical_mantissa.
      rewrite Hov, andb_true_r. apply Z.eqb_eq.
      rewrite fexp_eq. cbn [Zdigits2] in Hd.
      destruct Hnorm as [Hn|Hn]; [|lia].
      destruct (digits2_pos_bounds m) as [_ Dhi].
      assert (H : 2 ^ 52 < 2 ^ Zpos (digits2_pos m)) by lia.
      apply Z.pow_lt_mono_r_iff in H; lia.
Qed.

End Canonical.

(** A product with a number of full precision is canonical. *)
Lemma fmul_valid_r (x : spec_float) (sy : bool) (my : positive) (ey : Z) :
  (2 ^ 52 <= Zpos my)%Z ->
  valid_binary prec emax (fmul x (S754_finite sy my ey)) = true.
Proof.
  intros Hy. destruct x as [sx|sx| |sx mx ex]; try reflexivity.
  unfold fmul, SFmul. apply binary_round_aux_valid; [lia|].
  rewrite fexp_eq.
  destruct (Zdigits2_bounds (Zpos (mx * my))) as [[_ Dhi] _]; [lia|].
  assert (H : (2 ^ 52 < 2 ^ Zdigits2 (Zpos (mx * my)))%Z) by nia.
  apply Z.pow_lt_mono_r_iff in H; [lia | lia |].
  cbn. lia.
Qed.

Lemma fmul_valid_l (x : spec_float) (sy : bool) (my : positive) (ey : Z) :
  (2 ^ 52 <= Zpos my)%Z ->
  valid_binary prec emax (fmul (S754_finite sy my ey) x) = true.
Proof.
  intros Hy. destruct x as [sx|sx| |sx mx ex]; try reflexivity.
  unfold fmul, SFmul. apply binary_round_aux_valid; [lia|].
  rewrite fexp_eq.
  destruct (Zdigits2_bounds (Zpos (my * mx))) as [[_ Dhi] _]; [lia|].
  assert (H : (2 ^ 52 < 2 ^ Zdigits2 (Zpos (my * mx)))%Z) by nia.
  apply Z.pow_lt_mono_r_iff in H; [lia | lia |].
  cbn. lia.
Qed.

(** *** Comparison *)

Lemma canonical_bits (m : positive) (e : Z) :
  bounded prec emax m e = true ->
  (Zpos m < 2 ^ 53)%Z /\ (2 ^ 52 <= Zpos m \/ e = -1074)%Z /\ (-1074 <= e)%Z.
Proof.
  unfold bounded, canonical_mantissa. intros H.
  apply andb_true_iff in H as [H _]. apply Z.eqb_eq in H.
  rewrite fexp_eq in H.
  destruct (digits2_pos_bounds m) as [Dlo Dhi].
  set (d := Zpos (digits2_pos m)) in *.
  assert (Hd : (d <= 53)%Z) by lia.
  split; [|split; [|lia]].
  - assert (2 ^ d <= 2 ^ 53)%Z by (apply Z.pow_le_mono_r; lia). lia.
  - destruct (Z.eq_dec e (-1074)) as [He|He]; [now right | left].
    assert (d = 53)%Z by lia. replace (d - 1)%Z with 52%Z in Dlo by lia. exact Dlo.
Qed.

(** Canonical numbers with a smaller exponent are smaller. *)
Lemma canonical_exponent_lt (m1 m2 : positive) (e1 e2 : Z) :
  bounded prec emax m1 e1 = true -> bounded prec emax m2 e2 = true ->
  (e1 < e2)%Z -> dyadic (Zpos m1) e1 < dyadic (Zpos m2) e2.
Proof.
  intros H1 H2 He.
  destruct (canonical_bits m1 e1 H1) as (U1 & _ & L1).
  destruct (canonical_bits m2 e2 H2) as (_ & N2 & _).
  apply Qnot_le_lt. intros Hle.
  apply (dyadic_le_common (Zpos m2) e2 (Zpos m1) e1 e1) in Hle; [|lia|lia].
  rewrite Z.sub_diag in Hle. change (2 ^ 0)%Z with 1%Z in Hle.
  assert (2 ^ 1 <= 2 ^ (e2 - e1))%Z by (apply Z.pow_le_mono_r; lia).
  change (2 ^ 1)%Z with 2%Z in H. nia.
Qed.

Definition magnitude_compare (m1 : positive) (e1 : Z) (m2 : positive) (e2 : Z)
  : comparison :=
  match Z.compare e1 e2 with
  | Lt => Lt
  | Gt => Gt
  | Eq => Pos.compare_cont Eq m1 m2
  end.

Lemma magnitude_compare_spec (m1 m2 : positive) (e1 e2 : Z) :
  bounded prec emax m1 e1 = true -> bounded prec emax m2 e2 = true ->
  match magnitude_compare m1 e1 m2 e2 with
  | Lt => dyadic (Zpos m1) e1 < dyadic (Zpos m2) e2
  | Eq => dyadic (Zpos m1) e1 == dyadic (Zpos m2) e2
  | Gt => dyadic (Zpos m2) e2 < dyadic (Zpos m1) e1
  end.
Proof.
  intros H1 H2. unfold magnitude_compare.
  destruct (Z.compare_spec e1 e2) as [He|He|He].
  - subst e2. change (Pos.compare_cont Eq m1 m2) with (Pos.compare m1 m2).
    destruct (Pos.compare_spec m1 m2) as [Hm|Hm|Hm].
    + subst. reflexivity.
    + apply Qnot_le_lt. intros Hle. apply dyadic_le_iff in Hle. lia.
    + apply Qnot_le_lt. intros Hle. apply dyadic_le_iff in Hle. lia.
  - now apply canonical_exponent_lt.
  - now apply canonical_exponent_lt.
Qed.

Lemma Qle_bool_true (x y : Q) : x <= y -> Qle_bool x y = true.
Proof. apply Qle_bool_iff. Qed.

Lemma Qle_bool_false (x y : Q) : y < x -> Qle_bool x y = false.
Proof.
  intros H. destruct (Qle_bool x y) eqn:E; [|reflexivity].
  apply Qle_bool_iff in E. exfalso. apply (Qlt_not_le _ _ H E).
Qed.

(** On canonical finite numbers [SFleb] compares the values. *)
Lemma SFleb_value (a b : spec_float) :
  valid_binary prec emax a = true -> valid_binary prec emax b = true ->
  is_finite a = true -> is_finite b = true ->
  SFleb a b = Qle_bool (SF2Q a) (SF2Q b).
Proof.
  intros Va Vb Fa Fb. unfold SFleb.
  destruct a as [sa|sa| |sa ma ea]; try discriminate;
    destruct b as [sb|sb| |sb mb eb]; try discriminate;
    cbn [SFcompare SF2Q valid_binary] in *.
  - reflexivity.
  - pose proof (dyadic_pos mb eb). destruct sb; symmetry;
      [apply Qle_bool_false | apply Qle_bool_true]; lra.
  - pose proof (dyadic_pos ma ea). destruct sa; symmetry;
      [apply Qle_bool_true | apply Qle_bool_false]; lra.
  - pose proof (dyadic_pos ma ea). pose proof (dyadic_pos mb eb).
    pose proof (magnitude_compare_spec ma mb ea eb Va Vb) as Hc.
    unfold magnitude_compare in Hc.
    destruct sa, sb.
    + destruct (Z.compare ea eb); [destruct (Pos.compare_cont Eq ma mb)| |];
        cbn [CompOpp]; symmetry;
        solve [apply Qle_bool_true; lra | apply Qle_bool_false; lra].
    + symmetry. apply Qle_bool_true. lra.
    + symmetry. apply Qle_bool_false. lra.
    + destruct (Z.compare ea eb); [destruct (Pos.compare_cont Eq ma mb)| |];
        symmetry;
        solve [apply Qle_bool_true; lra | apply Qle_bool_false; lra].
Qed.

(** ** Strings in the documented coordinate formats *)

(** A run of white space that is not empty. *)
Definition is_blank (ws : str) : bool :=
  match ws with
  | [] => false
  | _ :: _ => forallb py_isspace ws
  end.

(** A part between blanks: not empty, no white space, and none of the
    unit marks [marks] that the parser deletes. *)
Definition is_token (marks : list char) (t : str) : bool :=
  match t with
  | [] => false
  | _ :: _ =>
      forallb (fun c => negb (py_isspace c) && negb (existsb (N.eqb c) marks)) t
  end.

(** [s] with every code point of [marks] deleted. *)
Definition remove_all (marks : list char) (s : str) : str :=
  filter (fun c => negb (existsb (N.eqb c) marks)) s.

Lemma replace_one_char (c : char) (s : str) :
  py_replace [c] [] s = remove_all [c] s.
Proof.
  unfold py_replace. induction s as [|x s IH]; [reflexivity|].
  cbn [replace_from starts_with remove_all filter existsb].
  rewrite N.eqb_sym, andb_true_r, orb_false_r.
  destruct (x =? c)%N; cbn [negb length Nat.sub app]; [exact IH|].
  f_equal. exact IH.
Qed.

Lemma remove_all_cons (c : char) (marks : list char) (s : str) :
  remove_all marks (remove_all [c] s) = remove_all (c :: marks) s.
Proof.
  unfold remove_all. induction s as [|x s IH]; [reflexivity|].
  cbn [filter existsb]. rewrite orb_false_r.
  destruct (x =? c)%N; cbn [negb orb]; [exact IH|].
  cbn [filter]. destruct (negb (existsb (N.eqb x) marks)); [f_equal|]; exact IH.
Qed.

(** Deleting the marks one after the other deletes them all. *)
Lemma replace_chain (marks : list char) (s : str) :
  fold_left (fun acc c => py_replace [c] [] acc) marks s = remove_all marks s.
Proof.
  revert s. induction marks as [|c marks IH]; intros s; cbn [fold_left].
  - unfold remove_all. induction s as [|x s IHs]; [reflexivity|].
    cbn. now f_equal.
  - now rewrite IH, replace_one_char, remove_all_cons.
Qed.

Lemma remove_all_app (marks : list char) (a b : str) :
  remove_all marks (a ++ b) = remove_all marks a ++ remove_all marks b.
Proof. apply filter_app. Qed.

Lemma remove_all_token (marks : list char) (t : str) :
  is_token marks t = true -> remove_all marks t = t.
Proof.
  unfold is_token, remove_all. destruct t as [|c0 t0]; [discriminate|].
  generalize (c0 :: t0). clear. intros t. induction t as [|x t IH]; [reflexivity|].
  cbn [forallb filter]. rewrite andb_true_iff, andb_true_iff.
  intros [[_ Hx] Ht]. rewrite Hx. f_equal. now apply IH.
Qed.

Lemma remove_all_blank (marks : list char) (ws : str) :
  forallb (fun c => negb (py_isspace c)) marks = true ->
  forallb py_isspace ws = true -> remove_all marks ws = ws.
Proof.
  intros Hmarks. unfold remove_all.
  induction ws as [|x ws IH]; [reflexivity|].
  cbn [forallb filter]. rewrite andb_true_iff. intros [Hx Hws].
  assert (Hnot : existsb (N.eqb x) marks = false).
  { destruct (existsb (N.eqb x) marks) eqn:E; [|reflexivity].
    apply existsb_exists in E. destruct E as [y [Hy Hxy]].
    apply N.eqb_eq in Hxy. subst y.
    rewrite forallb_forall in Hmarks. specialize (Hmarks x Hy).
    rewrite Hx in Hmarks. discriminate. }
  rewrite Hnot. cbn [negb]. f_equal. now apply IH.
Qed.

Lemma is_blank_spaces (ws : str) :
  is_blank ws = true -> ws <> [] /\ forallb py_isspace ws = true.
Proof. destruct ws; [discriminate|]. intros H. split; [discriminate | exact H]. Qed.

Lemma is_token_no_space (marks : list char) (t : str) :
  is_token marks t = true ->
  t <> [] /\ forallb (fun c => negb (py_isspace c)) t = true.
Proof.
  unfold is_token. destruct t as [|c0 t0]; [discriminate|].
  intros H. split; [discriminate|]. revert H.
  generalize (c0 :: t0). clear. intros t. induction t as [|x t IH]; [reflexivity|].
  cbn [forallb]. rewrite !andb_true_iff. intros [[Hx _] Ht]. split; [exact Hx|].
  now apply IH.
Qed.

Lemma split_go_word (t cur rest : str) :
  forallb (fun c => negb (py_isspace c)) t = true ->
  split_go cur (t ++ rest) = split_go (rev t ++ cur) rest.
Proof.
  revert cur. induction t as [|x t IH]; intros cur; [reflexivity|].
  cbn [forallb app split_go rev]. rewrite andb_true_iff. intros [Hx Ht].
  apply negb_true_iff in Hx. rewrite Hx, IH by exact Ht.
  now rewrite <- app_assoc.
Qed.

Lemma split_go_spaces (ws rest : str) :
  forallb py_isspace ws = true -> split_go [] (ws ++ rest) = split_go [] rest.
Proof.
  induction ws as [|x ws IH]; [reflexivity|].
  cbn [forallb app split_go]. rewrite andb_true_iff. intros [Hx Hws].
  rewrite Hx. now apply IH.
Qed.

(** A word followed by a blank is the first part of the split. *)
Lemma split_word_blank (marks : list char) (t ws rest : str) :
  is_token marks t = true -> is_blank ws = true ->
  split_go [] (t ++ ws ++ rest) = t :: split_go [] rest.
Proof.
  intros Ht Hws.
  destruct (is_token_no_space marks t Ht) as [Hne Hns].
  destruct (is_blank_spaces ws Hws) as [Hwne Hsp].
  rewrite split_go_word by exact Hns. rewrite app_nil_r.
  destruct ws as [|w ws]; [contradiction|].
  cbn [app split_go]. cbn [forallb] in Hsp. apply andb_true_iff in Hsp.
  destruct Hsp as [Hw Hsp]. rewrite Hw.
  destruct (rev t) as [|r0 rt] eqn:Hrev.
  - apply (f_equal (@rev char)) in Hrev. rewrite rev_involutive in Hrev.
    contradiction.
  - rewrite <- Hrev, rev_involutive. f_equal. now apply split_go_spaces.
Qed.

(** A word at the end of the string is the last part of the split. *)
Lemma split_word_end (marks : list char) (t : str) :
  is_token marks t = true -> split_go [] t = [t].
Proof.
  intros Ht. destruct (is_token_no_space marks t Ht) as [Hne Hns].
  rewrite <- (app_nil_r t) at 1. rewrite split_go_word by exact Hns.
  rewrite app_nil_r. cbn [split_go].
  destruct (rev t) as [|r0 rt] eqn:Hrev.
  - apply (f_equal (@rev char)) in Hrev. rewrite rev_involutive in Hrev.
    contradiction.
  - now rewrite <- Hrev, rev_involutive.
Qed.

Lemma split_three (marks : list char) (a b c ws1 ws2 : str) :
  is_token marks a = true -> is_token marks b = true ->
  is_token marks c = true -> is_blank ws1 = true -> is_blank ws2 = true ->
  py_split (a ++ ws1 ++ b ++ ws2 ++ c) = [a; b; c].
Proof.
  intros Ha Hb Hc H1 H2. unfold py_split.
  rewrite (split_word_blank marks) by assumption.
  rewrite (split_word_blank marks) by assumption.
  now rewrite (split_word_end marks).
Qed.

(** ** Coordinate parsing: the documented formats *)

(** The letters [h], [m], [s] that [ra_to_degrees] deletes. *)
Definition ra_marks : list char := [104%N; 109%N; 115%N].

(** The signs and quotes that [dec_to_degrees] deletes. *)
Definition dec_marks : list char :=
  [degree_sign; prime; double_prime; apostrophe; double_quote].

Definition sign_chars : list char := [plus_sign; hyphen_minus; minus_sign].

(** [whole + minutes/60 + seconds/3600] on binary64 numbers. *)
Definition sexagesimal_value (whole minutes seconds : spec_float) : spec_float :=
  fadd (fadd whole (fdiv minutes (float_of_int 60)))
       (fdiv seconds (float_of_int 3600)).

Lemma sexagesimal_floats (whole minutes seconds : spec_float) :
  sexagesimal (PFloat whole) (PFloat minutes) (PFloat seconds)
  = inr (PFloat (sexagesimal_value whole minutes seconds)).
Proof. reflexivity. Qed.

Lemma float_part_at (parts : list str) (i : nat) (p : str) (f : spec_float) :
  nth_error parts i = Some p -> py_float p = inr f ->
  float_part parts i = inr (PFloat f).
Proof.
  intros Hp Hf. unfold float_part, index, bind, ret. now rewrite Hp, Hf.
Qed.

Lemma parse_three_floats (a b c : str) (x y z : spec_float) (k : pynum -> pynum) :
  py_float a = inr x -> py_float b = inr y -> py_float c = inr z ->
  (whole <- float_part [a; b; c] 0 ;;
   minutes <- float_part_or_0 [a; b; c] 1 ;;
   seconds <- float_part_or_0 [a; b; c] 2 ;;
   total <- sexagesimal whole minutes seconds ;;
   ret (k total))
  = inr (k (PFloat (sexagesimal_value x y z))).
Proof.
  intros Ha Hb Hc. unfold float_part_or_0. cbn [length Nat.ltb Nat.leb].
  rewrite (float_part_at [a; b; c] 0 a x eq_refl Ha).
  rewrite (float_part_at [a; b; c] 1 b y eq_refl Hb).
  rewrite (float_part_at [a; b; c] 2 c z eq_refl Hc).
  reflexivity.
Qed.

Lemma float_of_int_15 :
  float_of_int 15 = S754_finite false 8444249301319680 (-49).
Proof. vm_compute. reflexivity. Qed.

Lemma float_of_int_sign (negative : bool) :
  float_of_int (if negative then -1 else 1)
  = S754_finite negative 4503599627370496 (-52).
Proof. destruct negative; vm_compute; reflexivity. Qed.

(** The value of [ra_to_degrees] on a string in the format
    "HHh MMm SSs" of its docstring. *)
Lemma ra_to_degrees_formatted (H M S ws1 ws2 : str) (h m s : spec_float) :
  is_token ra_marks H = true -> is_token ra_marks M = true ->
  is_token ra_marks S = true ->
  is_blank ws1 = true -> is_blank ws2 = true ->
  py_float H = inr h -> py_float M = inr m -> py_float S = inr s ->
  ra_to_degrees (VStr (H ++ u "h" ++ ws1 ++ M ++ u "m" ++ ws2 ++ S ++ u "s"))
  = (PFloat (fmul (sexagesimal_value h m s) (float_of_int 15)), []).
Proof.
  intros HH HM HS H1 H2 Hh Hm Hs.
  destruct (is_blank_spaces ws1 H1) as [_ Hsp1].
  destruct (is_blank_spaces ws2 H2) as [_ Hsp2].
  unfold ra_to_degrees, ra_try.
  assert (Ch : py_contains (u "h")
                 (H ++ u "h" ++ ws1 ++ M ++ u "m" ++ ws2 ++ S ++ u "s") = true).
  { apply py_contains_spec. now exists H, (ws1 ++ M ++ u "m" ++ ws2 ++ S ++ u "s"). }
  assert (Cm : py_contains (u "m")
                 (H ++ u "h" ++ ws1 ++ M ++ u "m" ++ ws2 ++ S ++ u "s") = true).
  { apply py_contains_spec.
    exists (H ++ u "h" ++ ws1 ++ M), (ws2 ++ S ++ u "s").
    now rewrite <- !app_assoc. }
  rewrite Ch, Cm. cbn [andb].
  change (py_replace (u "s") []
            (py_replace (u "m") []
               (py_replace (u "h") []
                  (H ++ u "h" ++ ws1 ++ M ++ u "m" ++ ws2 ++ S ++ u "s"))))
    with (fold_left (fun acc c => py_replace [c] [] acc) ra_marks
            (H ++ u "h" ++ ws1 ++ M ++ u "m" ++ ws2 ++ S ++ u "s")).
  rewrite replace_chain, !remove_all_app.
  rewrite (remove_all_token ra_marks H), (remove_all_token ra_marks M),
    (remove_all_token ra_marks S) by assumption.
  rewrite (remove_all_blank ra_marks ws1), (remove_all_blank ra_marks ws2)
    by (assumption || reflexivity).
  change (remove_all ra_marks (u "h")) with (@nil char).
  change (remove_all ra_marks (u "m")) with (@nil char).
  change (remove_all ra_marks (u "s")) with (@nil char).
  cbn [app]. rewrite app_nil_r.
  rewrite (split_three ra_marks) by assumption.
  change (float_part [H; M; S] 1) with (float_part_or_0 [H; M; S] 1).
  now rewrite (parse_three_floats H M S h m s
                 (fun total => py_mul total (PInt 15)) Hh Hm Hs).
Qed.

(** The optional sign in front of a declination. *)
Definition is_sign_prefix (sgn : str) : bool :=
  existsb (str_eqb sgn) [[]; [plus_sign]; [hyphen_minus]; [minus_sign]].

Definition is_negative (sgn : str) : bool :=
  existsb (str_eqb sgn) [[hyphen_minus]; [minus_sign]].

(** The part does not begin with a sign of its own. *)
Definition unsigned (t : str) : bool :=
  match t with
  | c :: _ => negb (existsb (N.eqb c) sign_chars)
  | [] => false
  end.

Lemma str_eqb_single (c x : char) : str_eqb [c] [x] = (c =? x)%N.
Proof.
  destruct (c =? x)%N eqn:E.
  - apply N.eqb_eq in E. subst. apply str_eqb_refl.
  - apply str_eqb_neq. intros [= H]. apply N.eqb_neq in E. contradiction.
Qed.

(** The value of [dec_to_degrees] on a string in the format
    "+DD° MM′ SS″" of its docstring. *)
Lemma dec_to_degrees_formatted (sgn D M S ws1 ws2 : str) (d m s : spec_float) :
  is_sign_prefix sgn = true ->
  is_token dec_marks D = true -> unsigned D = true ->
  is_token dec_marks M = true -> is_token dec_marks S = true ->
  is_blank ws1 = true -> is_blank ws2 = true ->
  py_float D = inr d -> py_float M = inr m -> py_float S = inr s ->
  dec_to_degrees
    (VStr (sgn ++ D ++ [degree_sign] ++ ws1 ++ M ++ [prime] ++ ws2 ++ S
           ++ [double_prime]))
  = (PFloat (fmul (float_of_int (if is_negative sgn then -1 else 1))
                  (sexagesimal_value d m s)), []).
Proof.
  intros Hsgn HD HU HM HS H1 H2 Hd Hm Hs.
  destruct (is_blank_spaces ws1 H1) as [_ Hsp1].
  destruct (is_blank_spaces ws2 H2) as [_ Hsp2].
  unfold dec_to_degrees, dec_try.
  change (py_replace [double_quote] []
            (py_replace [apostrophe] []
               (py_replace [double_prime] []
                  (py_replace [prime] []
                     (py_replace [degree_sign] []
                        (sgn ++ D ++ [degree_sign] ++ ws1 ++ M ++ [prime]
                         ++ ws2 ++ S ++ [double_prime]))))))
    with (fold_left (fun acc c => py_replace [c] [] acc) dec_marks
            (sgn ++ D ++ [degree_sign] ++ ws1 ++ M ++ [prime] ++ ws2 ++ S
             ++ [double_prime])).
  rewrite replace_chain, !remove_all_app.
  rewrite (remove_all_token dec_marks D), (remove_all_token dec_marks M),
    (remove_all_token dec_marks S) by assumption.
  rewrite (remove_all_blank dec_marks ws1), (remove_all_blank dec_marks ws2)
    by (assumption || reflexivity).
  change (remove_all dec_marks [degree_sign]) with (@nil char).
  change (remove_all dec_marks [prime]) with (@nil char).
  change (remove_all dec_marks [double_prime]) with (@nil char).
  cbn [app]. rewrite app_nil_r.
  assert (Hparts : py_split (D ++ ws1 ++ M ++ ws2 ++ S) = [D; M; S])
    by now apply (split_three dec_marks).
  assert (Hvalue : forall sign,
    (degrees <- float_part [D; M; S] 0 ;;
     minutes <- float_part_or_0 [D; M; S] 1 ;;
     seconds <- float_part_or_0 [D; M; S] 2 ;;
     total <- sexagesimal degrees minutes seconds ;;
     ret (py_mul sign total))
    = inr (py_mul sign (PFloat (sexagesimal_value d m s)))).
  { intros sign. now apply (parse_three_floats D M S d m s (py_mul sign)). }
  destruct D as [|c0 D']; [discriminate|]. cbn [app] in Hparts.
  assert (Hc0 : existsb (N.eqb c0) sign_chars = false).
  { cbn [unsigned] in HU. now apply negb_true_iff in HU. }
  assert (Hneg0 : existsb (str_eqb [c0]) [[hyphen_minus]; [minus_sign]] = false).
  { unfold sign_chars in Hc0. cbn [existsb] in Hc0 |- *.
    rewrite !str_eqb_single. now apply orb_false_iff in Hc0 as [_ Hc0]. }
  unfold is_sign_prefix in Hsgn. cbn [existsb] in Hsgn.
  rewrite !orb_true_iff, !str_eqb_eq in Hsgn.
  destruct Hsgn as [-> | [-> | [-> | [-> | Hff]]]]; [| | | | discriminate Hff].
  - change (remove_all dec_marks []) with (@nil char). cbn [app].
    rewrite Hneg0. cbn [py_lstrip]. fold sign_chars. rewrite Hc0.
    rewrite Hparts, Hvalue. reflexivity.
  - change (remove_all dec_marks [plus_sign]) with [plus_sign]. cbn [app].
    change (existsb (str_eqb [plus_sign]) [[hyphen_minus]; [minus_sign]])
      with false.
    cbn [py_lstrip].
    change (existsb (N.eqb plus_sign) [plus_sign; hyphen_minus; minus_sign])
      with true.
    cbn iota. fold sign_chars. rewrite Hc0.
    rewrite Hparts, Hvalue. reflexivity.
  - change (remove_all dec_marks [hyphen_minus]) with [hyphen_minus]. cbn [app].
    change (existsb (str_eqb [hyphen_minus]) [[hyphen_minus]; [minus_sign]])
      with true.
    cbn [py_lstrip].
    change (existsb (N.eqb hyphen_minus) [plus_sign; hyphen_minus; minus_sign])
      with true.
    cbn iota. fold sign_chars. rewrite Hc0.
    rewrite Hparts, Hvalue. reflexivity.
  - change (remove_all dec_marks [minus_sign]) with [minus_sign]. cbn [app].
    change (existsb (str_eqb [minus_sign]) [[hyphen_minus]; [minus_sign]])
      with true.
    cbn [py_lstrip].
    change (existsb (N.eqb minus_sign) [plus_sign; hyphen_minus; minus_sign])
      with true.
    cbn iota. fold sign_chars. rewrite Hc0.
    rewrite Hparts, Hvalue. reflexivity.
Qed.

(** The exact value of a decimal numeral. *)
Definition numeral_value (t : str) : option Q :=
  match parse_decimal t with
  | Some (false, mant, e10) => Some (inject_Z mant * 10 ^ e10)
  | _ => None
  end.

(** ** Decimal numerals *)

(** The code points a decimal numeral is written with. *)
Definition numeral_alphabet : list char :=
  [43; 45; 46; 48; 49; 50; 51; 52; 53; 54; 55; 56; 57; 69; 101]%N.

Definition numeral_text (t : str) : Prop :=
  t <> [] /\ Forall (fun c => In c numeral_alphabet) t.

Lemma is_digit_alphabet (c : char) : is_digit c = true -> In c numeral_alphabet.
Proof.
  unfold is_digit. intros H. apply andb_true_iff in H as [H1 H2].
  apply N.leb_le in H1, H2.
  assert (Hc : (c = 48 \/ c = 49 \/ c = 50 \/ c = 51 \/ c = 52 \/ c = 53
                \/ c = 54 \/ c = 55 \/ c = 56 \/ c = 57)%N) by lia.
  unfold numeral_alphabet. cbn [In]. intuition auto.
Qed.

Lemma span_digits_spec (s ds tl : str) :
  span_digits s = (ds, tl) ->
  s = ds ++ tl /\ Forall (fun c => In c numeral_alphabet) ds.
Proof.
  revert ds tl. induction s as [|c s IH]; intros ds tl; cbn [span_digits].
  - intros [= <- <-]. now split.
  - destruct (is_digit c) eqn:Hc.
    + destruct (span_digits s) as [ds' tl'] eqn:Hs. intros [= <- <-].
      destruct (IH ds' tl' eq_refl) as [-> Hds]. split; [reflexivity|].
      constructor; [now apply is_digit_alphabet | exact Hds].
    + intros [= <- <-]. now split.
Qed.

Lemma read_sign_spec (s : str) :
  (exists c, In c numeral_alphabet /\ s = c :: snd (read_sign s))
  \/ (s = snd (read_sign s) /\ fst (read_sign s) = false).
Proof.
  destruct s as [|c rest]; [now right|].
  destruct (N.eq_dec c 45) as [->|H45].
  { left. exists 45%N. split; [cbn; tauto | reflexivity]. }
  destruct (N.eq_dec c 43) as [->|H43].
  { left. exists 43%N. split; [cbn; tauto | reflexivity]. }
  right. unfold read_sign.
  destruct c as [|p]; [now split|].
  repeat (destruct p as [p|p|]; try (now split)); congruence.
Qed.

Lemma digits_value_from (ds : str) (acc : Z) :
  (0 <= acc)%Z ->
  (0 <= fold_left (fun a c => (10 * a + Z.of_N (c - 48))%Z) ds acc)%Z.
Proof.
  revert acc. induction ds as [|c ds IH]; intros acc Hacc; cbn [fold_left];
    [exact Hacc|].
  apply IH. lia.
Qed.

Lemma digits_value_nonneg (ds : str) : (0 <= digits_value ds)%Z.
Proof. apply digits_value_from. lia. Qed.

Lemma Forall_alphabet_app (a b : str) :
  Forall (fun c => In c numeral_alphabet) a ->
  Forall (fun c => In c numeral_alphabet) b ->
  Forall (fun c => In c numeral_alphabet) (a ++ b).
Proof. intros Ha Hb. apply Forall_app. now split. Qed.

(** The digits after the point, when there is one. *)
Definition fraction (s2 : str) : str * str :=
  match s2 with
  | 46%N :: t => span_digits t
  | _ => ([], s2)
  end.

Lemma fraction_spec (s2 : str) :
  exists pre, Forall (fun c => In c numeral_alphabet) pre
    /\ s2 = pre ++ fst (fraction s2) ++ snd (fraction s2)
    /\ Forall (fun c => In c numeral_alphabet) (fst (fraction s2)).
Proof.
  destruct s2 as [|c s2'].
  - exists []. cbn. repeat split; constructor.
  - destruct (N.eq_dec c 46) as [->|Hc].
    + cbn [fraction]. destruct (span_digits s2') as [fp s3] eqn:Hfp.
      destruct (span_digits_spec s2' fp s3 Hfp) as [-> Ffp].
      exists [46%N]. cbn [fst snd app]. split; [|split].
      * constructor; [cbn; tauto | constructor].
      * reflexivity.
      * exact Ffp.
    + exists [].
      assert (E : fraction (c :: s2') = ([], c :: s2')).
      { unfold fraction. destruct c as [|p]; [reflexivity|].
        repeat (destruct p as [p|p|]; try reflexivity). congruence. }
      rewrite E. cbn. repeat split; constructor.
Qed.

(** What [parse_decimal] accepts is written in the alphabet, and its
    digits are read as a number that is not negative. *)
Lemma parse_decimal_text (t : str) (neg : bool) (mant e10 : Z) :
  parse_decimal t = Some (neg, mant, e10) ->
  numeral_text t /\ (0 <= mant)%Z.
Proof.
  unfold parse_decimal.
  pose proof (read_sign_spec t) as Hsign.
  destruct (read_sign t) as [sg s1]. cbn [fst snd] in Hsign.
  destruct (span_digits s1) as [ip s2] eqn:Hip.
  destruct (span_digits_spec s1 ip s2 Hip) as [Hs1 Fip].
  set (frac := match s2 with
               | 46%N :: t0 => span_digits t0
               | _ => ([], s2)
               end).
  assert (Hfrac : exists pre, Forall (fun c => In c numeral_alphabet) pre
                    /\ s2 = pre ++ fst frac ++ snd frac
                    /\ Forall (fun c => In c numeral_alphabet) (fst frac))
    by exact (fraction_spec s2).
  destruct frac as [fp s3]. cbn [fst snd] in Hfrac.
  destruct Hfrac as (pre & Fpre & Hs2 & Ffp).
  destruct (ip ++ fp) as [|d0 ds] eqn:Hdigits; [discriminate|].
  assert (Hmant : (0 <= digits_value (d0 :: ds))%Z) by apply digits_value_nonneg.
  assert (Hhead : forall tail,
            Forall (fun c => In c numeral_alphabet) tail ->
            s3 = tail -> numeral_text t).
  { intros tail Ftail ->.
    assert (Fs1 : Forall (fun c => In c numeral_alphabet) s1).
    { rewrite Hs1, Hs2. repeat apply Forall_alphabet_app; assumption. }
    assert (Ns1 : s1 <> []).
    { rewrite Hs1, Hs2. intros H.
      apply app_eq_nil in H as [Hi H]. apply app_eq_nil in H as [_ H].
      apply app_eq_nil in H as [Hf _]. subst. discriminate Hdigits. }
    destruct Hsign as [(c & Hc & ->) | [-> _]].
    - split; [discriminate | now constructor].
    - now split. }
  destruct s3 as [|c t3].
  - intros [= <- <- <-]. split; [|exact Hmant].
    apply (Hhead []); [constructor | reflexivity].
  - destruct ((c =? 101)%N || (c =? 69)%N) eqn:Hc; [|discriminate].
    pose proof (read_sign_spec t3) as Hsign2.
    destruct (read_sign t3) as [eneg t1]. cbn [fst snd] in Hsign2.
    destruct (span_digits t1) as [ed t2] eqn:Hed.
    destruct (span_digits_spec t1 ed t2 Hed) as [Ht1 Fed].
    destruct ed as [|e0 ed']; [discriminate|].
    destruct t2 as [|x t2']; [|discriminate].
    intros [= <- <- <-]. split; [|exact Hmant].
    apply (Hhead (c :: t3)); [|reflexivity].
    constructor.
    + apply orb_true_iff in Hc as [Hc|Hc]; apply N.eqb_eq in Hc; subst;
        cbn; tauto.
    + rewrite app_nil_r in Ht1. subst t1.
      destruct Hsign2 as [(c' & Hc' & ->) | [-> _]];
        [constructor; assumption | assumption].
Qed.

(** A property of all code points of the alphabet holds for the
    code points of a numeral. *)
Lemma numeral_text_forallb (g : char -> bool) (t : str) :
  forallb g numeral_alphabet = true ->
  Forall (fun c => In c numeral_alphabet) t -> forallb g t = true.
Proof.
  intros Hg Ht. apply forallb_forall. intros c Hc.
  rewrite Forall_forall in Ht. rewrite forallb_forall in Hg. auto.
Qed.

Lemma drop_underscores_numeral (t : str) (prev : char) :
  Forall (fun c => In c numeral_alphabet) t -> prev <> 95%N ->
  drop_underscores prev t = Some t.
Proof.
  intros Ht. revert prev. induction Ht as [|c t Hc _ IH]; intros prev Hp;
    cbn [drop_underscores].
  - now apply N.eqb_neq in Hp as ->.
  - assert (Hc95 : c <> 95%N).
    { intros ->. cbn in Hc. intuition discriminate. }
    apply N.eqb_neq in Hc95 as E1. apply N.eqb_neq in Hp as E2.
    rewrite E1, E2. cbn [andb]. now rewrite IH by (now apply N.eqb_neq).
Qed.

Lemma drop_space_numeral (t : str) :
  Forall (fun c => In c numeral_alphabet) t -> drop_space t = t.
Proof.
  intros Ht. destruct Ht as [|c t Hc _]; [reflexivity|].
  cbn [drop_space].
  assert (H : forallb (fun c => negb (float_isspace c)) numeral_alphabet = true)
    by reflexivity.
  rewrite forallb_forall in H. specialize (H c Hc).
  now apply negb_true_iff in H as ->.
Qed.

Lemma strip_space_numeral (t : str) :
  Forall (fun c => In c numeral_alphabet) t -> strip_space t = t.
Proof.
  intros Ht. unfold strip_space. rewrite (drop_space_numeral t Ht).
  rewrite drop_space_numeral; [apply rev_involutive|].
  apply Forall_rev. exact Ht.
Qed.

Lemma parse_inf_or_nan_numeral (t : str) :
  Forall (fun c => In c numeral_alphabet) t -> parse_inf_or_nan t = None.
Proof.
  intros Ht. unfold parse_inf_or_nan.
  pose proof (read_sign_spec t) as Hsign.
  destruct (read_sign t) as [neg body]. cbn [fst snd] in Hsign.
  assert (Hbody : Forall (fun c => In c numeral_alphabet) body).
  { destruct Hsign as [(c & _ & ->) | [-> _]]; [now inversion Ht | exact Ht]. }
  assert (Hfirst : forall word : str,
            match word with
            | c :: _ => forallb (fun x => negb (ascii_lower x =? c)%N)
                          numeral_alphabet = true
            | [] => True
            end ->
            word <> [] ->
            str_eqb (map ascii_lower body) word = false).
  { intros word Hw Hne. apply str_eqb_neq. intros Heq.
    destruct word as [|w word]; [congruence|].
    destruct Hbody as [|b body Hb _]; [discriminate|].
    cbn [map] in Heq. injection Heq as Hhead _.
    rewrite forallb_forall in Hw. specialize (Hw b Hb).
    apply negb_true_iff, N.eqb_neq in Hw. contradiction. }
  rewrite (Hfirst (u "inf")), (Hfirst (u "infinity")), (Hfirst (u "nan"));
    try reflexivity; discriminate.
Qed.

(** [float] reads a numeral as the nearest binary64 number to its
    exact value. *)
Lemma py_float_numeral (t : str) (q : Q) :
  numeral_value t = Some q ->
  numeral_text t
  /\ exists mant e10,
       (0 <= mant)%Z /\ q = inject_Z mant * 10 ^ e10
       /\ py_float t = inr (float_of_decimal false mant e10).
Proof.
  unfold numeral_value.
  destruct (parse_decimal t) as [[[neg mant] e10]|] eqn:Hp; [|discriminate].
  destruct neg; [discriminate|]. intros [= <-].
  destruct (parse_decimal_text t false mant e10 Hp) as [Ht Hm].
  split; [exact Ht|]. exists mant, e10. split; [exact Hm|].
  split; [reflexivity|].
  destruct Ht as [_ Ht]. unfold py_float.
  rewrite (drop_underscores_numeral t 0%N Ht) by discriminate.
  rewrite (strip_space_numeral t Ht), (parse_inf_or_nan_numeral t Ht), Hp.
  reflexivity.
Qed.

(** ** The range of the parsed coordinates *)

(** [f] stays at or below every representable bound of [q]: it is [q]
    rounded, or rounded several times on the way. *)
Definition rounds (q : Q) (f : spec_float) : Prop :=
  forall B, grid_point B -> q <= B -> below f B.

Lemma float_of_int_60 :
  float_of_int 60 = S754_finite false 8444249301319680 (-47).
Proof. vm_compute. reflexivity. Qed.

Lemma float_of_int_3600 :
  float_of_int 3600 = S754_finite false 7916483719987200 (-41).
Proof. vm_compute. reflexivity. Qed.

Lemma grid_point_int (C : Z) : (0 <= C < 2 ^ 53)%Z -> grid_point (inject_Z C).
Proof.
  intros HC. exists C, 0%Z. split; [exact HC|]. split; [lia|].
  unfold dyadic. cbn. now rewrite Z.mul_1_r.
Qed.

Lemma grid_point_plus (C k n : Z) :
  (0 <= C)%Z -> (0 <= k)%Z -> (0 <= n <= 1074)%Z ->
  (C * 2 ^ n + k < 2 ^ 53)%Z ->
  grid_point (inject_Z C + dyadic k (- n)).
Proof.
  intros HC Hk Hn Hlt. exists (C * 2 ^ n + k)%Z, n.
  assert (P : (0 < 2 ^ n)%Z) by (apply Z.pow_pos_nonneg; lia).
  split; [nia|]. split; [exact Hn|].
  rewrite !dyadic_Qpower, inject_Z_plus, inject_Z_mult, Zpower_Qpower by lia.
  change (inject_Z 2) with 2.
  assert (Hinv : 2 ^ n * 2 ^ (- n) == 1).
  { rewrite <- Qpower_plus by discriminate.
    now replace (n + - n)%Z with 0%Z by lia. }
  rewrite Qmult_plus_distr_l, <- Qmult_assoc, Hinv. ring.
Qed.

Lemma dyadic_unit (k : Z) (p : positive) :
  dyadic k (Zneg p) == inject_Z k * (1 # Pos.pow 2 p).
Proof. unfold dyadic. rewrite Qmake_Qdiv. unfold Qdiv. rewrite Qmake_Qdiv. unfold Qdiv. ring. Qed.

(** [whole + minutes/60 + seconds/3600] in binary64, for parts read
    from numerals whose exact total is at most [C]: the computed total
    is at most three units [2^-n] above [C]. *)
Lemma sexagesimal_below (w m s : spec_float) (wq mq sq : Q) (C : Z)
    (n : positive) :
  rounds wq w -> rounds mq m -> rounds sq s ->
  0 <= wq -> 0 <= mq <= 60 -> 0 <= sq <= 60 ->
  wq + mq / 60 + sq / 3600 <= inject_Z C ->
  (0 <= C)%Z -> (Zpos n <= 1074)%Z -> ((C + 3) * 2 ^ Zpos n < 2 ^ 53)%Z ->
  (61 # 3600) * (1 # Pos.pow 2 47) + 2 * (1 # Pos.pow 2 52)
  <= (1 # Pos.pow 2 n) ->
  below (sexagesimal_value w m s) (inject_Z C + dyadic 3 (Zneg n)).
Proof.
  intros Rw Rm Rs Hw [Hm0 Hm60] [Hs0 Hs60] Htotal HC Hn Hgrid Hsmall.
  assert (P : (0 < 2 ^ Zpos n)%Z) by (apply Z.pow_pos_nonneg; lia).
  assert (HwC : wq <= inject_Z C).
  { eapply Qle_trans; [|exact Htotal].
    assert (0 <= mq / 60) by (apply Qle_shift_div_l; [reflexivity | lra]).
    assert (0 <= sq / 3600) by (apply Qle_shift_div_l; [reflexivity | lra]).
    lra. }
  (* the three parts as they are read *)
  destruct (below_plus_unit w wq C (Zpos n) Rw (conj Hw HwC)) as [Nw Uw];
    [lia | nia |].
  destruct (below_plus_unit m mq 60 47 Rm (conj Hm0 Hm60)) as [Nm Um];
    [lia | reflexivity |].
  destruct (below_plus_unit s sq 60 47 Rs (conj Hs0 Hs60)) as [Ns Us];
    [lia | reflexivity |].
  destruct (Rm 60 (grid_point_int 60 ltac:(split; [lia | reflexivity])) Hm60)
    as [_ Mm].
  destruct (Rs 60 (grid_point_int 60 ltac:(split; [lia | reflexivity])) Hs60)
    as [_ Ms].
  change (- Zpos n)%Z with (Zneg n) in Uw.
  cbn [Z.opp] in Um, Us. change (inject_Z 60) with 60 in Mm, Ms.
  rewrite dyadic_unit in Uw, Um, Us.
  change (inject_Z 1) with 1 in Uw, Um, Us.
  pose proof (nonneg_value w Nw) as Vw.
  pose proof (nonneg_value m Nm) as Vm.
  pose proof (nonneg_value s Ns) as Vs.
  unfold sexagesimal_value. rewrite float_of_int_60, float_of_int_3600.
  (* minutes / 60 *)
  set (a1 := fdiv m (S754_finite false 8444249301319680 (-47))).
  assert (Ra1 : rounds (SF2Q m * (1 # 60)) a1).
  { intros B HB HxB. apply fdiv_below; [exact Nm | exact HB |].
    assert (E : dyadic 8444249301319680 (-47) == 60) by reflexivity.
    rewrite E. pose proof (grid_point_nonneg B HB). lra. }
  destruct (below_plus_unit a1 (SF2Q m * (1 # 60)) 1 52 Ra1) as [Na1 Ua1];
    [change (inject_Z 1) with 1; split; lra | lia | reflexivity |].
  cbn [Z.opp] in Ua1. rewrite dyadic_unit in Ua1.
  change (inject_Z 1) with 1 in Ua1.
  pose proof (nonneg_value a1 Na1) as Va1.
  (* seconds / 3600 *)
  set (a2 := fdiv s (S754_finite false 7916483719987200 (-41))).
  assert (Ra2 : rounds (SF2Q s * (1 # 3600)) a2).
  { intros B HB HxB. apply fdiv_below; [exact Ns | exact HB |].
    assert (E : dyadic 7916483719987200 (-41) == 3600) by reflexivity.
    rewrite E. pose proof (grid_point_nonneg B HB). lra. }
  destruct (below_plus_unit a2 (SF2Q s * (1 # 3600)) 1 52 Ra2) as [Na2 Ua2];
    [change (inject_Z 1) with 1; split; lra | lia | reflexivity |].
  cbn [Z.opp] in Ua2. rewrite dyadic_unit in Ua2.
  change (inject_Z 1) with 1 in Ua2.
  pose proof (nonneg_value a2 Na2) as Va2.
  (* whole + minutes / 60 *)
  set (b1 := fadd w a1).
  assert (Rb1 : rounds (SF2Q w + SF2Q a1) b1).
  { intros B HB HxB. now apply fadd_below. }
  assert (Hunit : (1 # Pos.pow 2 n) <= 1).
  { unfold Qle. cbn. lia. }
  assert (Hdiv_m : mq / 60 == mq * (1 # 60)) by (unfold Qdiv; reflexivity).
  assert (Hdiv_s : sq / 3600 == sq * (1 # 3600)) by (unfold Qdiv; reflexivity).
  rewrite Hdiv_m, Hdiv_s in Htotal.
  change (Pos.pow 2 47) with 140737488355328%positive in *.
  change (Pos.pow 2 52) with 4503599627370496%positive in *.
  set (un := 1 # Pos.pow 2 n) in *.
  destruct (below_plus_unit b1 (SF2Q w + SF2Q a1) (C + 2) (Zpos n) Rb1)
    as [Nb1 Ub1]; [| lia | nia |].
  { split; [lra|]. rewrite inject_Z_plus. change (inject_Z 2) with 2. lra. }
  change (- Zpos n)%Z with (Zneg n) in Ub1. rewrite dyadic_unit in Ub1.
  change (inject_Z 1) with 1 in Ub1. fold un in Ub1.
  (* the total *)
  apply fadd_below; [exact Nb1 | exact Na2 | |].
  - apply (grid_point_plus C 3 (Zpos n)); [exact HC | lia | lia | nia].
  - rewrite dyadic_unit. change (inject_Z 3) with 3. fold un. lra.
Qed.

(** The last place of a binary64 number near 360, and near 90. *)
Definition ulp_360 : Q := 1 # 17592186044416.
Definition ulp_90 : Q := 1 # 70368744177664.

Lemma rounds_ge (q : Q) (f : spec_float) (C : Z) :
  rounds q f -> q <= inject_Z C -> (0 <= C < 2 ^ 53)%Z -> SF2Q f <= inject_Z C.
Proof.
  intros Rf Hq HC. now destruct (Rf (inject_Z C) (grid_point_int C HC) Hq).
Qed.

(** Hours whose exact total is at most 24 come out, scaled by 15, at
    most three units in the last place above 360. *)
Lemma hours_in_range (h m s : spec_float) (hq mq sq : Q) :
  rounds hq h -> rounds mq m -> rounds sq s ->
  0 <= hq <= 24 -> 0 <= mq < 60 -> 0 <= sq < 60 ->
  hq + mq / 60 + sq / 3600 <= 24 ->
  num_between 0 (360 + 3 * ulp_360)
    (PFloat (fmul (sexagesimal_value h m s) (float_of_int 15))).
Proof.
  intros Rh Rm Rs [Hh0 Hh] [Hm0 Hm] [Hs0 Hs] Htotal.
  assert (Ht : below (sexagesimal_value h m s)
                 (inject_Z 24 + dyadic 3 (Zneg 48))).
  { apply (sexagesimal_below h m s hq mq sq 24 48); try assumption;
      try (split; lra); try lia; try reflexivity.
    unfold Qle. cbn. lia. }
  destruct Ht as [Nt Ut].
  assert (Hr : below (fmul (sexagesimal_value h m s) (float_of_int 15))
                 (inject_Z 360 + dyadic 3 (Zneg 44))).
  { rewrite float_of_int_15. apply fmul_below; [exact Nt | exact I | |].
    - apply (grid_point_plus 360 3 44); lia.
    - assert (E : SF2Q (S754_finite false 8444249301319680 (-49)) == 15)
        by reflexivity.
      rewrite E. rewrite dyadic_unit in Ut |- *.
      change (inject_Z 3) with 3 in *. change (inject_Z 24) with 24 in *.
      change (inject_Z 360) with 360.
      change (Pos.pow 2 48) with 281474976710656%positive in Ut.
      change (Pos.pow 2 44) with 17592186044416%positive. lra. }
  destruct Hr as [Nr Ur]. unfold num_between.
  split; [now apply nonneg_finite|]. split; [now apply nonneg_value|].
  eapply Qle_trans; [exact Ur|]. rewrite dyadic_unit. unfold ulp_360.
  change (inject_Z 3) with 3. change (inject_Z 360) with 360.
  change (Pos.pow 2 44) with 17592186044416%positive. lra.
Qed.

(** Degrees whose exact total is at most 90 come out, with the sign,
    at most three units in the last place beyond 90, on the side of
    the sign. *)
Lemma degrees_in_range (negative : bool) (d m s : spec_float) (dq mq sq : Q) :
  rounds dq d -> rounds mq m -> rounds sq s ->
  0 <= dq <= 90 -> 0 <= mq < 60 -> 0 <= sq < 60 ->
  dq + mq / 60 + sq / 3600 <= 90 ->
  num_between (if negative then - (90 + 3 * ulp_90) else 0)
              (if negative then 0 else 90 + 3 * ulp_90)
    (PFloat (fmul (float_of_int (if negative then -1 else 1))
                  (sexagesimal_value d m s))).
Proof.
  intros Rd Rm Rs [Hd0 Hd] [Hm0 Hm] [Hs0 Hs] Htotal.
  assert (Ht : below (sexagesimal_value d m s)
                 (inject_Z 90 + dyadic 3 (Zneg 46))).
  { apply (sexagesimal_below d m s dq mq sq 90 46); try assumption;
      try (split; lra); try lia; try reflexivity.
    unfold Qle. cbn. lia. }
  destruct Ht as [Nt Ut].
  assert (HB : inject_Z 90 + dyadic 3 (Zneg 46) == 90 + 3 * ulp_90).
  { rewrite dyadic_unit. unfold ulp_90. reflexivity. }
  rewrite HB in Ut.
  rewrite float_of_int_sign. unfold num_between.
  destruct (sexagesimal_value d m s) as [st|st| |[|] mt et];
    cbn in Nt; try tauto.
  - cbn. split; [reflexivity|]. unfold ulp_90. destruct negative; split; q_compare.
  - cbn [SF2Q] in Ut. unfold fmul, SFmul. rewrite xorb_false_r.
    destruct (rounded_magnitude negative
                (Zpos (4503599627370496 * mt)) (-52 + et) loc_Exact
                (inject_Z 90 + dyadic 3 (Zneg 46)))
      as [-> | (m' & e' & -> & Hle)].
    + lia.
    + apply (grid_point_plus 90 3 46); lia.
    + now left.
    + rewrite Pos2Z.inj_mul, dyadic_mul.
      assert (E : dyadic 4503599627370496 (-52) == 1) by reflexivity.
      rewrite E, HB. lra.
    + intros _. reflexivity.
    + cbn. split; [reflexivity|]. unfold ulp_90. destruct negative; split; q_compare.
    + rewrite HB in Hle. pose proof (dyadic_pos m' e').
      cbn. split; [reflexivity|]. destruct negative; lra.
Qed.

(** A numeral between blanks is a part that the parser keeps. *)
Lemma is_token_numeral (marks : list char) (t : str) :
  forallb (fun c => negb (py_isspace c) && negb (existsb (N.eqb c) marks))
          numeral_alphabet = true ->
  numeral_text t -> is_token marks t = true.
Proof.
  intros Hmarks [Hne Ht]. unfold is_token.
  destruct t as [|c t]; [congruence|].
  now apply numeral_text_forallb.
Qed.

Lemma numeral_rounds (t : str) (q : Q) :
  numeral_value t = Some q ->
  numeral_text t /\ 0 <= q /\ exists f, py_float t = inr f /\ rounds q f.
Proof.
  intros Hq. destruct (py_float_numeral t q Hq) as (Ht & mant & e10 & Hm & -> & Hf).
  split; [exact Ht|]. split.
  - apply Qmult_le_0_compat; [now rewrite <- (Zle_Qle 0) |].
    apply Qlt_le_weak, Qpower_0_lt. reflexivity.
  - exists (float_of_decimal false mant e10). split; [exact Hf|].
    intros B HB HqB. now apply float_of_decimal_below.
Qed.

(** C3, amended.  On a string "HHh MMm SSs" whose three parts are
    decimal numerals separated by white space, [ra_to_degrees] prints
    nothing and returns the binary64 value of [(h + m/60 + s/3600) *
    15] for the three numbers as [float] reads them.  When the
    numerals are valid (hours in [[0, 24]], minutes and seconds in
    [[0, 60)], exact total at most 24 hours) the result is finite, not
    negative, and at most three units in the last place above 360. *)
Theorem ra_to_degrees_in_range (H M S ws1 ws2 : str) (hq mq sq : Q) :
  is_blank ws1 = true -> is_blank ws2 = true ->
  numeral_value H = Some hq -> numeral_value M = Some mq ->
  numeral_value S = Some sq ->
  exists h m s,
    py_float H = inr h /\ py_float M = inr m /\ py_float S = inr s
    /\ ra_to_degrees
         (VStr (H ++ u "h" ++ ws1 ++ M ++ u "m" ++ ws2 ++ S ++ u "s"))
       = (PFloat (fmul (sexagesimal_value h m s) (float_of_int 15)), [])
    /\ (0 <= hq <= 24 -> 0 <= mq < 60 -> 0 <= sq < 60 ->
        hq + mq / 60 + sq / 3600 <= 24 ->
        num_between 0 (360 + 3 * ulp_360)
          (PFloat (fmul (sexagesimal_value h m s) (float_of_int 15)))).
Proof.
  intros H1 H2 Hh Hm Hs.
  destruct (numeral_rounds H hq Hh) as (TH & _ & h & Fh & Rh).
  destruct (numeral_rounds M mq Hm) as (TM & _ & m & Fm & Rm).
  destruct (numeral_rounds S sq Hs) as (TS & _ & s & Fs & Rs).
  exists h, m, s. repeat (split; [assumption|]). split.
  - apply ra_to_degrees_formatted; try assumption;
      now apply is_token_numeral.
  - intros Vh Vm Vs Vt. now apply (hours_in_range h m s hq mq sq).
Qed.

(** C2, amended.  On a string "+DD° MM′ SS″" (the sign optional, an
    ASCII or a Unicode minus for a negative value, the three parts
    decimal numerals separated by white space) [dec_to_degrees] prints
    nothing and returns the sign times the binary64 value of [d + m/60
    + s/3600] for the three numbers as [float] reads them.  When the
    numerals are valid (degrees in [[0, 90]], minutes and seconds in
    [[0, 60)], exact total at most 90) the result is finite, at most 0
    under a minus sign and at least 0 otherwise, and its magnitude is
    at most three units in the last place above 90. *)
Theorem dec_to_degrees_in_range (sgn D M S ws1 ws2 : str) (dq mq sq : Q) :
  is_sign_prefix sgn = true -> unsigned D = true ->
  is_blank ws1 = true -> is_blank ws2 = true ->
  numeral_value D = Some dq -> numeral_value M = Some mq ->
  numeral_value S = Some sq ->
  exists d m s,
    py_float D = inr d /\ py_float M = inr m /\ py_float S = inr s
    /\ dec_to_degrees
         (VStr (sgn ++ D ++ [degree_sign] ++ ws1 ++ M ++ [prime] ++ ws2 ++ S
                ++ [double_prime]))
       = (PFloat (fmul (float_of_int (if is_negative sgn then -1 else 1))
                       (sexagesimal_value d m s)), [])
    /\ (0 <= dq <= 90 -> 0 <= mq < 60 -> 0 <= sq < 60 ->
        dq + mq / 60 + sq / 3600 <= 90 ->
        num_between (if is_negative sgn then - (90 + 3 * ulp_90) else 0)
                    (if is_negative sgn then 0 else 90 + 3 * ulp_90)
          (PFloat (fmul (float_of_int (if is_negative sgn then -1 else 1))
                        (sexagesimal_value d m s)))).
Proof.
  intros Hsgn HU H1 H2 Hd Hm Hs.
  destruct (numeral_rounds D dq Hd) as (TD & _ & d & Fd & Rd).
  destruct (numeral_rounds M mq Hm) as (TM & _ & m & Fm & Rm).
  destruct (numeral_rounds S sq Hs) as (TS & _ & s & Fs & Rs).
  exists d, m, s. repeat (split; [assumption|]). split.
  - apply dec_to_degrees_formatted; try assumption;
      now apply is_token_numeral.
  - intros Vd Vm Vs Vt.
    now apply (degrees_in_range (is_negative sgn) d m s dq mq sq).
Qed.

Lemma ra_to_degrees_in_range_witness :
  num_between 0 (360 + 3 * ulp_360)
    (fst (ra_to_degrees (VStr (u "23h 59.99999999999435m 0.000000000339s")))).
Proof.
  destruct (ra_to_degrees_in_range
              (u "23") (u "59.99999999999435") (u "0.000000000339")
              (u " ") (u " ") 23 59.99999999999435 0.000000000339)
    as (h & m & s & _ & _ & _ & Heq & Hrange);
    try reflexivity.
  change (u "23" ++ u "h" ++ u " " ++ u "59.99999999999435" ++ u "m" ++ u " "
          ++ u "0.000000000339" ++ u "s")
    with (u "23h 59.99999999999435m 0.000000000339s") in Heq.
  rewrite Heq.
  apply Hrange; [split; q_compare | split; q_compare | split; q_compare | q_compare].
Defined.

Lemma dec_to_degrees_in_range_witness :
  num_between (- (90 + 3 * ulp_90)) 0
    (fst (dec_to_degrees
            (VStr (u "−89° 59.99999999999275′ 0.000000000435″")))).
Proof.
  destruct (dec_to_degrees_in_range
              [minus_sign] (u "89") (u "59.99999999999275")
              (u "0.000000000435") (u " ") (u " ")
              89 59.99999999999275 0.000000000435)
    as (d & m & s & _ & _ & _ & Heq & Hrange);
    try reflexivity.
  change ([minus_sign] ++ u "89" ++ [degree_sign] ++ u " "
          ++ u "59.99999999999275" ++ [prime] ++ u " " ++ u "0.000000000435"
          ++ [double_prime])
    with (u "−89° 59.99999999999275′ 0.000000000435″") in Heq.
  rewrite Heq.
  apply Hrange; [split; q_compare | split; q_compare | split; q_compare | q_compare].
Defined.

(** ** Coordinate strings as the specification describes them *)

(** Hours, minutes and seconds written with their letters; white space
    between the parts is allowed, not required. *)
Definition hms_notation (txt : str) (hq mq sq : Q) : Prop :=
  exists H M S ws1 ws2,
    txt = H ++ u "h" ++ ws1 ++ M ++ u "m" ++ ws2 ++ S ++ u "s"
    /\ forallb py_isspace ws1 = true /\ forallb py_isspace ws2 = true
    /\ numeral_value H = Some hq /\ numeral_value M = Some mq
    /\ numeral_value S = Some sq.

Definition valid_ra (txt : str) (hq mq sq : Q) : Prop :=
  hms_notation txt hq mq sq
  /\ 0 <= hq <= 24 /\ 0 <= mq < 60 /\ 0 <= sq < 60
  /\ hq + mq / 60 + sq / 3600 <= 24.

(** Degrees, minutes and seconds written with their signs after an
    optional sign of the value. *)
Definition dms_notation (txt : str) (dq mq sq : Q) : Prop :=
  exists sgn D M S ws1 ws2,
    txt = sgn ++ D ++ [degree_sign] ++ ws1 ++ M ++ [prime] ++ ws2 ++ S
          ++ [double_prime]
    /\ is_sign_prefix sgn = true
    /\ forallb py_isspace ws1 = true /\ forallb py_isspace ws2 = true
    /\ numeral_value D = Some dq /\ numeral_value M = Some mq
    /\ numeral_value S = Some sq.

Definition valid_dec (txt : str) (dq mq sq : Q) : Prop :=
  dms_notation txt dq mq sq
  /\ 0 <= dq <= 90 /\ 0 <= mq < 60 /\ 0 <= sq < 60
  /\ dq + mq / 60 + sq / 3600 <= 90.

(** C3 as stated fails.  "05h34m31.9s" is 5 h 34 min 31.9 s in
    hour-minute-second notation, yet without blanks the parser finds a
    single part, prints a warning and returns 0.  And on the valid
    string "23h 59.99999999999435m 0.000000000339s", whose exact total
    is 24 hours, binary64 rounding carries the result above 360. *)
Lemma ra_to_degrees_counterexample :
  (valid_ra (u "05h34m31.9s") 5 34 31.9
   /\ ra_to_degrees (VStr (u "05h34m31.9s"))
      = (PInt 0, [ErrorParsingRA (VStr (u "05h34m31.9s")) IndexError]))
  /\ (valid_ra (u "23h 59.99999999999435m 0.000000000339s")
        23 59.99999999999435 0.000000000339
      /\ exists f,
           ra_to_degrees (VStr (u "23h 59.99999999999435m 0.000000000339s"))
           = (PFloat f, [])
           /\ is_finite f = true /\ 360 < SF2Q f).
Proof.
  split; split.
  - split; [|repeat split; q_compare].
    exists (u "05"), (u "34"), (u "31.9"), [], [].
    repeat split; vm_compute; reflexivity.
  - vm_compute. reflexivity.
  - split; [|repeat split; q_compare].
    exists (u "23"), (u "59.99999999999435"), (u "0.000000000339"),
      (u " "), (u " ").
    repeat split; vm_compute; reflexivity.
  - eexists. split; [vm_compute; reflexivity|].
    split; [reflexivity | q_compare].
Qed.

(** C2 as stated fails.  "+22°00′52″" is +22° 0′ 52″ in
    degree-minute-second notation, yet without blanks the parser reads
    the single number 220052.  And on the valid string
    "89° 59.99999999999275′ 0.000000000435″", whose exact total is
    90 degrees, binary64 rounding carries the result above 90. *)
Lemma dec_to_degrees_counterexample :
  (valid_dec (u "+22°00′52″") 22 0 52
   /\ dec_to_degrees (VStr (u "+22°00′52″"))
      = (PFloat (f64 220052 0), [])
   /\ SF2Q (f64 220052 0) == 220052)
  /\ (valid_dec (u "89° 59.99999999999275′ 0.000000000435″")
        89 59.99999999999275 0.000000000435
      /\ exists f,
           dec_to_degrees (VStr (u "89° 59.99999999999275′ 0.000000000435″"))
           = (PFloat f, [])
           /\ is_finite f = true /\ 90 < SF2Q f).
Proof.
  split; split.
  - split; [|repeat split; q_compare].
    exists [plus_sign], (u "22"), (u "00"), (u "52"), [], [].
    repeat split; vm_compute; reflexivity.
  - split; vm_compute; reflexivity.
  - split; [|repeat split; q_compare].
    exists [], (u "89"), (u "59.99999999999275"), (u "0.000000000435"),
      (u " "), (u " ").
    repeat split; vm_compute; reflexivity.
  - eexists. split; [vm_compute; reflexivity|].
    split; [reflexivity | q_compare].
Qed.

(** ** Tables and the store *)

Lemma dict_get_set_column_same (cols : list (str * list pyval)) (name : str)
    (cells : list pyval) :
  dict_get (set_column cols name cells) name = Some cells.
Proof.
  induction cols as [|[k old] cols IH]; cbn [set_column dict_get].
  - now rewrite str_eqb_refl.
  - destruct (str_eqb k name) eqn:E; cbn [dict_get]; rewrite E; [reflexivity | exact IH].
Qed.

Lemma dict_get_set_column_other (cols : list (str * list pyval))
    (name other : str) (cells : list pyval) :
  other <> name ->
  dict_get (set_column cols name cells) other = dict_get cols other.
Proof.
  intros Hne. induction cols as [|[k old] cols IH]; cbn [set_column dict_get].
  - rewrite str_eqb_neq by congruence. reflexivity.
  - destruct (str_eqb k name) eqn:E; cbn [dict_get].
    + apply str_eqb_eq in E. subst k.
      now rewrite (str_eqb_neq name other) by congruence.
    + destruct (str_eqb k other); [reflexivity | exact IH].
Qed.

Lemma set_column_names (cols : list (str * list pyval)) (name x : str)
    (cells : list pyval) :
  In x (map fst (set_column cols name cells)) <-> In x (map fst cols) \/ x = name.
Proof.
  induction cols as [|[k old] cols IH]; cbn [set_column map fst In].
  - split; [intros [<- | []]; now right | intros [[] | ->]; now left].
  - destruct (str_eqb k name) eqn:E; cbn [map fst In].
    + apply str_eqb_eq in E. subst k. intuition congruence.
    + rewrite IH. tauto.
Qed.

Lemma deref_alloc_old (h : store) (df : DataFrame) (r : ref) :
  (r < length h)%nat -> deref (snd (alloc h df)) r = deref h r.
Proof. intros Hr. unfold deref, alloc. cbn [snd]. now apply nth_error_app1. Qed.

Lemma deref_assign_same (h : store) (r : ref) (df : DataFrame) :
  (r < length h)%nat -> deref (assign h r df) r = Some df.
Proof.
  revert r. induction h as [|x h IH]; intros r Hr; [cbn in Hr; lia|].
  destruct r as [|r]; [reflexivity|]. cbn in Hr |- *. apply IH. lia.
Qed.

Lemma deref_assign_other (h : store) (r r' : ref) (df : DataFrame) :
  r' <> r -> deref (assign h r df) r' = deref h r'.
Proof.
  revert r r'. induction h as [|x h IH]; intros r r' Hne; [now destruct r|].
  destruct r as [|r], r' as [|r']; try reflexivity; [congruence|].
  cbn. apply IH. congruence.
Qed.

Lemma assign_length (h : store) (r : ref) (df : DataFrame) :
  length (assign h r df) = length h.
Proof.
  revert r. induction h as [|x h IH]; intros r; [now destruct r|].
  destruct r; cbn; [reflexivity | now rewrite IH].
Qed.

Lemma float_part_is_float (parts : list str) (i : nat) (a : pynum) :
  float_part parts i = inr a -> exists f, a = PFloat f.
Proof.
  unfold float_part, index, bind, ret, raise.
  destruct (nth_error parts i); [|discriminate].
  destruct (py_float s); [discriminate|]. intros [= <-]. now eexists.
Qed.

Lemma sexagesimal_is_float (f : spec_float) (b c : pynum) :
  exists t, sexagesimal (PFloat f) b c = inr (PFloat t).
Proof.
  unfold sexagesimal, bind.
  destruct (py_truediv_const b 60%Z) as [m60 ->]; [lia|].
  destruct (py_truediv_const c 3600%Z) as [s3600 ->]; [lia|].
  cbn [py_add]. destruct m60; cbn [py_add]; destruct s3600; eexists; reflexivity.
Qed.

(** ** Derived coordinates and their valid ranges *)

(** What the two parsers return: the integer 0, or a binary64 number
    in canonical form. *)
Definition coordinate (x : pynum) : Prop :=
  match x with
  | PInt z => z = 0%Z
  | PFloat f => valid_binary prec emax f = true
  end.

Lemma scaled_total_shape (r0 r1 r2 : result pynum) (k : pynum -> pynum)
    (v : pynum) :
  (forall a, r0 = inr a -> exists f, a = PFloat f) ->
  (a <- r0 ;; b <- r1 ;; c <- r2 ;;
   total <- sexagesimal a b c ;; ret (k total)) = inr v ->
  exists t, v = k (PFloat t).
Proof.
  intros H0. unfold bind.
  destruct r0 as [e0|a]; [discriminate|]. destruct (H0 a eq_refl) as [f ->].
  destruct r1 as [e1|b]; [discriminate|].
  destruct r2 as [e2|c]; [discriminate|].
  destruct (sexagesimal_is_float f b c) as [t ->]. intros [= <-]. now exists t.
Qed.

Lemma ra_to_degrees_coordinate (c : pyval) : coordinate (fst (ra_to_degrees c)).
Proof.
  unfold ra_to_degrees. destruct (ra_try c) as [e|v] eqn:E; [reflexivity|].
  cbn [fst]. destruct c as [s|x|]; try discriminate. unfold ra_try in E.
  assert (Hv : exists t, v = py_mul (PFloat t) (PInt 15)).
  { destruct (py_contains (u "h") s && py_contains (u "m") s);
      apply scaled_total_shape in E; try exact E;
      intros a; apply float_part_is_float. }
  destruct Hv as [t ->]. cbn [py_mul to_float coordinate].
  rewrite float_of_int_15. apply fmul_valid_r. vm_compute. discriminate.
Qed.

Lemma dec_to_degrees_coordinate (c : pyval) : coordinate (fst (dec_to_degrees c)).
Proof.
  unfold dec_to_degrees. destruct (dec_try c) as [[e shown]|v] eqn:E;
    [reflexivity|].
  cbn [fst]. destruct c as [s|x|]; try discriminate. unfold dec_try in E.
  destruct (py_replace [double_quote] [] _) as [|c0 rest]; [discriminate|].
  match type of E with
  | match ?r with inl _ => _ | inr _ => _ end = _ =>
      destruct r as [e0|v0] eqn:E0; [discriminate|]
  end.
  injection E as <-.
  apply scaled_total_shape in E0; [|intros a; apply float_part_is_float].
  destruct E0 as [t ->].
  destruct (existsb (str_eqb [c0]) [[hyphen_minus]; [minus_sign]]);
    cbn [py_mul to_float coordinate].
  - rewrite (float_of_int_sign true : float_of_int (-1) = _).
    apply fmul_valid_l. vm_compute. discriminate.
  - rewrite (float_of_int_sign false : float_of_int 1 = _).
    apply fmul_valid_l. vm_compute. discriminate.
Qed.

(** A number that is finite and lies in [[lo, hi]], decided on its
    exact value. *)
Definition inside (lo hi : Z) (x : pynum) : bool :=
  match x with
  | PInt z => (lo <=? z)%Z && (z <=? hi)%Z
  | PFloat f =>
      is_finite f && Qle_bool (inject_Z lo) (SF2Q f)
      && Qle_bool (SF2Q f) (inject_Z hi)
  end.

Lemma inside_spec (lo hi : Z) (x : pynum) :
  inside lo hi x = true <-> num_between (inject_Z lo) (inject_Z hi) x.
Proof.
  destruct x as [z|f]; cbn [inside num_between].
  - rewrite andb_true_iff, !Z.leb_le, <- !Zle_Qle. tauto.
  - rewrite !andb_true_iff, !Qle_bool_iff. tauto.
Qed.

(** A row whose derived right ascension is outside [[0, 360]] or whose
    derived declination is outside [[-90, 90]]. *)
Definition out_of_range (ra dec : pynum) : bool :=
  negb (inside 0 360 ra && inside (-90) 90 dec).

Definition out_of_range_rows (ra_values dec_values : list pynum) : nat :=
  length (filter (fun p => out_of_range (fst p) (snd p))
                 (combine ra_values dec_values)).

(** One warning line that counts the rows out of range, and no line
    when there is none. *)
Definition range_warning (ra_values dec_values : list pynum) : list message :=
  match out_of_range_rows ra_values dec_values with
  | O => []
  | n => [InvalidCoordinates n]
  end.

(** The comparisons of the validity check decide the range of the
    value. *)
Lemma num_le_inside (lo hi : Z) (x : pynum) :
  valid_binary prec emax (float_of_int lo) = true ->
  valid_binary prec emax (float_of_int hi) = true ->
  is_finite (float_of_int lo) = true ->
  is_finite (float_of_int hi) = true ->
  SF2Q (float_of_int lo) == inject_Z lo ->
  SF2Q (float_of_int hi) == inject_Z hi ->
  (lo <= 0 <= hi)%Z ->
  coordinate x ->
  num_le (PInt lo) x && num_le x (PInt hi) = inside lo hi x.
Proof.
  intros Vlo Vhi Flo Fhi Qlo Qhi Hz Hx.
  unfold num_le. cbn [to_float].
  destruct x as [z|f]; cbn [coordinate to_float inside] in *.
  - subst z. change (float_of_int 0) with (S754_zero false).
    rewrite !SFleb_value by (reflexivity || assumption).
    rewrite (Qleb_comp _ _ Qlo _ _ (Qeq_refl _)).
    rewrite (Qleb_comp _ _ (Qeq_refl _) _ _ Qhi).
    cbn [SF2Q]. unfold Qle_bool. cbn. rewrite !Z.mul_1_r. reflexivity.
  - destruct f as [s|s| |s m e].
    + rewrite !SFleb_value by (reflexivity || assumption).
      rewrite (Qleb_comp _ _ Qlo _ _ (Qeq_refl _)).
      rewrite (Qleb_comp _ _ (Qeq_refl _) _ _ Qhi). reflexivity.
    + destruct (float_of_int lo) as [?|?| |? ? ?]; try discriminate;
        destruct (float_of_int hi) as [?|?| |? ? ?]; try discriminate;
        unfold SFleb; cbn; now destruct s.
    + destruct (float_of_int lo) as [?|?| |? ? ?]; try discriminate;
        unfold SFleb; cbn; reflexivity.
    + rewrite !SFleb_value by (reflexivity || assumption).
      rewrite (Qleb_comp _ _ Qlo _ _ (Qeq_refl _)).
      rewrite (Qleb_comp _ _ (Qeq_refl _) _ _ Qhi). reflexivity.
Qed.

Lemma valid_coord_inside (ra dec : pynum) :
  coordinate ra -> coordinate dec ->
  valid_coord (VNum ra) (VNum dec) = negb (out_of_range ra dec).
Proof.
  intros Hra Hdec. unfold valid_coord, out_of_range. cbn [cell_num].
  rewrite negb_involutive, <- !andb_assoc.
  rewrite (andb_assoc (num_le (PInt 0) ra)).
  rewrite (num_le_inside 0 360 ra)
    by (assumption || reflexivity || lia).
  f_equal. apply (num_le_inside (-90) 90 dec);
    assumption || reflexivity || lia.
Qed.

Lemma count_warning (bs : list bool) :
  (if forallb (fun b => b) bs then []
   else [InvalidCoordinates (length (filter negb bs))])
  = match length (filter negb bs) with
    | O => []
    | n => [InvalidCoordinates n]
    end.
Proof.
  induction bs as [|[|] bs IH]; cbn [forallb filter negb andb length];
    [reflexivity | exact IH | reflexivity].
Qed.

(** On derived columns the warning of the code is the warning for the
    rows out of range. *)
Lemma warning_is_range_warning (ra_values dec_values : list pynum) :
  Forall coordinate ra_values -> Forall coordinate dec_values ->
  (let valid_coords :=
     map (fun p => valid_coord (fst p) (snd p))
         (combine (map VNum ra_values) (map VNum dec_values)) in
   if forallb (fun b => b) valid_coords then []
   else [InvalidCoordinates (length (filter negb valid_coords))])
  = range_warning ra_values dec_values.
Proof.
  intros Hra Hdec. cbv zeta. rewrite count_warning.
  unfold range_warning, out_of_range_rows.
  replace (length
             (filter negb
                (map (fun p => valid_coord (fst p) (snd p))
                   (combine (map VNum ra_values) (map VNum dec_values)))))
    with (length
            (filter (fun p => out_of_range (fst p) (snd p))
               (combine ra_values dec_values))); [reflexivity|].
  revert dec_values Hdec.
  induction Hra as [|ra ras Hr _ IH]; intros dec_values Hdec; [reflexivity|].
  destruct Hdec as [|dec decs Hd Hdec]; [reflexivity|].
  cbn [map combine filter fst snd].
  rewrite (valid_coord_inside ra dec Hr Hd).
  destruct (out_of_range ra dec); cbn [negb length]; now rewrite IH.
Qed.

(** C9.  On a table that has the columns 'Right ascension' and
    'Declination', [process_coordinates] returns a new table: every
    table already in the store, the caller's included, is unchanged;
    the new table has the rows of the input, the two columns [ra_deg]
    and [dec_deg] with the parsed values, and every other column as it
    was.  A row whose derived right ascension is not a finite number
    in [[0, 360]] or whose derived declination is not a finite number
    in [[-90, 90]] stops nothing and is not removed: after the lines
    of the parsers the log holds one warning that counts these rows,
    and no warning when there are none. *)
Theorem process_coordinates_frame (h : store) (data : ref) (df : DataFrame)
    (ra_cells dec_cells : list pyval) :
  deref h data = Some df ->
  df_getitem df (u "Right ascension") = inr ra_cells ->
  df_getitem df (u "Declination") = inr dec_cells ->
  let ra_values := map (fun c => fst (ra_to_degrees c)) ra_cells in
  let dec_values := map (fun c => fst (dec_to_degrees c)) dec_cells in
  exists h' df',
    process_coordinates h data
    = (inr (length h), h',
       ProcessingCoordinates
       :: (flat_map (fun c => snd (ra_to_degrees c)) ra_cells
           ++ flat_map (fun c => snd (dec_to_degrees c)) dec_cells)
          ++ range_warning ra_values dec_values)
    /\ (forall r, (r < length h)%nat -> deref h' r = deref h r)
    /\ deref h' (length h) = Some df'
    /\ nrows df' = nrows df
    /\ df_getitem df' (u "ra_deg") = inr (map VNum ra_values)
    /\ df_getitem df' (u "dec_deg") = inr (map VNum dec_values)
    /\ (forall name, name <> u "ra_deg" -> name <> u "dec_deg" ->
        df_getitem df' name = df_getitem df name)
    /\ (forall name, In name (column_names df') <->
          In name (column_names df) \/ name = u "ra_deg" \/ name = u "dec_deg").
Proof.
  intros Hd Hra Hdec ra_values dec_values.
  set (ra_deg := map VNum ra_values). set (dec_deg := map VNum dec_values).
  assert (Era : map (fun c => VNum (fst (ra_to_degrees c))) ra_cells = ra_deg)
    by (unfold ra_deg, ra_values; now rewrite map_map).
  assert (Edec : map (fun c => VNum (fst (dec_to_degrees c))) dec_cells = dec_deg)
    by (unfold dec_deg, dec_values; now rewrite map_map).
  set (df1 := df_setitem df (u "ra_deg") ra_deg).
  set (df2 := df_setitem df1 (u "dec_deg") dec_deg).
  assert (Hdec1 : df_getitem df1 (u "Declination") = inr dec_cells).
  { unfold df_getitem, df1, df_setitem. cbn [columns].
    rewrite dict_get_set_column_other by (vm_compute; discriminate). exact Hdec. }
  assert (Hra2 : df_getitem df2 (u "ra_deg") = inr ra_deg).
  { unfold df_getitem, df2, df1, df_setitem. cbn [columns].
    rewrite dict_get_set_column_other by (vm_compute; discriminate).
    now rewrite dict_get_set_column_same. }
  assert (Hdec2 : df_getitem df2 (u "dec_deg") = inr dec_deg).
  { unfold df_getitem, df2, df_setitem. cbn [columns].
    now rewrite dict_get_set_column_same. }
  assert (Hwarn : (let valid_coords :=
                     map (fun p => valid_coord (fst p) (snd p))
                         (combine ra_deg dec_deg) in
                   if forallb (fun b => b) valid_coords then []
                   else [InvalidCoordinates (length (filter negb valid_coords))])
                  = range_warning ra_values dec_values).
  { apply warning_is_range_warning; unfold ra_values, dec_values;
      apply Forall_forall; intros x Hx; apply in_map_iff in Hx;
      destruct Hx as [c [<- _]];
      [apply ra_to_degrees_coordinate | apply dec_to_degrees_coordinate]. }
  exists (assign (assign (h ++ [df]) (length h) df1) (length h) df2), df2.
  split; [|split; [|split; [|split; [|split; [|split; [|split]]]]]].
  - unfold process_coordinates, alloc, apply_logged. rewrite Hd, Hra.
    rewrite Era. fold df1. rewrite Hdec1. rewrite Edec. fold df2.
    rewrite Hra2, Hdec2. cbv zeta in Hwarn |- *. rewrite Hwarn. reflexivity.
  - intros r Hr. rewrite !deref_assign_other by lia.
    unfold deref. now apply nth_error_app1.
  - apply deref_assign_same. rewrite assign_length, length_app. cbn. lia.
  - reflexivity.
  - exact Hra2.
  - exact Hdec2.
  - intros name H1 H2. unfold df_getitem, df2, df1, df_setitem. cbn [columns].
    now rewrite !dict_get_set_column_other by assumption.
  - intros name. unfold column_names, df2, df1, df_setitem. cbn [columns].
    rewrite !set_column_names. tauto.
Qed.

(** A table of four rows: the first is in range, the second has a
    right ascension of 25 hours, the third a declination that does not
    parse, the fourth a declination of -95 degrees. *)
Definition four_rows : DataFrame :=
  {| nrows := 4;
     columns :=
       [(u "Messier number",
         [VStr (u "M1"); VStr (u "X1"); VStr (u "X2"); VStr (u "X3")]);
        (u "Right ascension",
         [VStr (u "05h 34m 31.9s"); VStr (u "25h 00m 00s");
          VStr (u "12h 00m 00s"); VStr (u "12h 00m 00s")]);
        (u "Declination",
         [VStr (u "+22° 00′ 52″"); VStr (u "+10° 00′ 00″");
          VStr (u "north"); VStr (u "−95° 00′ 00″")])] |}.

Lemma process_coordinates_frame_witness :
  exists h' df',
    fst (fst (process_coordinates [four_rows] 0%nat)) = inr 1%nat
    /\ snd (fst (process_coordinates [four_rows] 0%nat)) = h'
    /\ snd (process_coordinates [four_rows] 0%nat)
       = [ProcessingCoordinates;
          ErrorParsingDec (VStr (u "north")) ValueError;
          InvalidCoordinates 2]
    /\ deref h' 0%nat = Some four_rows
    /\ deref h' 1%nat = Some df'
    /\ nrows df' = 4%nat.
Proof.
  edestruct (process_coordinates_frame [four_rows] 0%nat four_rows)
    as (h' & df' & Heq & Hold & Hnew & Hn & _);
    [reflexivity | reflexivity | reflexivity |].
  exists h', df'. rewrite Heq. cbn [fst snd].
  split; [reflexivity|]. split; [reflexivity|].
  split; [vm_compute; reflexivity|].
  split; [apply (Hold 0%nat); cbn; lia|].
  split; [exact Hnew | exact Hn].
Defined.

(** The embedded sample as a table. *)
Definition sample_frame : DataFrame :=
  {| nrows := 10%nat; columns := SAMPLE_MESSIER_DATA |}.

Lemma sample_is_a_frame : DataFrame_of_dict SAMPLE_MESSIER_DATA = inr sample_frame.
Proof. reflexivity. Qed.

(** ** Loading *)

Lemma simbad_loop_count (env : environment) (numbers : list nat) :
  snd (fst (simbad_loop env numbers)) = length (fst (fst (simbad_loop env numbers))).
Proof.
  induction numbers as [|i rest IH]; [reflexivity|].
  cbn [simbad_loop]. destruct (simbad_loop env rest) as [[objs n] log].
  cbn [fst snd] in IH. destruct (query_object env i); cbn [fst snd length]; congruence.
Qed.

Lemma load_messier_from_astropy_is_simbad (env : environment) :
  fst (load_messier_from_astropy env)
  = option_map Records (fst (load_messier_from_simbad env)).
Proof.
  unfold load_messier_from_astropy.
  destruct (astropy_imports env) as [e|[]].
  - destruct (load_messier_from_simbad env) as [r log]. reflexivity.
  - change (50 <? length (fst create_complete_messier_catalog))%nat with false.
    cbn [create_complete_messier_catalog].
    destruct (load_messier_from_simbad env) as [r log]. reflexivity.
Qed.

Lemma load_messier_from_simbad_not_empty (env : environment)
    (rows : list (dict pyval)) :
  fst (load_messier_from_simbad env) = Some rows -> rows <> [].
Proof.
  unfold load_messier_from_simbad.
  destruct (astroquery_imports env); [discriminate|].
  destruct (add_votable_fields env); [discriminate|].
  destruct (simbad_loop env (seq 1%nat 20%nat)) as [[objs n] log]. cbn [fst].
  destruct objs; [discriminate|]. intros [= <-]. discriminate.
Qed.

Definition default_csv_path (csv_path : option str) : str :=
  match csv_path with
  | None => u "Messier_data.csv"
  | Some p => p
  end.

(** C8, amended.  [load_messier_data] never raises, and takes the
    table from the first source available in this order: the external
    service, only when [use_astronomical_data] asks for it (its
    failures are tolerated, and what it gives is the SIMBAD list,
    which is never empty); then the data file, at the explicit path or
    at 'Messier_data.csv'; else the embedded sample, which is what a
    missing or unreadable file leads to. *)
Theorem load_messier_data_priority (env : environment) (csv_path : option str)
    (use_astronomical_data : bool) :
  fst (load_messier_data env csv_path use_astronomical_data)
  = inr (match
           (if use_astronomical_data
            then fst (load_messier_from_simbad env) else None)
         with
         | Some rows => Records rows
         | None =>
             match read_csv env (default_csv_path csv_path) with
             | inr data => Frame data
             | inl _ => Frame sample_frame
             end
         end)
  /\ (forall rows, fst (load_messier_from_simbad env) = Some rows -> rows <> []).
Proof.
  split; [|apply load_messier_from_simbad_not_empty].
  assert (Hfile : forall log,
    fst (let csv_path0 := default_csv_path csv_path in
         match read_csv env csv_path0 with
         | inr data =>
             (ret (Frame data), log ++ [LoadedFromCsv (nrows data) csv_path0])
         | inl FileNotFoundError =>
             let '(r, log') := use_sample (CsvNotFound csv_path0) in
             (r, log ++ log')
         | inl e =>
             let '(r, log') := use_sample (ErrorLoadingCsv e) in
             (r, log ++ log')
         end)
    = inr (match read_csv env (default_csv_path csv_path) with
           | inr data => Frame data
           | inl _ => Frame sample_frame
           end)).
  { intros log. cbv zeta.
    destruct (read_csv env (default_csv_path csv_path)) as [e|data];
      [|reflexivity].
    destruct e; reflexivity. }
  unfold load_messier_data. fold (default_csv_path csv_path).
  destruct use_astronomical_data; [|apply Hfile].
  pose proof (load_messier_from_astropy_is_simbad env) as Hastro.
  destruct (load_messier_from_astropy env) as [[t|] log]; cbn [fst] in Hastro.
  - destruct (fst (load_messier_from_simbad env)) as [rows|];
      [|discriminate]. cbn in Hastro. now injection Hastro as ->.
  - destruct (fst (load_messier_from_simbad env)) as [rows|];
      [discriminate|]. apply Hfile.
Qed.

(** An environment in which the file "my.csv" is readable and SIMBAD
    knows M1. *)
Definition file_frame : DataFrame :=
  {| nrows := 1%nat;
     columns := [ (u "Messier number", [vstr "M42"]);
                  (u "Right ascension", [vstr "05h 35m 17.3s"]);
                  (u "Declination", [vstr "-05° 23′ 13″"]) ] |}.

Definition both_sources : environment :=
  {| astropy_imports := inr tt;
     astroquery_imports := inr tt;
     add_votable_fields := inr tt;
     query_object := fun i =>
       if (i =? 1)%nat
       then ReplyRow (u "M   1") (Some (u "SNR")) (Some (u "05 34 31.94"))
                     (Some (u "+22 00 52.2"))
       else ReplyEmpty;
     read_csv := fun path =>
       if str_eqb path (u "my.csv") then inr file_frame
       else inl FileNotFoundError |}.

(** C8 as stated fails: with an explicit path to a readable file and
    the external service asked for, the table comes from the service,
    not from the file. *)
Lemma load_messier_data_counterexample :
  read_csv both_sources (u "my.csv") = inr file_frame
  /\ fst (load_messier_data both_sources (Some (u "my.csv")) true)
     = inr (Records [simbad_entry 1%nat (u "M   1") (Some (u "SNR"))
                       (Some (u "05 34 31.94")) (Some (u "+22 00 52.2"))])
  /\ fst (load_messier_data both_sources (Some (u "my.csv")) true)
     <> inr (Frame file_frame).
Proof.
  split; [reflexivity|]. split; [vm_compute; reflexivity|].
  vm_compute. discriminate.
Qed.

(** ** Further properties: styles *)

Lemma dict_get_In {V : Type} (d : dict V) (key : str) (v : V) :
  dict_get d key = Some v -> In (key, v) d.
Proof.
  induction d as [|[k x] d IH]; cbn [dict_get]; [discriminate|].
  destruct (str_eqb k key) eqn:E.
  - apply str_eqb_eq in E. intros [= ->]. subst. now left.
  - intros H. right. now apply IH.
Qed.

(** The precomputed table changes no style: for every label except the
    key 'Default' itself, the style of a trace is the one
    [get_object_style] computes; only the label "Default" gets the
    table's grey default entry instead. *)
Theorem trace_style_is_get_object_style :
  exists styles,
    OBJECT_STYLES = Some styles
    /\ (forall obj_type, obj_type <> u "Default" ->
        trace_style styles obj_type = get_object_style obj_type)
    /\ trace_style styles (u "Default") = Some default_style
    /\ get_object_style (u "Default") <> Some default_style.
Proof.
  eexists. split; [vm_compute; reflexivity|].
  split; [|split; [vm_compute; reflexivity | vm_compute; discriminate]].
  intros obj_type Hne. unfold trace_style.
  match goal with
  | |- match dict_get ?d _ with _ => _ end = _ =>
      destruct (dict_get d obj_type) as [st|] eqn:E; [|reflexivity]
  end.
  apply dict_get_In in E. cbn [In] in E.
  repeat (destruct E as [E|E];
          [injection E as <- <-;
           first [ vm_compute; reflexivity
                 | exfalso; apply Hne; vm_compute; reflexivity ]|]).
  destruct E.
Qed.

(** The marker symbols of each category. *)
Definition symbol_family (category : str) : list str :=
  if str_eqb category (u "Galaxy")
  then map u ["circle"; "circle-open"; "circle-dot"; "circle-cross";
              "circle-x"]%string
  else if str_eqb category (u "Nebula")
  then map u ["square"; "square-open"; "square-dot"; "square-cross"]%string
  else if str_eqb category (u "Cluster")
  then map u ["star"; "star-open"; "star-dot"]%string
  else map u ["diamond"; "diamond-open"]%string.

(** Every style stays inside its category's family of symbols.  In
    particular the entry 'supernova remnant' of the Nebula overrides
    (symbol triangle-up, colour #C66EC6) is never used: a label that
    lower-cases to it contains no Nebula keyword and is classified as
    Other. *)
Theorem get_object_style_symbol_family (obj_type : str) :
  exists st,
    get_object_style obj_type = Some st
    /\ In (symbol st) (symbol_family (category st))
    /\ symbol st <> u "triangle-up"
    /\ color st <> u "#C66EC6"
  /\ get_object_style (u "Supernova remnant")
     = Some {| symbol := u "diamond"; color := u "#FFEAA7"; size := 8;
               category := u "Other" |}.
Proof.
  assert (Hcases : forall x (P : option style -> Prop),
    (forall sym col, py_contains (u "galaxy") x = true ->
       dict_get (dict_get_default symbol_variations (u "Galaxy") []) x = sym ->
       dict_get (dict_get_default color_variations (u "Galaxy") []) x = col ->
       P (Some {| symbol := match sym with Some v => v | None => u "circle" end;
                  color := match col with Some v => v | None => u "#FF6B6B" end;
                  size := 8; category := u "Galaxy" |})) ->
    (forall sym col, py_contains (u "galaxy") x = false ->
       py_contains (u "nebula") x = true ->
       dict_get (dict_get_default symbol_variations (u "Nebula") []) x = sym ->
       dict_get (dict_get_default color_variations (u "Nebula") []) x = col ->
       P (Some {| symbol := match sym with Some v => v | None => u "square" end;
                  color := match col with Some v => v | None => u "#DDA0DD" end;
                  size := 8; category := u "Nebula" |})) ->
    (forall sym col, py_contains (u "galaxy") x = false ->
       py_contains (u "nebula") x = false ->
       dict_get (dict_get_default symbol_variations (u "Cluster") []) x = sym ->
       dict_get (dict_get_default color_variations (u "Cluster") []) x = col ->
       P (Some {| symbol := match sym with Some v => v | None => u "star" end;
                  color := match col with Some v => v | None => u "#96CEB4" end;
                  size := 8; category := u "Cluster" |})) ->
    (forall sym col, py_contains (u "galaxy") x = false ->
       py_contains (u "nebula") x = false ->
       dict_get (dict_get_default symbol_variations (u "Other") []) x = sym ->
       dict_get (dict_get_default color_variations (u "Other") []) x = col ->
       P (Some {| symbol := match sym with Some v => v | None => u "diamond" end;
                  color := match col with Some v => v | None => u "#FFEAA7" end;
                  size := 8; category := u "Other" |})) ->
    forall label, x = py_lower label -> P (get_object_style label)).
  { intros x P HG HN HC HO label ->. unfold get_object_style.
    rewrite classify_object_type_cases.
    destruct (py_contains (u "galaxy") (py_lower label)) eqn:Eg;
      [exact (HG _ _ eq_refl eq_refl eq_refl)|].
    destruct (py_contains (u "nebula") (py_lower label)) eqn:En;
      [exact (HN _ _ eq_refl eq_refl eq_refl eq_refl)|].
    destruct (py_contains (u "cluster") (py_lower label));
      [exact (HC _ _ eq_refl eq_refl eq_refl eq_refl)|].
    destruct (py_contains (u "cloud") (py_lower label));
      [exact (HC _ _ eq_refl eq_refl eq_refl eq_refl)|].
    exact (HO _ _ eq_refl eq_refl eq_refl eq_refl). }
  apply (Hcases (py_lower obj_type)
           (fun r => exists st, r = Some st
              /\ In (symbol st) (symbol_family (category st))
              /\ symbol st <> u "triangle-up" /\ color st <> u "#C66EC6"
              /\ get_object_style (u "Supernova remnant")
                 = Some {| symbol := u "diamond"; color := u "#FFEAA7";
                           size := 8; category := u "Other" |}));
    [| | | | reflexivity];
    generalize (py_lower obj_type); clear; intros x sym col.
  - intros _ Hs Hc. eexists. split; [reflexivity|].
    destruct sym as [v|]; [apply dict_get_In in Hs|];
    (destruct col as [w|]; [apply dict_get_In in Hc|]);
    vm_compute in Hs, Hc |- *; intuition congruence.
  - intros _ Hn Hs Hc. eexists. split; [reflexivity|].
    destruct sym as [v|]; [apply dict_get_In in Hs|];
    (destruct col as [w|]; [apply dict_get_In in Hc|]);
    vm_compute in Hs, Hc;
    repeat match goal with
           | H : _ \/ _ |- _ => destruct H as [H|H]
           | H : (_, _) = (_, _) |- _ => injection H as <- <-
           | H : False |- _ => destruct H
           end;
    try (vm_compute in Hn; discriminate Hn);
    vm_compute; intuition congruence.
  - intros _ _ Hs Hc. eexists. split; [reflexivity|].
    destruct sym as [v|]; [apply dict_get_In in Hs|];
    (destruct col as [w|]; [apply dict_get_In in Hc|]);
    vm_compute in Hs, Hc |- *; intuition congruence.
  - intros _ _ Hs Hc. eexists. split; [reflexivity|].
    destruct sym as [v|]; [apply dict_get_In in Hs|];
    (destruct col as [w|]; [apply dict_get_In in Hc|]);
    vm_compute in Hs, Hc |- *; intuition congruence.
Qed.

(** ** Further properties: the sign of a declination *)

(** [-x] *)
Definition py_neg (x : pynum) : pynum :=
  match x with
  | PInt z => PInt (- z)
  | PFloat f => PFloat (SFopp f)
  end.

Lemma binary_round_aux_opp (sx : bool) (M E : Z) (l : location) :
  binary_round_aux prec emax (negb sx) M E l
  = SFopp (binary_round_aux prec emax sx M E l).
Proof.
  unfold binary_round_aux.
  destruct (shr_fexp prec emax M E l) as [mrs' e'].
  destruct (shr_fexp prec emax _ e' loc_Exact) as [mrs'' e''].
  destruct (shr_m mrs''); [reflexivity | | reflexivity].
  destruct (e'' <=? emax - prec)%Z; reflexivity.
Qed.

Lemma fmul_opp_l (s : bool) (m : positive) (e : Z) (t : spec_float) :
  fmul (S754_finite (negb s) m e) t = SFopp (fmul (S754_finite s m e) t).
Proof.
  destruct t as [sy|sy| |sy my ey]; cbn [fmul SFmul SFopp].
  - now destruct s, sy.
  - now destruct s, sy.
  - reflexivity.
  - replace (xorb (negb s) sy) with (negb (xorb s sy)) by now destruct s, sy.
    apply binary_round_aux_opp.
Qed.

(** What the body of [dec_to_degrees] computes from the parts, for a
    given sign: the two signs give opposite values and fail alike. *)
Lemma signed_value_opposite (parts : list str) :
  match
    (degrees <- float_part parts 0 ;;
     minutes <- float_part_or_0 parts 1 ;;
     seconds <- float_part_or_0 parts 2 ;;
     total <- sexagesimal degrees minutes seconds ;;
     ret (py_mul (PInt 1) total)),
    (degrees <- float_part parts 0 ;;
     minutes <- float_part_or_0 parts 1 ;;
     seconds <- float_part_or_0 parts 2 ;;
     total <- sexagesimal degrees minutes seconds ;;
     ret (py_mul (PInt (-1)) total))
  with
  | inr plus, inr minus => minus = py_neg plus
  | inl e, inl e' => e = e'
  | _, _ => False
  end.
Proof.
  unfold bind.
  destruct (float_part parts 0) as [e|a] eqn:E0; [reflexivity|].
  destruct (float_part_is_float parts 0 a E0) as [f ->].
  destruct (float_part_or_0 parts 1) as [e|b]; [reflexivity|].
  destruct (float_part_or_0 parts 2) as [e|c]; [reflexivity|].
  destruct (sexagesimal_is_float f b c) as [t ->].
  cbn [bind ret py_mul py_neg to_float]. f_equal.
  rewrite (float_of_int_sign true
           : float_of_int (-1) = S754_finite true 4503599627370496 (-52)).
  rewrite (float_of_int_sign false
           : float_of_int 1 = S754_finite false 4503599627370496 (-52)).
  apply (fmul_opp_l false).
Qed.

(** For every text after the sign: an ASCII hyphen and a Unicode
    minus give the same result, and it is the opposite of the result
    under a plus sign, with the same warning when the text does not
    parse. *)
Theorem dec_to_degrees_sign_symmetry (body : str) :
  dec_to_degrees (VStr (hyphen_minus :: body))
  = dec_to_degrees (VStr (minus_sign :: body))
  /\ dec_to_degrees (VStr (minus_sign :: body))
     = (py_neg (fst (dec_to_degrees (VStr (plus_sign :: body)))),
        snd (dec_to_degrees (VStr (plus_sign :: body)))).
Proof.
  assert (Hstep : forall x,
    In x sign_chars ->
    dec_try (VStr (x :: body)) =
    match
      (degrees <- float_part
                    (py_split (py_lstrip sign_chars (remove_all dec_marks body))) 0 ;;
       minutes <- float_part_or_0
                    (py_split (py_lstrip sign_chars (remove_all dec_marks body))) 1 ;;
       seconds <- float_part_or_0
                    (py_split (py_lstrip sign_chars (remove_all dec_marks body))) 2 ;;
       total <- sexagesimal degrees minutes seconds ;;
       ret (py_mul (if (x =? plus_sign)%N then PInt 1 else PInt (-1)) total))
    with
    | inr v => inr v
    | inl e =>
        inl (e, VStr (py_lstrip sign_chars (remove_all dec_marks body)))
    end).
  { intros x Hx. unfold dec_try.
    change (py_replace [double_quote] []
              (py_replace [apostrophe] []
                 (py_replace [double_prime] []
                    (py_replace [prime] []
                       (py_replace [degree_sign] [] (x :: body))))))
      with (fold_left (fun acc c => py_replace [c] [] acc) dec_marks (x :: body)).
    rewrite replace_chain.
    change (x :: body) with ([x] ++ body). rewrite remove_all_app.
    cbn [In sign_chars] in Hx.
    destruct Hx as [<- | [<- | [<- | []]]]; reflexivity. }
  unfold dec_to_degrees.
  rewrite (Hstep hyphen_minus), (Hstep minus_sign), (Hstep plus_sign)
    by (cbn; tauto).
  change (hyphen_minus =? plus_sign)%N with false.
  change (minus_sign =? plus_sign)%N with false.
  change (plus_sign =? plus_sign)%N with true. cbv iota.
  split; [reflexivity|].
  pose proof (signed_value_opposite
                (py_split (py_lstrip sign_chars (remove_all dec_marks body))))
    as Hopp.
  destruct (degrees <- float_part _ 0 ;; _) as [e|plus];
    destruct (degrees <- float_part _ 0 ;; _) as [e'|minus];
    try contradiction.
  - now subst e'.
  - now subst minus.
Qed.

(** ** Further properties: right ascension without blanks, without letters *)

Lemma remove_all_no_space (marks : list char) (s : str) :
  forallb (fun c => negb (py_isspace c)) s = true ->
  forallb (fun c => negb (py_isspace c)) (remove_all marks s) = true.
Proof.
  unfold remove_all. induction s as [|x s IH]; [reflexivity|].
  cbn [forallb filter]. rewrite andb_true_iff. intros [Hx Hs].
  destruct (negb (existsb (N.eqb x) marks)); [cbn [forallb]; rewrite Hx|];
    now apply IH.
Qed.

Lemma split_no_space (s : str) :
  forallb (fun c => negb (py_isspace c)) s = true ->
  (length (py_split s) <= 1)%nat.
Proof.
  intros Hs. unfold py_split.
  rewrite <- (app_nil_r s), split_go_word by exact Hs.
  cbn [split_go]. destruct (rev s ++ []); cbn; lia.
Qed.

(** A right ascension written with its letters but without any white
    space ("05h34m31.9s") is never parsed: the parser finds at most
    one part, prints a warning and returns 0. *)
Theorem ra_to_degrees_without_blanks (s : str) :
  py_contains (u "h") s = true -> py_contains (u "m") s = true ->
  forallb (fun c => negb (py_isspace c)) s = true ->
  exists e,
    (e = IndexError \/ e = ValueError)
    /\ ra_to_degrees (VStr s) = (PInt 0, [ErrorParsingRA (VStr s) e]).
Proof.
  intros Hh Hm Hs. unfold ra_to_degrees, ra_try. rewrite Hh, Hm. cbn [andb].
  change (py_replace (u "s") []
            (py_replace (u "m") [] (py_replace (u "h") [] s)))
    with (fold_left (fun acc c => py_replace [c] [] acc) ra_marks s).
  rewrite replace_chain.
  pose proof (split_no_space (remove_all ra_marks s)
                (remove_all_no_space ra_marks s Hs)) as Hlen.
  set (parts := py_split (remove_all ra_marks s)) in *.
  unfold bind at 1.
  destruct (float_part parts 0) as [e|hours] eqn:E0.
  - exists e. split; [now apply (float_part_raises parts 0)|reflexivity].
  - exists IndexError. split; [now left|].
    assert (E1 : float_part parts 1 = inl IndexError).
    { unfold float_part, index, bind, raise.
      destruct (nth_error parts 1) eqn:En; [|reflexivity].
      assert (Hn : nth_error parts 1 <> None) by congruence.
      apply nth_error_Some in Hn. lia. }
    unfold bind. now rewrite E1.
Qed.

Lemma ra_to_degrees_without_blanks_witness :
  exists e,
    (e = IndexError \/ e = ValueError)
    /\ ra_to_degrees (VStr (u "05h34m31.9s"))
       = (PInt 0, [ErrorParsingRA (VStr (u "05h34m31.9s")) e]).
Proof.
  apply (ra_to_degrees_without_blanks (u "05h34m31.9s")); reflexivity.
Defined.

Lemma contains_char (c : char) (s : str) :
  py_contains [c] s = existsb (N.eqb c) s.
Proof.
  induction s as [|x s IH]; [reflexivity|].
  cbn [py_contains starts_with existsb]. now rewrite andb_true_r, IH.
Qed.

Lemma token_lacks_mark (c : char) (t : str) :
  is_token [c] t = true -> existsb (N.eqb c) t = false.
Proof.
  unfold is_token. destruct t as [|c0 t0]; [discriminate|].
  generalize (c0 :: t0). clear. intros t.
  induction t as [|x t IH]; [reflexivity|].
  cbn [forallb existsb]. rewrite !andb_true_iff, orb_false_r.
  intros [[_ Hx] Ht]. apply negb_true_iff in Hx.
  rewrite N.eqb_sym, Hx. now apply IH.
Qed.

Lemma blank_lacks_mark (c : char) (ws : str) :
  py_isspace c = false -> forallb py_isspace ws = true ->
  existsb (N.eqb c) ws = false.
Proof.
  intros Hc. induction ws as [|x ws IH]; [reflexivity|].
  cbn [forallb existsb]. rewrite andb_true_iff. intros [Hx Hws].
  destruct (c =? x)%N eqn:E.
  - apply N.eqb_eq in E. subst x. congruence.
  - now apply IH.
Qed.

(** A right ascension written as plain numbers without the letter h
    ("05 34 31.9", or decimal hours "5.5") goes through the fallback
    branch: hours, minutes and seconds are the parts in this order,
    and a lone number counts as hours with no minutes and no
    seconds. *)
Theorem ra_to_degrees_plain_numbers (a b c ws1 ws2 : str) (x y z : spec_float) :
  is_token [104%N] a = true -> is_token [104%N] b = true ->
  is_token [104%N] c = true ->
  is_blank ws1 = true -> is_blank ws2 = true ->
  py_float a = inr x -> py_float b = inr y -> py_float c = inr z ->
  ra_to_degrees (VStr (a ++ ws1 ++ b ++ ws2 ++ c))
  = (PFloat (fmul (sexagesimal_value x y z) (float_of_int 15)), [])
  /\ ra_to_degrees (VStr a)
     = (PFloat (fmul (fadd (fadd x (S754_zero false)) (S754_zero false))
                     (float_of_int 15)), []).
Proof.
  intros Ha Hb Hc H1 H2 Hx Hy Hz.
  destruct (is_blank_spaces ws1 H1) as [_ Hsp1].
  destruct (is_blank_spaces ws2 H2) as [_ Hsp2].
  split.
  - unfold ra_to_degrees, ra_try.
    change (u "h") with [104%N]. rewrite contains_char, !existsb_app.
    rewrite token_lacks_mark by assumption.
    rewrite blank_lacks_mark by (assumption || reflexivity).
    rewrite token_lacks_mark by assumption.
    rewrite blank_lacks_mark by (assumption || reflexivity).
    rewrite token_lacks_mark by assumption.
    cbn [orb andb].
    rewrite (split_three [104%N]) by assumption.
    now rewrite (parse_three_floats a b c x y z
                   (fun total => py_mul total (PInt 15)) Hx Hy Hz).
  - unfold ra_to_degrees, ra_try.
    change (u "h") with [104%N]. rewrite contains_char.
    rewrite token_lacks_mark by assumption. cbn [andb].
    unfold py_split. rewrite (split_word_end [104%N]) by assumption.
    rewrite (float_part_at [a] 0 a x eq_refl Hx).
    reflexivity.
Qed.

Lemma ra_to_degrees_plain_numbers_witness :
  ra_to_degrees (VStr (u "05 34 31.9")) = (PFloat crab_ra, [])
  /\ ra_to_degrees (VStr (u "05")) = (PFloat (f64 75 0), []).
Proof.
  destruct (ra_to_degrees_plain_numbers
              (u "05") (u "34") (u "31.9") (u " ") (u " ")
              (f64 5 0) (f64 34 0) (f64 319 (-1)))
    as [H3 H1]; try (vm_compute; reflexivity).
  split.
  - change (u "05" ++ u " " ++ u "34" ++ u " " ++ u "31.9")
      with (u "05 34 31.9") in H3.
    rewrite H3. vm_compute. reflexivity.
  - rewrite H1. vm_compute. reflexivity.
Defined.

(** ** Further properties: [process_coordinates] *)

(** The table that [process_coordinates] builds from [df]. *)
Definition with_coordinates (df : DataFrame) (ra_cells dec_cells : list pyval)
  : DataFrame :=
  df_setitem
    (df_setitem df (u "ra_deg")
       (map (fun c => VNum (fst (ra_to_degrees c))) ra_cells))
    (u "dec_deg")
    (map (fun c => VNum (fst (dec_to_degrees c))) dec_cells).

Lemma process_coordinates_run (h : store) (data : ref) (df : DataFrame)
    (ra_cells dec_cells : list pyval) :
  deref h data = Some df ->
  df_getitem df (u "Right ascension") = inr ra_cells ->
  df_getitem df (u "Declination") = inr dec_cells ->
  fst (process_coordinates h data)
  = (inr (length h),
     assign (assign (h ++ [df]) (length h)
               (df_setitem df (u "ra_deg")
                  (map (fun c => VNum (fst (ra_to_degrees c))) ra_cells)))
            (length h) (with_coordinates df ra_cells dec_cells)).
Proof.
  intros Hd Hra Hdec.
  set (ra_deg := map (fun c => VNum (fst (ra_to_degrees c))) ra_cells).
  set (dec_deg := map (fun c => VNum (fst (dec_to_degrees c))) dec_cells).
  set (df1 := df_setitem df (u "ra_deg") ra_deg).
  assert (Hdec1 : df_getitem df1 (u "Declination") = inr dec_cells).
  { unfold df_getitem, df1, df_setitem. cbn [columns].
    rewrite dict_get_set_column_other by (vm_compute; discriminate). exact Hdec. }
  assert (Hra2 : df_getitem (with_coordinates df ra_cells dec_cells) (u "ra_deg")
                 = inr ra_deg).
  { unfold df_getitem, with_coordinates, df_setitem. cbn [columns].
    rewrite dict_get_set_column_other by (vm_compute; discriminate).
    now rewrite dict_get_set_column_same. }
  assert (Hdec2 : df_getitem (with_coordinates df ra_cells dec_cells) (u "dec_deg")
                  = inr dec_deg).
  { unfold df_getitem, with_coordinates, df_setitem. cbn [columns].
    now rewrite dict_get_set_column_same. }
  unfold process_coordinates, alloc, apply_logged. rewrite Hd, Hra.
  fold ra_deg. fold df1. rewrite Hdec1. fold dec_deg.
  fold (with_coordinates df ra_cells dec_cells) in *.
  change (df_setitem df1 (u "dec_deg") dec_deg)
    with (with_coordinates df ra_cells dec_cells).
  rewrite Hra2, Hdec2. reflexivity.
Qed.

Lemma set_column_same (cols : list (str * list pyval)) (name : str)
    (cells : list pyval) :
  dict_get cols name = Some cells -> set_column cols name cells = cols.
Proof.
  induction cols as [|[k old] cols IH]; cbn [dict_get set_column]; [discriminate|].
  destruct (str_eqb k name); [now intros [= ->]|].
  intros H. now rewrite IH.
Qed.

(** Running [process_coordinates] on its own output changes nothing:
    the second result is a new table equal to the first result. *)
Theorem process_coordinates_idempotent (h : store) (data : ref) (df : DataFrame)
    (ra_cells dec_cells : list pyval) :
  deref h data = Some df ->
  df_getitem df (u "Right ascension") = inr ra_cells ->
  df_getitem df (u "Declination") = inr dec_cells ->
  exists h1 h2,
    fst (process_coordinates h data) = (inr (length h), h1)
    /\ fst (process_coordinates h1 (length h)) = (inr (S (length h)), h2)
    /\ deref h2 (S (length h)) = deref h1 (length h)
    /\ deref h1 (length h) = Some (with_coordinates df ra_cells dec_cells).
Proof.
  intros Hd Hra Hdec.
  set (out := with_coordinates df ra_cells dec_cells).
  set (h1 := assign (assign (h ++ [df]) (length h)
                       (df_setitem df (u "ra_deg")
                          (map (fun c => VNum (fst (ra_to_degrees c))) ra_cells)))
                    (length h) out).
  assert (Hlen1 : length h1 = S (length h)).
  { unfold h1. rewrite !assign_length, length_app. cbn. lia. }
  assert (Hout : deref h1 (length h) = Some out).
  { unfold h1. apply deref_assign_same. rewrite assign_length, length_app. cbn. lia. }
  assert (Hra' : df_getitem out (u "Right ascension") = inr ra_cells).
  { unfold df_getitem, out, with_coordinates, df_setitem. cbn [columns].
    rewrite !dict_get_set_column_other by (vm_compute; discriminate). exact Hra. }
  assert (Hdec' : df_getitem out (u "Declination") = inr dec_cells).
  { unfold df_getitem, out, with_coordinates, df_setitem. cbn [columns].
    rewrite !dict_get_set_column_other by (vm_compute; discriminate). exact Hdec. }
  assert (Hfix : with_coordinates out ra_cells dec_cells = out).
  { unfold with_coordinates at 1. unfold df_setitem. cbn [nrows columns].
    assert (E1 : set_column (columns out) (u "ra_deg")
                   (map (fun c => VNum (fst (ra_to_degrees c))) ra_cells)
                 = columns out).
    { apply set_column_same. unfold out, with_coordinates, df_setitem.
      cbn [columns].
      rewrite dict_get_set_column_other by (vm_compute; discriminate).
      apply dict_get_set_column_same. }
    rewrite E1.
    assert (E2 : set_column (columns out) (u "dec_deg")
                   (map (fun c => VNum (fst (dec_to_degrees c))) dec_cells)
                 = columns out).
    { apply set_column_same. unfold out, with_coordinates, df_setitem.
      cbn [columns]. apply dict_get_set_column_same. }
    rewrite E2. reflexivity. }
  exists h1. eexists.
  split; [exact (process_coordinates_run h data df ra_cells dec_cells Hd Hra Hdec)|].
  split; [rewrite (process_coordinates_run h1 (length h) out ra_cells dec_cells
                     Hout Hra' Hdec'), Hlen1, Hfix; reflexivity|].
  split; [|exact Hout].
  rewrite Hout. apply deref_assign_same.
  rewrite assign_length, length_app. cbn. lia.
Qed.

Lemma process_coordinates_idempotent_witness :
  exists h1 h2,
    fst (process_coordinates [sample_frame] 0%nat) = (inr 1%nat, h1)
    /\ fst (process_coordinates h1 1%nat) = (inr 2%nat, h2)
    /\ deref h2 2%nat = deref h1 1%nat.
Proof.
  edestruct (process_coordinates_idempotent [sample_frame] 0%nat sample_frame)
    as (h1 & h2 & H1 & H2 & H3 & _);
    [reflexivity | reflexivity | reflexivity |].
  exists h1, h2. cbn [length] in H1, H2, H3. now repeat split.
Defined.

(** When the table lacks the column 'Right ascension',
    [process_coordinates] raises [KeyError] before it computes
    anything; when only 'Declination' is missing it raises [KeyError]
    after the right ascensions were parsed.  In both cases only the
    private copy was touched: every table of the store is as before. *)
Theorem process_coordinates_missing_column (h : store) (data : ref)
    (df : DataFrame) :
  deref h data = Some df ->
  (dict_get (columns df) (u "Right ascension") = None
   \/ dict_get (columns df) (u "Declination") = None) ->
  exists h' log,
    process_coordinates h data = (inl KeyError, h', log)
    /\ (forall r, (r < length h)%nat -> deref h' r = deref h r)
    /\ (dict_get (columns df) (u "Right ascension") = None ->
        log = [ProcessingCoordinates]).
Proof.
  intros Hd Hmissing. unfold process_coordinates, alloc. rewrite Hd.
  unfold df_getitem at 1.
  destruct (dict_get (columns df) (u "Right ascension")) as [ra_cells|] eqn:Era.
  - destruct Hmissing as [Hra|Hdec]; [discriminate|].
    cbn [ret]. unfold apply_logged.
    assert (Hdec1 : df_getitem
                      (df_setitem df (u "ra_deg")
                         (map (fun c => VNum (fst (ra_to_degrees c))) ra_cells))
                      (u "Declination") = inl KeyError).
    { unfold df_getitem, df_setitem. cbn [columns].
      rewrite dict_get_set_column_other by (vm_compute; discriminate).
      now rewrite Hdec. }
    rewrite Hdec1. eexists. eexists. split; [reflexivity|].
    split; [|discriminate].
    intros r Hr. rewrite deref_assign_other by lia.
    unfold deref. now apply nth_error_app1.
  - cbn [raise]. eexists. eexists. split; [reflexivity|].
    split; [|reflexivity].
    intros r Hr. unfold deref. now apply nth_error_app1.
Qed.

Lemma process_coordinates_missing_column_witness :
  exists h' log,
    process_coordinates [ {| nrows := 0%nat; columns := [] |} ] 0%nat
    = (inl KeyError, h', log).
Proof.
  edestruct (process_coordinates_missing_column
               [ {| nrows := 0%nat; columns := [] |} ] 0%nat
               {| nrows := 0%nat; columns := [] |})
    as (h' & log & H & _); [reflexivity | left; reflexivity |].
  exists h', log. exact H.
Defined.

Lemma set_column_well_formed (n : nat) (cols : list (str * list pyval))
    (name : str) (cells : list pyval) :
  Forall (fun c => length (snd c) = n) cols -> length cells = n ->
  Forall (fun c => length (snd c) = n) (set_column cols name cells).
Proof.
  intros Hcols Hcells. induction cols as [|[k old] cols IH]; cbn [set_column].
  - now repeat constructor.
  - inversion Hcols as [|? ? Hk Hrest]; subst.
    destruct (str_eqb k name); constructor; auto.
Qed.

(** [process_coordinates] keeps a table well formed: when every column
    of the input has one cell for each row, so has every column of the
    result, the two new ones included. *)
Theorem process_coordinates_well_formed (h : store) (data : ref)
    (df : DataFrame) (ra_cells dec_cells : list pyval) :
  deref h data = Some df ->
  df_getitem df (u "Right ascension") = inr ra_cells ->
  df_getitem df (u "Declination") = inr dec_cells ->
  well_formed df ->
  exists df',
    deref (snd (fst (process_coordinates h data))) (length h) = Some df'
    /\ well_formed df'
    /\ nrows df' = nrows df.
Proof.
  intros Hd Hra Hdec Hwf.
  exists (with_coordinates df ra_cells dec_cells).
  rewrite (process_coordinates_run h data df ra_cells dec_cells Hd Hra Hdec).
  cbn [snd]. split; [|split; [|reflexivity]].
  - apply deref_assign_same. rewrite assign_length, length_app. cbn. lia.
  - assert (Hlen : forall name cells,
              df_getitem df name = inr cells -> length cells = nrows df).
    { intros name cells. unfold df_getitem.
      destruct (dict_get (columns df) name) as [col|] eqn:E; [|discriminate].
      intros [= <-]. apply dict_get_In in E.
      unfold well_formed in Hwf. rewrite Forall_forall in Hwf.
      exact (Hwf _ E). }
    unfold well_formed, with_coordinates, df_setitem. cbn [nrows columns].
    apply set_column_well_formed; [apply set_column_well_formed|].
    + exact Hwf.
    + rewrite length_map. exact (Hlen _ _ Hra).
    + rewrite length_map. exact (Hlen _ _ Hdec).
Qed.

Lemma process_coordinates_well_formed_witness :
  exists df',
    deref (snd (fst (process_coordinates [sample_frame] 0%nat))) 1%nat = Some df'
    /\ well_formed df' /\ nrows df' = 10%nat.
Proof.
  edestruct (process_coordinates_well_formed [sample_frame] 0%nat sample_frame)
    as (df' & H1 & H2 & H3);
    [reflexivity | reflexivity | reflexivity | |].
  - unfold well_formed. cbn. repeat constructor.
  - exists df'. now repeat split.
Defined.

(** A coordinate that does not parse becomes 0, and 0 is inside both
    valid ranges: the validity check of [process_coordinates] never
    counts a cell that failed to parse, it only sees the other
    coordinate of the row. *)
Theorem parse_failures_pass_validation (ra dec : pyval) :
  (forall e, ra_try ra = inl e ->
     valid_coord (VNum (fst (ra_to_degrees ra))) (VNum (fst (dec_to_degrees dec)))
     = num_le (PInt (-90)) (fst (dec_to_degrees dec))
       && num_le (fst (dec_to_degrees dec)) (PInt 90))
  /\ (forall e shown, dec_try dec = inl (e, shown) ->
        valid_coord (VNum (fst (ra_to_degrees ra))) (VNum (fst (dec_to_degrees dec)))
        = num_le (PInt 0) (fst (ra_to_degrees ra))
          && num_le (fst (ra_to_degrees ra)) (PInt 360))
  /\ (forall e e' shown, ra_try ra = inl e -> dec_try dec = inl (e', shown) ->
        valid_coord (VNum (fst (ra_to_degrees ra))) (VNum (fst (dec_to_degrees dec)))
        = true).
Proof.
  unfold valid_coord, ra_to_degrees, dec_to_degrees. cbn [cell_num].
  split; [|split].
  - intros e ->. cbn [fst]. reflexivity.
  - intros e shown ->. cbn [fst].
    change (num_le (PInt (-90)) (PInt 0)) with true.
    change (num_le (PInt 0) (PInt 90)) with true.
    now rewrite !andb_true_r.
  - intros e e' shown -> ->. reflexivity.
Qed.

(** ** Further properties: the loaders *)

Definition answered (env : environment) (i : nat) : bool :=
  match query_object env i with
  | ReplyRow _ _ _ _ => true
  | _ => false
  end.

Lemma simbad_loop_labels (env : environment) (numbers : list nat) :
  map (fun r => dict_get r (u "Messier number"))
      (fst (fst (simbad_loop env numbers)))
  = map (fun i => Some (VStr (u "M" ++ decimal_of_nat i)))
        (filter (answered env) numbers).
Proof.
  induction numbers as [|i rest IH]; [reflexivity|].
  cbn [simbad_loop filter]. unfold answered at 1.
  destruct (simbad_loop env rest) as [[objs n] log]. cbn [fst] in IH.
  destruct (query_object env i); cbn [fst map]; [exact IH | exact IH|].
  f_equal. exact IH.
Qed.

(** With [use_astronomical_data] the built-in catalogue is never
    used: it has 20 entries and more than 50 are required, so
    [load_messier_from_astropy] always reports that failure and hands
    over to SIMBAD, and returns nothing when [astroquery] cannot be
    imported.  SIMBAD gives nothing unless some query for M1..M20 is
    answered; otherwise it gives one entry for each answered query, in
    ascending order, labelled with its Messier number. *)
Theorem astronomical_data_comes_from_simbad (env : environment) :
  fst (load_messier_from_astropy env)
  = option_map Records (fst (load_messier_from_simbad env))
  /\ (exists e, In (BuiltinCatalogFailed e) (snd (load_messier_from_astropy env)))
  /\ (forall e, astroquery_imports env = inl e ->
      fst (load_messier_from_astropy env) = None)
  /\ (forall rows, fst (load_messier_from_simbad env) = Some rows ->
      rows <> []
      /\ (length rows <= 20)%nat
      /\ map (fun r => dict_get r (u "Messier number")) rows
         = map (fun i => Some (VStr (u "M" ++ decimal_of_nat i)))
               (filter (answered env) (seq 1 20)))
  /\ (filter (answered env) (seq 1 20) = [] ->
      fst (load_messier_from_simbad env) = None).
Proof.
  split; [apply load_messier_from_astropy_is_simbad|].
  split; [|split; [|split]].
  - unfold load_messier_from_astropy.
    destruct (astropy_imports env) as [e|[]].
    + destruct (load_messier_from_simbad env) as [r log].
      exists e. cbn. tauto.
    + change (50 <? length (fst create_complete_messier_catalog))%nat with false.
      cbn [create_complete_messier_catalog].
      destruct (load_messier_from_simbad env) as [r log].
      exists OtherException. cbn. tauto.
  - intros e He. rewrite load_messier_from_astropy_is_simbad.
    unfold load_messier_from_simbad. now rewrite He.
  - intros rows. unfold load_messier_from_simbad.
    destruct (astroquery_imports env); [discriminate|].
    destruct (add_votable_fields env); [discriminate|].
    pose proof (simbad_loop_labels env (seq 1 20)) as Hlab.
    destruct (simbad_loop env (seq 1 20)) as [[objs n] log].
    cbn [fst] in Hlab |- *.
    destruct objs as [|o objs]; [discriminate|]. intros [= <-].
    split; [discriminate|]. split; [|exact Hlab].
    apply (f_equal (@length _)) in Hlab. rewrite !length_map in Hlab.
    rewrite Hlab.
    etransitivity; [apply filter_length_le|]. now rewrite length_seq.
  - intros Hnone. unfold load_messier_from_simbad.
    destruct (astroquery_imports env); [reflexivity|].
    destruct (add_votable_fields env); [reflexivity|].
    pose proof (simbad_loop_labels env (seq 1 20)) as Hlab.
    destruct (simbad_loop env (seq 1 20)) as [[objs n] log].
    cbn [fst] in Hlab |- *. rewrite Hnone in Hlab.
    destruct objs; [reflexivity | discriminate].
Qed.

(** ** Further properties: sorting and grouping of labels *)

Definition str_le (a b : str) : Prop := str_leb a b = true.

Lemma str_leb_cons (x y : char) (a b : str) :
  str_leb (x :: a) (y :: b) = true <->
  (x < y)%N \/ (x = y /\ str_leb a b = true).
Proof.
  cbn [str_leb]. destruct (x <? y)%N eqn:Hlt.
  - apply N.ltb_lt in Hlt. tauto.
  - apply N.ltb_ge in Hlt. destruct (x =? y)%N eqn:Heq.
    + apply N.eqb_eq in Heq. split; [tauto|]. intros [H|[_ H]]; [lia|exact H].
    + apply N.eqb_neq in Heq. split; [discriminate|].
      intros [H|[H _]]; [lia | contradiction].
Qed.

Lemma str_le_total (a b : str) : str_le a b \/ str_le b a.
Proof.
  unfold str_le. revert b. induction a as [|x a IH]; intros b; [now left|].
  destruct b as [|y b]; [now right|].
  rewrite !str_leb_cons. destruct (IH b) as [H|H];
    destruct (N.lt_trichotomy x y) as [L|[E|G]]; subst; tauto.
Qed.

Lemma str_le_antisym (a b : str) : str_le a b -> str_le b a -> a = b.
Proof.
  unfold str_le. revert b. induction a as [|x a IH]; intros b.
  - destruct b; [reflexivity | discriminate].
  - destruct b as [|y b]; [discriminate|].
    rewrite !str_leb_cons. intros [L|[-> H1]] [G|[E H2]]; try lia.
    f_equal. now apply IH.
Qed.

Lemma str_le_trans (a b c : str) : str_le a b -> str_le b c -> str_le a c.
Proof.
  unfold str_le. revert b c. induction a as [|x a IH]; intros b c; [reflexivity|].
  destruct b as [|y b]; [discriminate|]. destruct c as [|z c]; [discriminate|].
  rewrite !str_leb_cons. intros [L|[-> H1]] [G|[-> H2]].
  - left. lia.
  - now left.
  - now left.
  - right. split; [reflexivity|]. now apply (IH b).
Qed.

Lemma insert_sorted_perm (x : str) (l : list str) :
  Permutation (insert_sorted x l) (x :: l).
Proof.
  induction l as [|y l IH]; cbn [insert_sorted]; [reflexivity|].
  destruct (str_leb x y); [reflexivity|].
  rewrite IH. apply perm_swap.
Qed.

Lemma sorted_perm (l : list str) : Permutation (sorted l) l.
Proof.
  induction l as [|x l IH]; cbn [sorted fold_right]; [reflexivity|].
  fold (sorted l). now rewrite insert_sorted_perm, IH.
Qed.

Lemma insert_sorted_Sorted (x : str) (l : list str) :
  Sorted str_le l -> Sorted str_le (insert_sorted x l).
Proof.
  induction l as [|y l IH]; intros Hl; cbn [insert_sorted].
  - now repeat constructor.
  - destruct (str_leb x y) eqn:E.
    + constructor; [exact Hl | now constructor].
    + inversion Hl as [|? ? Hl' Hhd]; subst.
      assert (Hyx : str_le y x).
      { destruct (str_le_total x y) as [H|H]; [unfold str_le in H; congruence|exact H]. }
      constructor; [now apply IH|].
      destruct l as [|z l]; cbn [insert_sorted]; [now constructor|].
      destruct (str_leb x z); constructor; [exact Hyx|].
      now inversion Hhd.
Qed.

Lemma sorted_Sorted (l : list str) : StronglySorted str_le (sorted l).
Proof.
  apply Sorted_StronglySorted; [exact str_le_trans|].
  induction l as [|x l IH]; cbn [sorted fold_right]; [constructor|].
  now apply insert_sorted_Sorted.
Qed.

(** A list of strings has one sorted arrangement. *)
Lemma sorted_arrangement_unique (l1 l2 : list str) :
  StronglySorted str_le l1 -> StronglySorted str_le l2 ->
  Permutation l1 l2 -> l1 = l2.
Proof.
  revert l2. induction l1 as [|a l1 IH]; intros l2 H1 H2 Hp.
  - apply Permutation_nil in Hp. now subst.
  - destruct l2 as [|b l2];
      [apply Permutation_sym, Permutation_nil in Hp; discriminate|].
    inversion H1 as [|? ? H1' F1]; subst. inversion H2 as [|? ? H2' F2]; subst.
    rewrite Forall_forall in F1, F2.
    assert (Hab : a = b).
    { assert (Ia : In a (b :: l2)) by (apply (Permutation_in _ Hp); now left).
      assert (Ib : In b (a :: l1))
        by (apply (Permutation_in _ (Permutation_sym Hp)); now left).
      destruct Ia as [->|Ia]; [reflexivity|].
      destruct Ib as [->|Ib]; [reflexivity|].
      apply str_le_antisym; [now apply F1 | now apply F2]. }
    subst b. f_equal. apply IH; try assumption.
    now apply Permutation_cons_inv in Hp.
Qed.

Lemma sorted_of_permutation (l1 l2 : list str) :
  Permutation l1 l2 -> sorted l1 = sorted l2.
Proof.
  intros Hp. apply sorted_arrangement_unique; try apply sorted_Sorted.
  now rewrite !sorted_perm.
Qed.

Lemma unique_from_spec (seen l : list str) :
  NoDup (unique_from seen l)
  /\ forall x, In x (unique_from seen l) <-> In x l /\ ~ In x seen.
Proof.
  revert seen. induction l as [|y l IH]; intros seen; cbn [unique_from].
  - split; [constructor | cbn; tauto].
  - destruct (existsb (str_eqb y) seen) eqn:E.
    + destruct (IH seen) as [Hnd Hin]. split; [exact Hnd|].
      apply existsb_exists in E. destruct E as [z [Hz Hyz]].
      apply str_eqb_eq in Hyz. subst z.
      intros x. rewrite Hin. cbn [In]. split; [tauto|].
      intros [[->|H] Hn]; [contradiction | tauto].
    + destruct (IH (y :: seen)) as [Hnd Hin].
      assert (Hy : ~ In y seen).
      { intros Hy. assert (existsb (str_eqb y) seen = true); [|congruence].
        apply existsb_exists. exists y. split; [exact Hy | apply str_eqb_refl]. }
      split.
      * constructor; [|exact Hnd]. rewrite Hin. cbn [In]. tauto.
      * intros x. cbn [In]. rewrite Hin. cbn [In].
        destruct (list_eq_dec N.eq_dec y x) as [->|Hne]; tauto.
Qed.

Lemma dropna_In (cells : text_column) (x : str) :
  In x (dropna cells) <-> In (Some x) cells.
Proof.
  unfold dropna. rewrite in_flat_map. split.
  - intros [[s|] [Hc Hx]]; [|destruct Hx].
    destruct Hx as [->|[]]. exact Hc.
  - intros H. exists (Some x). split; [exact H | now left].
Qed.

(** The distinct values of a text column, sorted. *)
Lemma sorted_unique_spec (cells : text_column) :
  NoDup (sorted (unique (dropna cells)))
  /\ StronglySorted str_le (sorted (unique (dropna cells)))
  /\ forall x, In x (sorted (unique (dropna cells))) <-> In (Some x) cells.
Proof.
  destruct (unique_from_spec [] (dropna cells)) as [Hnd Hin].
  split; [|split].
  - apply (Permutation_NoDup (Permutation_sym (sorted_perm _))). exact Hnd.
  - apply sorted_Sorted.
  - intros x. rewrite <- dropna_In. split.
    + intros H. apply (Permutation_in _ (sorted_perm _)) in H.
      now apply Hin in H.
    + intros H. apply (Permutation_in _ (Permutation_sym (sorted_perm _))).
      apply Hin. cbn. tauto.
Qed.

(** The labels of [types] that [classify] puts into [c]. *)
Definition of_category (classify : str -> str) (c : str) (types : list str)
  : list str :=
  filter (fun t => str_eqb (classify t) c) types.

Lemma dict_get_dict_append (d : dict (list str)) (k c v : str) :
  dict_get (dict_append d k v) c
  = if str_eqb k c
    then Some (match dict_get d c with Some l => l ++ [v] | None => [v] end)
    else dict_get d c.
Proof.
  induction d as [|[k' l] d IH]; cbn [dict_append dict_get].
  - destruct (str_eqb k c); reflexivity.
  - destruct (str_eqb k' k) eqn:E1; cbn [dict_get].
    + apply str_eqb_eq in E1. subst k'. destruct (str_eqb k c); reflexivity.
    + destruct (str_eqb k' c) eqn:E2.
      * apply str_eqb_eq in E2. subst k'.
        destruct (str_eqb k c) eqn:E3; [|reflexivity].
        apply str_eqb_eq in E3. subst k. rewrite str_eqb_refl in E1. discriminate.
      * exact IH.
Qed.

Lemma categorize_from (classify : str -> str) (types : list str)
    (acc : dict (list str)) (c : str) :
  dict_get (fold_left (fun d t => dict_append d (classify t) t) types acc) c
  = match dict_get acc c, of_category classify c types with
    | Some l, found => Some (l ++ found)
    | None, [] => None
    | None, found => Some found
    end.
Proof.
  revert acc. induction types as [|t types IH]; intros acc; cbn [fold_left].
  - cbn. destruct (dict_get acc c); [now rewrite app_nil_r | reflexivity].
  - rewrite IH, dict_get_dict_append. unfold of_category. cbn [filter].
    destruct (str_eqb (classify t) c).
    + destruct (dict_get acc c); [now rewrite <- app_assoc | reflexivity].
    + reflexivity.
Qed.

(** After the grouping loop, a category is a key exactly when some
    label falls into it, and its list holds those labels in the order
    of the input. *)
Lemma categorize_get (classify : str -> str) (types : list str) (c : str) :
  dict_get (categorize classify types) c
  = match of_category classify c types with
    | [] => None
    | found => Some found
    end.
Proof. unfold categorize. now rewrite categorize_from. Qed.

Lemma in_category_order_groups (classify : str -> str) (types : list str) :
  in_category_order (categorize classify types)
  = flat_map (fun c => sorted (of_category classify c types)) category_order.
Proof.
  unfold in_category_order. apply flat_map_ext. intros c.
  rewrite categorize_get. now destruct (of_category classify c types).
Qed.

Lemma of_category_cons_perm (classify : str -> str) (cats : list str)
    (x : str) (types : list str) :
  NoDup cats -> In (classify x) cats ->
  Permutation (flat_map (fun c => of_category classify c (x :: types)) cats)
              (x :: flat_map (fun c => of_category classify c types) cats).
Proof.
  induction cats as [|c cats IH]; intros Hnd Hin; [destruct Hin|].
  inversion Hnd as [|? ? Hc Hnd']; subst.
  cbn [flat_map]. unfold of_category at 1. cbn [filter].
  fold (of_category classify c types).
  destruct (str_eqb (classify x) c) eqn:E.
  - apply str_eqb_eq in E. cbn [app]. constructor.
    apply Permutation_app_head.
    assert (Heq : forall c', In c' cats ->
              of_category classify c' (x :: types) = of_category classify c' types).
    { intros c' Hc'. unfold of_category. cbn [filter].
      rewrite str_eqb_neq; [reflexivity|]. intros H. subst. congruence. }
    clear -Heq. induction cats as [|c' cats IH]; [reflexivity|].
    cbn [flat_map]. rewrite Heq by now left.
    rewrite IH; [reflexivity|]. intros c'' H. apply Heq. now right.
  - destruct Hin as [Hin|Hin];
      [subst; rewrite str_eqb_refl in E; discriminate|].
    rewrite (IH Hnd' Hin). apply Permutation_sym, Permutation_middle.
Qed.

(** Splitting the labels by category and joining the groups gives the
    labels back, in some order. *)
Lemma of_category_partition (classify : str -> str) (cats : list str)
    (types : list str) :
  NoDup cats -> (forall t, In (classify t) cats) ->
  Permutation (flat_map (fun c => of_category classify c types) cats) types.
Proof.
  intros Hnd Hall. induction types as [|x types IH].
  - clear Hnd Hall. induction cats as [|c cats IHc]; [reflexivity|].
    cbn [flat_map of_category filter app]. exact IHc.
  - rewrite of_category_cons_perm by auto. now constructor.
Qed.

Lemma flat_map_perm {A B : Type} (f g : A -> list B) (l : list A) :
  (forall a, Permutation (f a) (g a)) ->
  Permutation (flat_map f l) (flat_map g l).
Proof.
  intros H. induction l as [|a l IH]; [reflexivity|].
  cbn [flat_map]. now apply Permutation_app.
Qed.

Lemma classify_local_cases (label : str) :
  classify_object_type_local label =
  if py_contains (u "galaxy") (py_lower label) then u "Galaxy"
  else if py_contains (u "nebula") (py_lower label) then u "Nebula"
  else if py_contains (u "cluster") (py_lower label) then u "Cluster"
  else if py_contains (u "cloud") (py_lower label) then u "Cluster"
  else u "Other".
Proof.
  unfold classify_object_type_local. cbv [existsb].
  destruct (py_contains (u "galaxy") (py_lower label)); [reflexivity|].
  destruct (py_contains (u "nebula") (py_lower label)); [reflexivity|].
  destruct (py_contains (u "cluster") (py_lower label)); [reflexivity|].
  destruct (py_contains (u "cloud") (py_lower label)); reflexivity.
Qed.

Lemma classify_local_in_order (label : str) :
  In (classify_object_type_local label) category_order.
Proof.
  rewrite classify_local_cases. unfold category_order.
  destruct (py_contains (u "galaxy") (py_lower label)); [cbn; tauto|].
  destruct (py_contains (u "nebula") (py_lower label)); [cbn; tauto|].
  destruct (py_contains (u "cluster") (py_lower label)); [cbn; tauto|].
  destruct (py_contains (u "cloud") (py_lower label)); cbn; tauto.
Qed.

Lemma category_order_NoDup : NoDup category_order.
Proof.
  unfold category_order.
  repeat (constructor; [cbn; intuition discriminate|]). constructor.
Qed.

Lemma classifiers_same_chain (label : str) :
  classify_object_type label = classify_object_type_local label.
Proof. now rewrite classify_object_type_cases, classify_local_cases. Qed.

Lemma filter_perm {A : Type} (f : A -> bool) (l l' : list A) :
  Permutation l l' -> Permutation (filter f l) (filter f l').
Proof.
  induction 1 as [|x l l' _ IH|x y l|l l' l'' _ IH1 _ IH2]; cbn [filter].
  - reflexivity.
  - destruct (f x); [now constructor | exact IH].
  - destruct (f x), (f y); try reflexivity. apply perm_swap.
  - now rewrite IH1.
Qed.

Lemma filter_StronglySorted (f : str -> bool) (l : list str) :
  StronglySorted str_le l -> StronglySorted str_le (filter f l).
Proof.
  induction 1 as [|x l Hl IH Hx]; cbn [filter]; [constructor|].
  destruct (f x); [|exact IH].
  constructor; [exact IH|].
  rewrite Forall_forall in *. intros y Hy. apply Hx.
  now apply filter_In in Hy.
Qed.

Lemma sorted_of_Sorted (l : list str) : StronglySorted str_le l -> sorted l = l.
Proof.
  intros Hl. apply sorted_arrangement_unique;
    [apply sorted_Sorted | exact Hl | apply sorted_perm].
Qed.

(** The labels of a text column that fall into category [c]: sorted,
    each once. *)
Definition group_of (classify : str -> str) (cells : text_column) (c : str)
    (l : list str) : Prop :=
  StronglySorted str_le l /\ NoDup l
  /\ forall x, In x l <-> In (Some x) cells /\ classify x = c.

Lemma group_of_unique (classify : str -> str) (cells : text_column) (c : str)
    (l1 l2 : list str) :
  group_of classify cells c l1 -> group_of classify cells c l2 -> l1 = l2.
Proof.
  intros (S1 & N1 & I1) (S2 & N2 & I2).
  apply sorted_arrangement_unique; try assumption.
  apply NoDup_Permutation; try assumption.
  intros x. now rewrite I1, I2.
Qed.

Lemma of_category_group (classify : str -> str) (cells : text_column) (c : str) :
  group_of classify cells c
    (of_category classify c (sorted (unique (dropna cells)))).
Proof.
  destruct (sorted_unique_spec cells) as (Hnd & Hs & Hin).
  unfold group_of, of_category. split; [|split].
  - now apply filter_StronglySorted.
  - now apply NoDup_filter.
  - intros x. rewrite filter_In, Hin, str_eqb_eq. tauto.
Qed.

Lemma sorted_group (classify : str -> str) (cells : text_column) (c : str) :
  sorted (of_category classify c (sorted (unique (dropna cells))))
  = of_category classify c (sorted (unique (dropna cells))).
Proof. apply sorted_of_Sorted, of_category_group. Qed.

(** ** Further properties: the filter options *)

(** The object types offered for filtering are four runs, the Galaxy
    labels, then the Nebula, the Cluster and the Other labels; each run
    holds the labels of the 'Object type' column that the local
    classifier puts into that category, every one once, in sorted
    order.  Missing cells give no label. *)
Theorem get_filter_options_object_types
    (object_type constellation best_viewing : text_column) :
  exists galaxies nebulae clusters others,
    object_types (get_filter_options object_type constellation best_viewing)
    = galaxies ++ nebulae ++ clusters ++ others
    /\ group_of classify_object_type_local object_type (u "Galaxy") galaxies
    /\ group_of classify_object_type_local object_type (u "Nebula") nebulae
    /\ group_of classify_object_type_local object_type (u "Cluster") clusters
    /\ group_of classify_object_type_local object_type (u "Other") others.
Proof.
  set (l := sorted (unique (dropna object_type))).
  exists (of_category classify_object_type_local (u "Galaxy") l),
         (of_category classify_object_type_local (u "Nebula") l),
         (of_category classify_object_type_local (u "Cluster") l),
         (of_category classify_object_type_local (u "Other") l).
  split.
  - unfold get_filter_options. cbn [object_types]. fold l.
    rewrite in_category_order_groups. unfold category_order, l.
    cbn [flat_map]. rewrite !sorted_group, app_nil_r. reflexivity.
  - split; [apply of_category_group|].
    split; [apply of_category_group|].
    split; apply of_category_group.
Qed.

Lemma object_types_perm
    (object_type constellation best_viewing : text_column) :
  Permutation
    (object_types (get_filter_options object_type constellation best_viewing))
    (sorted (unique (dropna object_type))).
Proof.
  unfold get_filter_options. cbn [object_types].
  rewrite in_category_order_groups.
  rewrite (flat_map_perm _
             (fun c => of_category classify_object_type_local c
                         (sorted (unique (dropna object_type)))))
    by (intros c; apply sorted_perm).
  apply of_category_partition;
    [apply category_order_NoDup | apply classify_local_in_order].
Qed.

Lemma object_types_In
    (object_type constellation best_viewing : text_column) (x : str) :
  In x (object_types (get_filter_options object_type constellation best_viewing))
  <-> In (Some x) object_type.
Proof.
  destruct (sorted_unique_spec object_type) as (_ & _ & Hin).
  pose proof (object_types_perm object_type constellation best_viewing) as Hp.
  rewrite <- Hin. split; apply Permutation_in;
    [exact Hp | exact (Permutation_sym Hp)].
Qed.

(** Every label of the 'Object type' column is offered exactly once:
    the offered object types are a rearrangement of the distinct
    non-missing values of the column. *)
Theorem get_filter_options_object_types_complete
    (object_type constellation best_viewing : text_column) :
  NoDup (object_types (get_filter_options object_type constellation best_viewing))
  /\ forall x,
       In x (object_types (get_filter_options object_type constellation best_viewing))
       <-> In (Some x) object_type.
Proof.
  destruct (sorted_unique_spec object_type) as (Hnd & _ & _).
  split.
  - apply (Permutation_NoDup
             (Permutation_sym
                (object_types_perm object_type constellation best_viewing))).
    exact Hnd.
  - apply object_types_In.
Qed.

(** The dictionary of object types by category has a key exactly for
    the categories that occur, and under it the sorted labels of that
    category: a category maps to [l] if and only if [l] is not empty
    and is the sorted list of the column's labels in that category. *)
Theorem get_filter_options_by_category
    (object_type constellation best_viewing : text_column)
    (c : str) (l : list str) :
  dict_get (object_types_by_category
              (get_filter_options object_type constellation best_viewing)) c
  = Some l
  <-> l <> [] /\ group_of classify_object_type_local object_type c l.
Proof.
  unfold get_filter_options. cbn [object_types_by_category].
  rewrite categorize_get.
  pose proof (of_category_group classify_object_type_local object_type c) as Hg.
  destruct (of_category classify_object_type_local c
              (sorted (unique (dropna object_type)))) as [|x found] eqn:E.
  - split; [discriminate|]. intros [Hne Hl].
    exfalso. apply Hne. exact (group_of_unique _ _ _ _ _ Hl Hg).
  - split.
    + intros [= <-]. split; [discriminate | exact Hg].
    + intros [_ Hl]. f_equal. exact (group_of_unique _ _ _ _ _ Hg Hl).
Qed.

(** The second loop of [get_filter_options] sorts lists that are
    sorted already: the offered object types are the lists of the
    dictionary, joined in the order Galaxy, Nebula, Cluster, Other. *)
Theorem get_filter_options_joins_categories
    (object_type constellation best_viewing : text_column) :
  object_types (get_filter_options object_type constellation best_viewing)
  = flat_map (fun category =>
                match dict_get (object_types_by_category
                                  (get_filter_options object_type constellation
                                                      best_viewing)) category with
                | Some l => l
                | None => []
                end)
             category_order.
Proof.
  unfold get_filter_options. cbn [object_types object_types_by_category].
  unfold in_category_order. apply flat_map_ext. intros c.
  rewrite categorize_get.
  pose proof (sorted_group classify_object_type_local object_type c) as Hs.
  destruct (of_category classify_object_type_local c
              (sorted (unique (dropna object_type)))); [reflexivity | exact Hs].
Qed.

(** The constellations and the seasons offered for filtering are the
    distinct non-missing values of their columns, in sorted order. *)
Theorem get_filter_options_constellations_seasons
    (object_type constellation best_viewing : text_column) :
  let options := get_filter_options object_type constellation best_viewing in
  (StronglySorted str_le (constellations options)
   /\ NoDup (constellations options)
   /\ forall x, In x (constellations options) <-> In (Some x) constellation)
  /\ (StronglySorted str_le (seasons options)
      /\ NoDup (seasons options)
      /\ forall x, In x (seasons options) <-> In (Some x) best_viewing).
Proof.
  cbn. split.
  - destruct (sorted_unique_spec constellation) as (H1 & H2 & H3). auto.
  - destruct (sorted_unique_spec best_viewing) as (H1 & H2 & H3). auto.
Qed.

(** The chart adds its traces in the order in which the filter lists
    the object types: [_add_messier_objects], which groups the labels
    in order of appearance with [classify_object_type], and
    [get_filter_options], which groups the sorted labels with its own
    classifier, arrive at the same list. *)
Theorem trace_order_is_object_types
    (object_type constellation best_viewing : text_column) :
  trace_order object_type
  = object_types (get_filter_options object_type constellation best_viewing).
Proof.
  unfold trace_order, get_filter_options. cbn [object_types].
  rewrite !in_category_order_groups. apply flat_map_ext. intros c.
  apply sorted_of_permutation. unfold of_category.
  rewrite (filter_ext (fun t => str_eqb (classify_object_type t) c)
                      (fun t => str_eqb (classify_object_type_local t) c))
    by (intros t; now rewrite classifiers_same_chain).
  apply filter_perm, Permutation_sym, sorted_perm.
Qed.

(** ** Further properties: filtering the table *)

Lemma cell_isin_spec (selected : list str) (v : pyval) :
  cell_isin selected v = true <-> exists s, v = VStr s /\ In s selected.
Proof.
  destruct v as [s|n|]; cbn [cell_isin].
  - rewrite existsb_exists. split.
    + intros [x [Hx E]]. apply str_eqb_eq in E. subst x. now exists s.
    + intros [s' [[= <-] Hs]]. exists s. split; [exact Hs | apply str_eqb_refl].
  - split; [discriminate | intros [s [H _]]; discriminate].
  - split; [discriminate | intros [s [H _]]; discriminate].
Qed.

Lemma select_all {A : Type} (mask : list bool) (cells : list A) :
  Forall (fun b => b = true) mask -> length mask = length cells ->
  select mask cells = cells.
Proof.
  revert cells. induction mask as [|b mask IH]; intros [|c cells] Hall Hlen;
    try discriminate; [reflexivity|].
  inversion Hall as [|? ? Hb Hall']; subst. cbn [select].
  f_equal. apply IH; [exact Hall' | now injection Hlen].
Qed.

Lemma filter_all (mask : list bool) :
  Forall (fun b => b = true) mask -> filter (fun b => b) mask = mask.
Proof.
  induction 1 as [|b mask Hb _ IH]; [reflexivity|].
  subst b. cbn [filter]. now rewrite IH.
Qed.

Lemma filter_length_le (mask : list bool) :
  (length (filter (fun b => b) mask) <= length mask)%nat.
Proof.
  induction mask as [|[] mask IH]; cbn [filter length]; lia.
Qed.

Lemma select_length {A : Type} (mask : list bool) (cells : list A) :
  length mask = length cells ->
  length (select mask cells) = length (filter (fun b => b) mask).
Proof.
  revert cells. induction mask as [|b mask IH]; intros [|c cells] Hlen;
    try discriminate; [reflexivity|].
  injection Hlen as Hlen. cbn [select filter].
  destruct b; cbn [length]; now rewrite IH.
Qed.

Lemma and3_length (a b c : list bool) (n : nat) :
  length a = n -> length b = n -> length c = n -> length (and3 a b c) = n.
Proof.
  revert b c n. induction a as [|x a IH]; intros [|y b] [|z c] n Ha Hb Hc;
    cbn [and3 length] in *; try congruence.
  destruct n as [|n]; [discriminate|]. f_equal. apply IH; congruence.
Qed.

Lemma and3_all (f g h : pyval -> bool) (a b c : list pyval) :
  length a = length b -> length b = length c ->
  Forall (fun v => f v = true) a -> Forall (fun v => g v = true) b ->
  Forall (fun v => h v = true) c ->
  Forall (fun x => x = true) (and3 (map f a) (map g b) (map h c)).
Proof.
  revert b c. induction a as [|x a IH]; intros [|y b] [|z c] Hab Hbc Ha Hb Hc;
    cbn [map and3]; try discriminate; try constructor.
  - inversion Ha; inversion Hb; inversion Hc; subst.
    repeat match goal with H : _ = true |- _ => rewrite H; clear H end.
    reflexivity.
  - inversion Ha; inversion Hb; inversion Hc; subst.
    apply IH; try assumption; cbn [length] in *; congruence.
Qed.

Lemma select_and3_l (f g h : pyval -> bool) (a b c : list pyval) :
  Forall (fun v => f v = true)
         (select (and3 (map f a) (map g b) (map h c)) a).
Proof.
  revert b c. induction a as [|x a IH]; intros [|y b] [|z c];
    cbn [map and3 select]; try constructor.
  destruct (f x) eqn:Ef; cbn [andb]; [|apply IH].
  destruct (g y && h z); [|apply IH].
  constructor; [exact Ef | apply IH].
Qed.

Lemma select_and3_m (f g h : pyval -> bool) (a b c : list pyval) :
  Forall (fun v => g v = true)
         (select (and3 (map f a) (map g b) (map h c)) b).
Proof.
  revert b c. induction a as [|x a IH]; intros [|y b] [|z c];
    cbn [map and3 select]; try constructor.
  destruct (f x); cbn [andb]; [|apply IH].
  destruct (g y) eqn:Eg; cbn [andb]; [|apply IH].
  destruct (h z); [|apply IH].
  constructor; [exact Eg | apply IH].
Qed.

Lemma select_and3_r (f g h : pyval -> bool) (a b c : list pyval) :
  Forall (fun v => h v = true)
         (select (and3 (map f a) (map g b) (map h c)) c).
Proof.
  revert b c. induction a as [|x a IH]; intros [|y b] [|z c];
    cbn [map and3 select]; try constructor.
  destruct (f x); cbn [andb]; [|apply IH].
  destruct (g y); cbn [andb]; [|apply IH].
  destruct (h z) eqn:Eh; [|apply IH].
  constructor; [exact Eh | apply IH].
Qed.

Lemma dict_get_select (cols : list (str * list pyval)) (mask : list bool)
    (name : str) :
  dict_get (map (fun c => (fst c, select mask (snd c))) cols) name
  = option_map (select mask) (dict_get cols name).
Proof.
  induction cols as [|[k col] cols IH]; [reflexivity|].
  cbn [map dict_get fst snd]. destruct (str_eqb k name); [reflexivity | exact IH].
Qed.

Lemma well_formed_column (df : DataFrame) (name : str) (col : list pyval) :
  well_formed df -> dict_get (columns df) name = Some col ->
  length col = nrows df.
Proof.
  unfold well_formed. rewrite Forall_forall. intros Hwf Hget.
  apply dict_get_In in Hget. exact (Hwf _ Hget).
Qed.

(** The mask that [filter_data] builds from the three columns. *)
Definition filter_mask (a b c : list pyval)
    (selected_types selected_constellations selected_seasons : list str)
  : list bool :=
  and3 (map (cell_isin selected_types) a)
       (map (cell_isin selected_constellations) b)
       (map (cell_isin selected_seasons) c).

Lemma filter_data_run (data : DataFrame) (a b c : list pyval)
    (selected_types selected_constellations selected_seasons : list str) :
  dict_get (columns data) (u "Object type") = Some a ->
  dict_get (columns data) (u "Constellation") = Some b ->
  dict_get (columns data) (u "Best Viewing") = Some c ->
  filter_data data selected_types selected_constellations selected_seasons
  = inr (df_select data
           (filter_mask a b c selected_types selected_constellations
                        selected_seasons)).
Proof.
  intros Ha Hb Hc. unfold filter_data, df_getitem.
  rewrite Ha, Hb, Hc. reflexivity.
Qed.

Lemma filter_mask_length (data : DataFrame) (a b c : list pyval)
    (st sc ss : list str) :
  well_formed data ->
  dict_get (columns data) (u "Object type") = Some a ->
  dict_get (columns data) (u "Constellation") = Some b ->
  dict_get (columns data) (u "Best Viewing") = Some c ->
  length (filter_mask a b c st sc ss) = nrows data.
Proof.
  intros Hwf Ha Hb Hc. unfold filter_mask.
  apply and3_length; rewrite length_map;
    eapply well_formed_column; eassumption.
Qed.

Lemma df_select_well_formed (data : DataFrame) (mask : list bool) :
  well_formed data -> length mask = nrows data ->
  well_formed (df_select data mask).
Proof.
  unfold well_formed, df_select. cbn [nrows columns].
  rewrite !Forall_forall. intros Hwf Hlen c Hc.
  apply in_map_iff in Hc. destruct Hc as [c0 [<- Hc0]]. cbn [snd].
  apply select_length. rewrite Hlen. symmetry. now apply Hwf.
Qed.

(** A table whose three columns hold selected values only passes the
    filter as it is. *)
Lemma filter_data_fixed (data : DataFrame) (a b c : list pyval)
    (st sc ss : list str) :
  well_formed data ->
  dict_get (columns data) (u "Object type") = Some a ->
  dict_get (columns data) (u "Constellation") = Some b ->
  dict_get (columns data) (u "Best Viewing") = Some c ->
  Forall (fun v => cell_isin st v = true) a ->
  Forall (fun v => cell_isin sc v = true) b ->
  Forall (fun v => cell_isin ss v = true) c ->
  filter_data data st sc ss = inr data.
Proof.
  intros Hwf Ha Hb Hc Fa Fb Fc.
  rewrite (filter_data_run data a b c st sc ss Ha Hb Hc). f_equal.
  pose proof (filter_mask_length data a b c st sc ss Hwf Ha Hb Hc) as Hlen.
  assert (Hall : Forall (fun x => x = true) (filter_mask a b c st sc ss)).
  { apply and3_all; try assumption.
    - rewrite (well_formed_column data _ a Hwf Ha).
      now rewrite (well_formed_column data _ b Hwf Hb).
    - rewrite (well_formed_column data _ b Hwf Hb).
      now rewrite (well_formed_column data _ c Hwf Hc). }
  unfold df_select. rewrite (filter_all _ Hall), Hlen.
  destruct data as [n cols]. cbn [nrows columns] in *. f_equal.
  unfold well_formed in Hwf. cbn [nrows columns] in Hwf.
  clear Ha Hb Hc. induction cols as [|[k col] cols IH]; [reflexivity|].
  inversion Hwf as [|? ? Hcol Hwf']; subst. cbn [map fst snd] in *.
  rewrite select_all by congruence. f_equal. now apply IH.
Qed.

(** A table without one of the columns 'Object type', 'Constellation'
    and 'Best Viewing' makes [filter_data] raise [KeyError], whatever
    is selected. *)
Theorem filter_data_missing_column (data : DataFrame) (name : str)
    (selected_types selected_constellations selected_seasons : list str) :
  In name [u "Object type"; u "Constellation"; u "Best Viewing"] ->
  dict_get (columns data) name = None ->
  filter_data data selected_types selected_constellations selected_seasons
  = inl KeyError.
Proof.
  intros Hname Hnone. unfold filter_data, df_getitem.
  destruct Hname as [<-|[<-|[<-|[]]]].
  - now rewrite Hnone.
  - rewrite Hnone.
    now destruct (dict_get (columns data) (u "Object type")).
  - rewrite Hnone.
    destruct (dict_get (columns data) (u "Object type")); [|reflexivity].
    now destruct (dict_get (columns data) (u "Constellation")).
Qed.

Lemma filter_data_missing_column_witness :
  filter_data {| nrows := 0; columns := [] |} [] [] [] = inl KeyError.
Proof.
  apply (filter_data_missing_column {| nrows := 0; columns := [] |}
           (u "Constellation") [] [] []).
  - right. left. reflexivity.
  - reflexivity.
Defined.

(** On a well-formed table with the three columns, [filter_data]
    returns a well-formed table with the same columns and at most as
    many rows, in which every cell of 'Object type', 'Constellation'
    and 'Best Viewing' is a string of the corresponding selection; a
    row with a missing cell in one of these columns is never kept. *)
Theorem filter_data_keeps_selected (data : DataFrame) (a b c : list pyval)
    (selected_types selected_constellations selected_seasons : list str) :
  well_formed data ->
  dict_get (columns data) (u "Object type") = Some a ->
  dict_get (columns data) (u "Constellation") = Some b ->
  dict_get (columns data) (u "Best Viewing") = Some c ->
  exists out a' b' c',
    filter_data data selected_types selected_constellations selected_seasons
    = inr out
    /\ well_formed out
    /\ (nrows out <= nrows data)%nat
    /\ column_names out = column_names data
    /\ dict_get (columns out) (u "Object type") = Some a'
    /\ dict_get (columns out) (u "Constellation") = Some b'
    /\ dict_get (columns out) (u "Best Viewing") = Some c'
    /\ Forall (fun v => exists s, v = VStr s /\ In s selected_types) a'
    /\ Forall (fun v => exists s, v = VStr s /\ In s selected_constellations) b'
    /\ Forall (fun v => exists s, v = VStr s /\ In s selected_seasons) c'.
Proof.
  intros Hwf Ha Hb Hc.
  set (mask := filter_mask a b c selected_types selected_constellations
                           selected_seasons).
  pose proof (filter_mask_length data a b c selected_types
                selected_constellations selected_seasons Hwf Ha Hb Hc) as Hlen.
  fold mask in Hlen.
  exists (df_select data mask), (select mask a), (select mask b), (select mask c).
  split; [now apply filter_data_run|].
  split; [now apply df_select_well_formed|].
  split; [cbn [df_select nrows]; rewrite <- Hlen; apply filter_length_le|].
  split.
  { unfold column_names, df_select. cbn [columns]. rewrite map_map.
    apply map_ext. reflexivity. }
  unfold df_select. cbn [columns]. rewrite !dict_get_select, Ha, Hb, Hc.
  repeat (split; [reflexivity|]).
  split; [|split].
  - eapply Forall_impl; [|apply select_and3_l].
    intros v Hv. now apply cell_isin_spec.
  - eapply Forall_impl; [|apply select_and3_m].
    intros v Hv. now apply cell_isin_spec.
  - eapply Forall_impl; [|apply select_and3_r].
    intros v Hv. now apply cell_isin_spec.
Qed.

Definition three_rows : DataFrame :=
  {| nrows := 3;
     columns :=
       [(u "Object type",
         [VStr (u "Spiral Galaxy"); VStr (u "Globular Cluster"); VNone]);
        (u "Constellation",
         [VStr (u "Andromeda"); VStr (u "Hercules"); VStr (u "Taurus")]);
        (u "Best Viewing",
         [VStr (u "Autumn"); VStr (u "Summer"); VStr (u "Winter")])] |}.

Lemma three_rows_well_formed : well_formed three_rows.
Proof. unfold well_formed, three_rows. cbn [nrows columns]. repeat constructor. Qed.

Lemma filter_data_keeps_selected_witness :
  exists out a' b' c',
    filter_data three_rows [u "Spiral Galaxy"] [u "Andromeda"; u "Hercules"]
                [u "Autumn"]
    = inr out
    /\ well_formed out
    /\ (nrows out <= nrows three_rows)%nat
    /\ column_names out = column_names three_rows
    /\ dict_get (columns out) (u "Object type") = Some a'
    /\ dict_get (columns out) (u "Constellation") = Some b'
    /\ dict_get (columns out) (u "Best Viewing") = Some c'
    /\ Forall (fun v => exists s, v = VStr s /\ In s [u "Spiral Galaxy"]) a'
    /\ Forall (fun v => exists s, v = VStr s
                        /\ In s [u "Andromeda"; u "Hercules"]) b'
    /\ Forall (fun v => exists s, v = VStr s /\ In s [u "Autumn"]) c'.
Proof.
  apply (filter_data_keeps_selected three_rows
           [VStr (u "Spiral Galaxy"); VStr (u "Globular Cluster"); VNone]
           [VStr (u "Andromeda"); VStr (u "Hercules"); VStr (u "Taurus")]
           [VStr (u "Autumn"); VStr (u "Summer"); VStr (u "Winter")]).
  - exact three_rows_well_formed.
  - reflexivity.
  - reflexivity.
  - reflexivity.
Defined.

(** Filtering twice with the same selections is filtering once. *)
Theorem filter_data_idempotent (data out : DataFrame)
    (selected_types selected_constellations selected_seasons : list str) :
  well_formed data ->
  filter_data data selected_types selected_constellations selected_seasons
  = inr out ->
  filter_data out selected_types selected_constellations selected_seasons
  = inr out.
Proof.
  intros Hwf Hrun. unfold filter_data, df_getitem in Hrun.
  destruct (dict_get (columns data) (u "Object type")) as [a|] eqn:Ha;
    [|discriminate].
  destruct (dict_get (columns data) (u "Constellation")) as [b|] eqn:Hb;
    [|discriminate].
  destruct (dict_get (columns data) (u "Best Viewing")) as [c|] eqn:Hc;
    [|discriminate].
  cbn in Hrun. injection Hrun as <-.
  fold (filter_mask a b c selected_types selected_constellations
                    selected_seasons).
  set (mask := filter_mask a b c selected_types selected_constellations
                           selected_seasons).
  pose proof (filter_mask_length data a b c selected_types
                selected_constellations selected_seasons Hwf Ha Hb Hc) as Hlen.
  fold mask in Hlen.
  apply (filter_data_fixed (df_select data mask)
           (select mask a) (select mask b) (select mask c)).
  - now apply df_select_well_formed.
  - unfold df_select. cbn [columns]. now rewrite dict_get_select, Ha.
  - unfold df_select. cbn [columns]. now rewrite dict_get_select, Hb.
  - unfold df_select. cbn [columns]. now rewrite dict_get_select, Hc.
  - apply select_and3_l.
  - apply select_and3_m.
  - apply select_and3_r.
Qed.

Lemma filter_data_idempotent_witness :
  filter_data
    {| nrows := 1;
       columns := [(u "Object type", [VStr (u "Spiral Galaxy")]);
                   (u "Constellation", [VStr (u "Andromeda")]);
                   (u "Best Viewing", [VStr (u "Autumn")])] |}
    [u "Spiral Galaxy"] [u "Andromeda"; u "Hercules"] [u "Autumn"]
  = inr {| nrows := 1;
           columns := [(u "Object type", [VStr (u "Spiral Galaxy")]);
                       (u "Constellation", [VStr (u "Andromeda")]);
                       (u "Best Viewing", [VStr (u "Autumn")])] |}.
Proof.
  apply (filter_data_idempotent three_rows).
  - exact three_rows_well_formed.
  - reflexivity.
Defined.

(** A column read as text: a string cell is its string, any other
    cell counts as missing. *)
Definition as_text (col : list pyval) : text_column :=
  map (fun v => match v with VStr s => Some s | _ => None end) col.

Lemma all_offered (col : list pyval) (offered : list str) :
  Forall (fun v => exists s, v = VStr s) col ->
  (forall x, In x offered <-> In (Some x) (as_text col)) ->
  Forall (fun v => cell_isin offered v = true) col.
Proof.
  intros Hstr Hin. rewrite Forall_forall in *. intros v Hv.
  destruct (Hstr v Hv) as [s ->]. apply cell_isin_spec. exists s.
  split; [reflexivity|]. apply Hin. unfold as_text.
  apply in_map_iff. now exists (VStr s).
Qed.

(** With everything selected that [get_filter_options] offers, a table
    whose 'Object type', 'Constellation' and 'Best Viewing' cells are
    all strings comes back from [filter_data] unchanged. *)
Theorem filter_data_all_options (data : DataFrame) (a b c : list pyval) :
  well_formed data ->
  dict_get (columns data) (u "Object type") = Some a ->
  dict_get (columns data) (u "Constellation") = Some b ->
  dict_get (columns data) (u "Best Viewing") = Some c ->
  Forall (fun v => exists s, v = VStr s) a ->
  Forall (fun v => exists s, v = VStr s) b ->
  Forall (fun v => exists s, v = VStr s) c ->
  let options := get_filter_options (as_text a) (as_text b) (as_text c) in
  filter_data data (object_types options) (constellations options)
              (seasons options)
  = inr data.
Proof.
  intros Hwf Ha Hb Hc Sa Sb Sc options.
  apply (filter_data_fixed data a b c); try assumption.
  - apply all_offered; [exact Sa|]. intros x. apply object_types_In.
  - apply all_offered; [exact Sb|]. intros x.
    destruct (sorted_unique_spec (as_text b)) as (_ & _ & Hin). apply Hin.
  - apply all_offered; [exact Sc|]. intros x.
    destruct (sorted_unique_spec (as_text c)) as (_ & _ & Hin). apply Hin.
Qed.

Definition two_rows : DataFrame :=
  {| nrows := 2;
     columns :=
       [(u "Object type", [VStr (u "Spiral Galaxy"); VStr (u "Globular Cluster")]);
        (u "Constellation", [VStr (u "Andromeda"); VStr (u "Hercules")]);
        (u "Best Viewing", [VStr (u "Autumn"); VStr (u "Summer")])] |}.

Lemma filter_data_all_options_witness :
  filter_data two_rows
    [u "Spiral Galaxy"; u "Globular Cluster"]
    [u "Andromeda"; u "Hercules"]
    [u "Autumn"; u "Summer"]
  = inr two_rows.
Proof.
  apply (filter_data_all_options two_rows
           [VStr (u "Spiral Galaxy"); VStr (u "Globular Cluster")]
           [VStr (u "Andromeda"); VStr (u "Hercules")]
           [VStr (u "Autumn"); VStr (u "Summer")]).
  - unfold well_formed, two_rows. cbn [nrows columns]. repeat constructor.
  - reflexivity.
  - reflexivity.
  - reflexivity.
  - repeat constructor; eexists; reflexivity.
  - repeat constructor; eexists; reflexivity.
  - repeat constructor; eexists; reflexivity.
Defined.
